(** * BloomWatch backend: the synthetic bloom-data generator and its endpoint

    A shallow embedding of [src/server.js] and proofs of its stated properties.

    - Part I embeds the program: the two random helpers, [generateBloomData]
      and the handler of GET /api/bloom-data, over models of the JavaScript
      runtime they call (Numbers, Math, Date, parseFloat).
    - Part II introduces the vocabulary of the proofs.
    - Part III develops the theory: rounding of binary64 arithmetic, calendar
      arithmetic, and the runs of the generator.
    - Part IV states and proves the properties, named C1 to C10.
    - Part V adds further properties of the same code, named X1 to X16. *)

From Stdlib Require Import ZArith Lia Bool List String Ascii Floats.
Import ListNotations.
Local Open Scope Z_scope.

(** * Part I: the program *)

(** ** Numbers

    A JavaScript Number is an IEEE 754 binary64 value, here a primitive
    float; its arithmetic rounds to nearest, ties to even, in both. *)

Definition number := float.

Bind Scope float_scope with number.

(** The double nearest to the integer [z]. *)
Definition Z2F (z : Z) : number := SF2Prim (binary_normalize prec emax z 0 false).

(** The integral part of a finite double, toward zero; 0 for the others. *)
Definition F2Z (x : number) : Z :=
  match Prim2SF x with
  | S754_finite s m e =>
      let v := if 0 <=? e then Z.pos m * 2 ^ e else Z.pos m / 2 ^ (- e) in
      if s then - v else v
  | _ => 0
  end.

(** [Math.floor]: a finite double with a negative exponent is the fraction
    [m / 2 ^ (- e)], whose floor is an integer; every other double is its
    own floor. *)
Definition Math_floor (x : number) : number :=
  match Prim2SF x with
  | S754_finite s m e =>
      if 0 <=? e then x
      else Z2F ((if s then Z.neg m else Z.pos m) / 2 ^ (- e))
  | _ => x
  end.

(** [Math.ceil(x)] is [- Math.floor(- x)], signed zeros included. *)
Definition Math_ceil (x : number) : number := (- Math_floor (- x))%float.

Definition Math_abs (x : number) : number := abs x.

Definition isNaN (x : number) : bool := is_nan x.

(** ** Dates

    The part of ECMAScript's Date the program uses, in UTC.  A time value
    counts milliseconds since 1970-01-01T00:00:00Z. *)
Definition msPerDay : Z := 86400000.

Definition msPerHour : Z := 3600000.

Definition msPerMinute : Z := 60000.

Definition msPerSecond : Z := 1000.

Definition Day (t : Z) : Z := t / msPerDay.

Definition DaysInYear (y : Z) : Z :=
  if negb (y mod 4 =? 0) then 365
  else if negb (y mod 100 =? 0) then 366
  else if negb (y mod 400 =? 0) then 365
  else 366.

Definition DayFromYear (y : Z) : Z :=
  365 * (y - 1970) + (y - 1969) / 4 - (y - 1901) / 100 + (y - 1601) / 400.

(** The year of day [d]: an estimate from the mean length of a year, moved
    by one where it is off. *)
Definition YearFromDay (d : Z) : Z :=
  let y := 1970 + d * 400 / 146097 in
  if d <? DayFromYear y then y - 1
  else if DayFromYear (y + 1) <=? d then y + 1
  else y.

Definition YearFromTime (t : Z) : Z := YearFromDay (Day t).

Definition InLeapYear (t : Z) : Z :=
  if DaysInYear (YearFromTime t) =? 366 then 1 else 0.

Definition DayWithinYear (t : Z) : Z := Day t - DayFromYear (YearFromTime t).

Definition MonthFromTime (t : Z) : Z :=
  let d := DayWithinYear t in
  let l := InLeapYear t in
  if d <? 31 then 0
  else if d <? 59 + l then 1
  else if d <? 90 + l then 2
  else if d <? 120 + l then 3
  else if d <? 151 + l then 4
  else if d <? 181 + l then 5
  else if d <? 212 + l then 6
  else if d <? 243 + l then 7
  else if d <? 273 + l then 8
  else if d <? 304 + l then 9
  else if d <? 334 + l then 10
  else 11.

Definition DateFromTime (t : Z) : Z :=
  let d := DayWithinYear t in
  let l := InLeapYear t in
  match MonthFromTime t with
  | 0 => d + 1
  | 1 => d - 30
  | 2 => d - 58 - l
  | 3 => d - 89 - l
  | 4 => d - 119 - l
  | 5 => d - 150 - l
  | 6 => d - 180 - l
  | 7 => d - 211 - l
  | 8 => d - 242 - l
  | 9 => d - 272 - l
  | 10 => d - 303 - l
  | _ => d - 333 - l
  end.

Definition HourFromTime (t : Z) : Z := (t / msPerHour) mod 24.

Definition MinFromTime (t : Z) : Z := (t / msPerMinute) mod 60.

Definition SecFromTime (t : Z) : Z := (t / msPerSecond) mod 60.

Definition msFromTime (t : Z) : Z := t mod msPerSecond.

(** Days of the year before month [m] (0-based), [l] is 1 in a leap year. *)
Definition DaysBeforeMonth (m l : Z) : Z :=
  match m with
  | 0 => 0
  | 1 => 31
  | 2 => 59 + l
  | 3 => 90 + l
  | 4 => 120 + l
  | 5 => 151 + l
  | 6 => 181 + l
  | 7 => 212 + l
  | 8 => 243 + l
  | 9 => 273 + l
  | 10 => 304 + l
  | _ => 334 + l
  end.

Definition leap (y : Z) : Z := if DaysInYear y =? 366 then 1 else 0.

Definition DaysInMonth (y m : Z) : Z :=
  match m with
  | 1 => 28 + leap y
  | 3 | 5 | 8 | 10 => 30
  | _ => 31
  end.

Definition MakeDay (year month date : Z) : Z :=
  DayFromYear year + DaysBeforeMonth month (leap year) + date - 1.

Definition MakeDate (day time : Z) : Z := day * msPerDay + time.

(** [TimeClip]: NaN outside +-8.64e15 ms, otherwise the integral part. *)
Definition TimeClip (time : number) : number :=
  if negb (is_finite time) then nan
  else if (8.64e15 <? abs time)%float then nan
  else Z2F (F2Z time).

(** Decimal digits. *)
Definition digit (n : Z) : ascii := ascii_of_N (Z.to_N (48 + n mod 10)).

Definition digit_of (c : ascii) : option Z :=
  let n := Z.of_N (N_of_ascii c) in
  if (48 <=? n) && (n <=? 57) then Some (n - 48) else None.

Definition pad2 (n : Z) : string :=
  String (digit (n / 10)) (String (digit n) EmptyString).

Definition pad3 (n : Z) : string := String (digit (n / 100)) (pad2 n).

Definition pad4 (n : Z) : string := String (digit (n / 1000)) (pad3 n).

Definition pad6 (n : Z) : string :=
  String (digit (n / 100000)) (String (digit (n / 10000)) (pad4 n)).

Definition year_string (y : Z) : string :=
  if (0 <=? y) && (y <=? 9999) then pad4 y
  else if y <? 0 then String "-" (pad6 (Z.abs y))
  else String "+" (pad6 (Z.abs y)).

(** The date-only form YYYY-MM-DD of the ECMAScript date-time string format:
    the year, month and day its digits spell, whether or not they name a
    day of the calendar. *)
Definition parse_date_only (s : string) : option (Z * Z * Z) :=
  match s with
  | String y1 (String y2 (String y3 (String y4 (String h1
      (String m1 (String m2 (String h2 (String d1 (String d2 EmptyString))))))))) =>
      if Ascii.eqb h1 "-" && Ascii.eqb h2 "-" then
        match digit_of y1, digit_of y2, digit_of y3, digit_of y4,
              digit_of m1, digit_of m2, digit_of d1, digit_of d2 with
        | Some a, Some b, Some c, Some d, Some e, Some f, Some g, Some h =>
            Some (1000 * a + 100 * b + 10 * c + d, 10 * e + f, 10 * g + h)
        | _, _, _, _, _, _, _, _ => None
        end
      else None
  | _ => None
  end.

(** The fields name a day of the calendar. *)
Definition valid_ymd (y m d : Z) : bool :=
  (1 <=? m) && (m <=? 12) && (1 <=? d) && (d <=? DaysInMonth y (m - 1)).

(** A Date object holds a time value.  [new Date(v)] clips the Number [v], or
    what the engine's [Date.parse] makes of the string [v]. *)
Record Date := { time_value : number }.

Definition Date_of_string (parse : string -> number) (s : string) : Date :=
  {| time_value := TimeClip (parse s) |}.

Definition Date_of_number (v : number) : Date := {| time_value := TimeClip v |}.

Definition getTime (d : Date) : number := time_value d.

(** The two halves of [toISOString]: YYYY-MM-DD and HH:mm:ss.sssZ. *)
Definition iso_date (t : Z) : string :=
  (year_string (YearFromTime t) ++ "-" ++ pad2 (MonthFromTime t + 1) ++ "-"
     ++ pad2 (DateFromTime t))%string.

Definition iso_time (t : Z) : string :=
  (pad2 (HourFromTime t) ++ ":" ++ pad2 (MinFromTime t) ++ ":" ++ pad2 (SecFromTime t)
     ++ "." ++ pad3 (msFromTime t) ++ "Z")%string.

Inductive error := RangeError (msg : string).

(** [toISOString] throws a RangeError on an invalid date. *)
Definition toISOString (d : Date) : string + error :=
  if is_nan (time_value d) then inr (RangeError "Invalid time value")
  else let t := F2Z (time_value d) in inl (iso_date t ++ "T" ++ iso_time t)%string.

(** [s.split(sep)] for a one-character separator. *)
Fixpoint split_aux (sep : ascii) (s : string) (cur : string) : list string :=
  match s with
  | EmptyString => [cur]
  | String c s' =>
      if Ascii.eqb c sep then cur :: split_aux sep s' EmptyString
      else split_aux sep s' (cur ++ String c EmptyString)
  end.

Definition split (sep : ascii) (s : string) : list string := split_aux sep s EmptyString.

(** ** parseFloat

    Leading white space is skipped; the longest prefix that is a decimal
    literal (sign, digits, fraction, exponent) or a signed Infinity is read,
    and rounded to the nearest double; NaN when there is no such prefix. *)

(** Strings hold the UTF-8 bytes of the JavaScript string.  [white_space s] is
    the number of bytes of the white space or line terminator [s] starts
    with, 0 when it starts with none: TAB, LF, VT, FF, CR and SP in one byte;
    U+00A0 in two; U+1680, U+2000 to U+200A, U+2028, U+2029, U+202F, U+205F,
    U+3000 and U+FEFF in three. *)
Definition white_space (s : string) : nat :=
  match s with
  | String c1 s1 =>
      let b1 := N_of_ascii c1 in
      if (b1 =? 32)%N || ((9 <=? b1)%N && (b1 <=? 13)%N) then 1%nat
      else
        match s1 with
        | String c2 s2 =>
            let b2 := N_of_ascii c2 in
            if (b1 =? 194)%N && (b2 =? 160)%N then 2%nat
            else
              match s2 with
              | String c3 _ =>
                  let b3 := N_of_ascii c3 in
                  if (b1 =? 225)%N && (b2 =? 154)%N && (b3 =? 128)%N then 3%nat
                  else if (b1 =? 226)%N && (b2 =? 128)%N
                          && (((128 <=? b3)%N && (b3 <=? 138)%N)
                              || (b3 =? 168)%N || (b3 =? 169)%N || (b3 =? 175)%N)
                  then 3%nat
                  else if (b1 =? 226)%N && (b2 =? 129)%N && (b3 =? 159)%N then 3%nat
                  else if (b1 =? 227)%N && (b2 =? 128)%N && (b3 =? 128)%N then 3%nat
                  else if (b1 =? 239)%N && (b2 =? 187)%N && (b3 =? 191)%N then 3%nat
                  else 0%nat
              | EmptyString => 0%nat
              end
        | EmptyString => 0%nat
        end
  | EmptyString => 0%nat
  end.

(** [s] without its first [n] bytes. *)
Fixpoint skip (n : nat) (s : string) : string :=
  match n, s with
  | S n', String _ s' => skip n' s'
  | _, _ => s
  end.

(** Leading white space removed; each step removes at least one byte, so
    [fuel] steps suffice for a string of [fuel] bytes. *)
Fixpoint trim_start_from (fuel : nat) (s : string) : string :=
  match fuel with
  | O => s
  | S fuel' =>
      match white_space s with
      | O => s
      | n => trim_start_from fuel' (skip n s)
      end
  end.

Definition trim_start (s : string) : string := trim_start_from (String.length s) s.

Fixpoint take_digits (s : string) : list Z * string :=
  match s with
  | String c s' =>
      match digit_of c with
      | Some d => let (ds, rest) := take_digits s' in (d :: ds, rest)
      | None => ([], s)
      end
  | EmptyString => ([], s)
  end.

Definition digits_value (ds : list Z) : Z := fold_left (fun acc d => 10 * acc + d) ds 0.

Definition take_sign (s : string) : bool * string :=
  match s with
  | String "-" r => (true, r)
  | String "+" r => (false, r)
  | _ => (false, s)
  end.

Fixpoint strip_zeros (ds : list Z) : list Z :=
  match ds with
  | 0 :: ds' => strip_zeros ds'
  | _ => ds
  end.

(** The double nearest to [m * 10 ^ e10], for [0 < m]. *)
Definition decimal_to_float (m e10 : Z) : number :=
  if 0 <=? e10 then Z2F (m * 10 ^ e10)
  else
    let '(q, e, l) := SFdiv_core_binary prec emax m 0 (10 ^ (- e10)) 0 in
    SF2Prim (binary_round_aux prec emax false q e l).

(** Magnitudes far outside the range of doubles are decided without computing
    the power of ten. *)
Definition parseFloat (input : string) : number :=
  let (neg, s) := take_sign (trim_start input) in
  if prefix "Infinity" s then (if neg then neg_infinity else infinity)
  else
    let (ip, s1) := take_digits s in
    let (fp, s2) := match s1 with String "." r => take_digits r | _ => ([], s1) end in
    match ip ++ fp with
    | [] => nan
    | ds =>
        let ex :=
          match s2 with
          | String c r =>
              if Ascii.eqb c "e" || Ascii.eqb c "E" then
                let (eneg, r') := take_sign r in
                let (ed, _) := take_digits r' in
                if eneg then - digits_value ed else digits_value ed
              else 0
          | EmptyString => 0
          end in
        let m := digits_value ds in
        let e10 := ex - Z.of_nat (List.length fp) in
        let mag := e10 + Z.of_nat (List.length (strip_zeros ds)) in
        let v :=
          if m =? 0 then zero
          else if 310 <? mag then infinity
          else if mag <? -330 then zero
          else decimal_to_float m e10 in
        if neg then (- v)%float else v
    end.

(** ** Effects: Math.random, console.log, exceptions

    A computation reads the values of Math.random() from a stream, appends
    to the console, and returns, throws, or runs out of loop fuel.  The world
    counts the draws made so far. *)

Inductive log_line :=
| LogReceived
| LogCenter (lat lon : number)
| LogRadius (radius : number)
| LogDates (startDate endDate : string).

Record world := { draws : nat; console : list log_line }.

Inductive outcome (A : Type) :=
| Returned (a : A)
| Thrown (e : error)
| OutOfFuel.

Arguments Returned {A} a.

Arguments Thrown {A} e.

Arguments OutOfFuel {A}.

Definition M (A : Type) : Type := world -> outcome A * world.

Definition ret {A} (a : A) : M A := fun w => (Returned a, w).

Definition bind {A B} (m : M A) (k : A -> M B) : M B :=
  fun w =>
    match m w with
    | (Returned a, w') => k a w'
    | (Thrown e, w') => (Thrown e, w')
    | (OutOfFuel, w') => (OutOfFuel, w')
    end.

Notation "x <- m ;; k" := (bind m (fun x => k))
  (at level 61, m at next level, right associativity).

Notation "m ;;; k" := (bind m (fun _ => k))
  (at level 61, right associativity).

Definition throw {A} (e : error) : M A := fun w => (Thrown e, w).

Definition out_of_fuel {A} : M A := fun w => (OutOfFuel, w).

Definition lift {A} (r : A + error) : M A :=
  match r with inl a => ret a | inr e => throw e end.

Definition console_log (l : log_line) : M unit :=
  fun w => (Returned tt, {| draws := draws w; console := console w ++ [l] |}).

Section Server.

(** The values Math.random() returns, in call order. *)
Variable entropy : nat -> number.

(** The engine's [Date.parse].  ECMAScript fixes its value on the date-time
    string format; what a string in another form parses to is left to the
    engine, so the program is embedded for an arbitrary one. *)
Variable Date_parse : string -> number.

Definition Math_random : M number :=
  fun w => (Returned (entropy (draws w)), {| draws := S (draws w); console := console w |}).

Definition getRandomFloat (min max : number) : M number :=
  rnd <- Math_random ;;
  ret (rnd * (max - min) + min)%float.

Definition getRandomInt (min max : number) : M number :=
  let min := Math_ceil min in
  let max := Math_floor max in
  rnd <- Math_random ;;
  ret (Math_floor (rnd * (max - min + 1)) + min)%float.

(** ** GeoJSON values *)

Record Geometry := { geometry_type : string; coordinates : list number }.

(** A property read from an array is a string or [undefined], here [None]. *)
Record Properties := {
  intensity : number;
  trend : option string;
  prediction : option string;
  date : string
}.

Record Feature := {
  feature_type : string;
  geometry : Geometry;
  properties : Properties
}.

Record FeatureCollection := { collection_type : string; features : list Feature }.

(** [arr[k]] for a Number key: [undefined] unless [k] is an index of [arr]. *)
Definition array_get {A} (arr : list A) (k : number) : option A :=
  if is_finite k && (Math_floor k =? k)%float && (0 <=? k)%float
  then nth_error arr (Z.to_nat (F2Z k)) else None.

Definition trends : list string := ["earlier"; "stable"; "later"]%string.

Definition predictions : list string :=
  ["significant"; "moderate"; "slight"; "no_change"]%string.

Definition make_feature (minLat maxLat minLon maxLon : number) (startDate endDate : Date)
  : M Feature :=
  pointLat <- getRandomFloat minLat maxLat ;;
  pointLon <- getRandomFloat minLon maxLon ;;
  randomTimestamp <- getRandomInt (getTime startDate) (getTime endDate) ;;
  let randomDate := Date_of_number randomTimestamp in
  let latitudeFactor := ((90 - Math_abs pointLat) / 90)%float in
  rnd <- Math_random ;;
  let intensity := (rnd * latitudeFactor)%float in
  trendIndex <- getRandomInt 0 2 ;;
  predictionIndex <- getRandomInt 0 3 ;;
  iso <- lift (toISOString randomDate) ;;
  ret {| feature_type := "Feature";
         geometry := {| geometry_type := "Point"; coordinates := [pointLon; pointLat] |};
         properties := {| intensity := intensity;
                          trend := array_get trends trendIndex;
                          prediction := array_get predictions predictionIndex;
                          date := hd EmptyString (split "T" iso) |} |}.

(** [for (let i = 0; i < numberOfPoints; i++) { ...; features.push(feature) }]:
    the counter is a Number, and [fuel] bounds the iterations the model may
    run. *)
Fixpoint for_loop (fuel : nat) (i numberOfPoints : number) (body : M Feature)
  (features : list Feature) : M (list Feature) :=
  if (i <? numberOfPoints)%float then
    match fuel with
    | O => out_of_fuel
    | S fuel' =>
        feature <- body ;;
        for_loop fuel' (i + 1)%float numberOfPoints body (features ++ [feature])
    end
  else ret features.

Definition generateBloomData (fuel : nat) (lat lon radius : number)
  (startDateStr endDateStr : string) : M FeatureCollection :=
  numberOfPoints <- getRandomInt 150 350 ;;
  let minLat := (lat - radius)%float in
  let maxLat := (lat + radius)%float in
  let minLon := (lon - radius)%float in
  let maxLon := (lon + radius)%float in
  let startDate := Date_of_string Date_parse startDateStr in
  let endDate := Date_of_string Date_parse endDateStr in
  features <- for_loop fuel 0 numberOfPoints
                (make_feature minLat maxLat minLon maxLon startDate endDate) [] ;;
  ret {| collection_type := "FeatureCollection"; features := features |}.

(** ** GET /api/bloom-data *)

(** [req.query]: each parameter is a string, or absent ([undefined]). *)
Record query := {
  q_lat : option string;
  q_lon : option string;
  q_radius : option string;
  q_startDate : option string;
  q_endDate : option string
}.

Inductive body :=
| ErrorBody (error : string)
| DataBody (data : FeatureCollection).

Record response := { status : Z; json : body }.

(** JavaScript truthiness of a query value: undefined and the empty string
    are falsy. *)
Definition truthy (v : option string) : bool :=
  match v with
  | Some s => negb (s =? "")%string
  | None => false
  end.

(** The string [parseFloat] and the template literals read. *)
Definition ToString (v : option string) : string :=
  match v with Some s => s | None => "undefined" end.

Definition missing_message : string :=
  "Missing required query parameters. Required: lat, lon, radius, startDate, endDate.".

Definition invalid_message : string :=
  "Invalid geographic parameters. lat, lon, and radius must be numbers.".

Definition bloom_data_handler (fuel : nat) (q : query) : M response :=
  let lat := q_lat q in
  let lon := q_lon q in
  let radius := q_radius q in
  let startDate := q_startDate q in
  let endDate := q_endDate q in
  if negb (truthy lat) || negb (truthy lon) || negb (truthy radius)
     || negb (truthy startDate) || negb (truthy endDate)
  then ret {| status := 400; json := ErrorBody missing_message |}
  else
    let latNum := parseFloat (ToString lat) in
    let lonNum := parseFloat (ToString lon) in
    let radiusNum := parseFloat (ToString radius) in
    if isNaN latNum || isNaN lonNum || isNaN radiusNum
    then ret {| status := 400; json := ErrorBody invalid_message |}
    else
      console_log LogReceived ;;;
      console_log (LogCenter latNum lonNum) ;;;
      console_log (LogRadius radiusNum) ;;;
      console_log (LogDates (ToString startDate) (ToString endDate)) ;;;
      data <- generateBloomData fuel latNum lonNum radiusNum
                (ToString startDate) (ToString endDate) ;;
      ret {| status := 200; json := DataBody data |}.

End Server.

(** The world before any draw. *)
Definition w0 : world := {| draws := 0; console := [] |}.

(** * Part II: vocabulary of the proofs *)

(** ** Values drawn by the helpers

    [getRandomFloat] and [getRandomInt] draw one number and compute with it;
    these are the values they return when Math.random() yields [rnd]. *)

Definition randomFloat_value (rnd min max : number) : number := (rnd * (max - min) + min)%float.

Definition randomInt_value (rnd min max : number) : number :=
  let min := Math_ceil min in
  let max := Math_floor max in
  (Math_floor (rnd * (max - min + 1)) + min)%float.

(** ** Binary64 values as integers

    A finite double is [m * 2 ^ e] with [emin <= e], and [emin = -1074].
    Counting in units of [2 ^ (- K)] with [K = 2 * 1074] makes every double,
    and every exact product of two doubles, an integer.  [INF] is the value
    given to an infinity: the first power of two no double reaches. *)

Definition K : Z := 2148.

Definition INF : Z := 2 ^ (emax + K).

Arguments K : simpl never.

Arguments INF : simpl never.

(** [a / b] rounded to the nearest integer, ties to the even one. *)
Definition rne (a b : Z) : Z :=
  let q := a / b in
  match 2 * (a mod b) ?= b with
  | Lt => q
  | Gt => q + 1
  | Eq => if Z.even q then q else q + 1
  end.

(** The exponent of the last place of a double near [a / b] units. *)
Definition cexpZ (a b : Z) : Z := Z.max (Z.log2 (a / b) + 1 - prec) (K + emin).

(** [a / b] units rounded to 53 significant bits. *)
Definition rnd_pos (a b : Z) : Z :=
  let c := cexpZ a b in rne a (b * 2 ^ c) * 2 ^ c.

(** [R n d]: the double nearest to [n / d] units, overflowing to [INF]. *)
Definition R (n d : Z) : Z :=
  match n with
  | 0 => 0
  | Zpos _ => Z.min INF (rnd_pos n d)
  | Zneg _ => - Z.min INF (rnd_pos (- n) d)
  end.

(** The fractions [R] is used on: zero, or at least one unit in size. *)
Definition admissible (n d : Z) : Prop := 0 < d /\ (n = 0 \/ d <= Z.abs n).

Definition sgn (s : bool) (v : Z) : Z := if s then - v else v.

(** The value of a [spec_float] in units; NaN is given 0 and is always
    excluded by a separate hypothesis. *)
Definition val (x : spec_float) : Z :=
  match x with
  | S754_zero _ => 0
  | S754_nan => 0
  | S754_infinity s => sgn s INF
  | S754_finite s m e => sgn s (Z.pos m * 2 ^ (e + K))
  end.

Definition SFis_nan (x : spec_float) : bool :=
  match x with S754_nan => true | _ => false end.

(** Round bit, sticky bit, shift record and location of the fraction [a / b],
    as SpecFloat's rounding reads them. *)
Definition rbit (a b : Z) : bool := b <=? 2 * (a mod b).

Definition sbit (a b : Z) : bool :=
  negb (a mod b =? 0) && negb (2 * (a mod b) =? b).

Definition rec (a b : Z) : shr_record := Build_shr_record (a / b) (rbit a b) (sbit a b).

Definition loc_of (a b : Z) : location :=
  if a mod b =? 0 then loc_Exact else loc_Inexact (2 * (a mod b) ?= b).

Definition SFfinite (x : spec_float) : bool :=
  match x with S754_zero _ | S754_finite _ _ _ => true | _ => false end.

(** The same notions on primitive floats. *)
Definition fval (x : float) : Z := val (Prim2SF x).

Definition Finite (x : float) : bool := SFfinite (Prim2SF x).

(** [IsInt x z]: the float [x] is finite and its value is the integer [z]. *)
Definition IsInt (x : float) (z : Z) : Prop := Finite x = true /\ fval x = z * 2 ^ K.

(** The range of Math.random(): [0 <= r < 1]. *)
Definition unit_interval (r : float) : bool := ((0 <=? r) && (r <? 1))%float.

(** ** Calendar dates *)

(** First day of the year after month [m], [l] being 1 in a leap year. *)
Definition month_end (m l : Z) : Z :=
  if m =? 11 then 365 + l else DaysBeforeMonth (m + 1) l.

(** The calendar date of a time value as the number YYYYMMDD. *)
Definition date_code (t : Z) : Z :=
  10000 * YearFromTime t + 100 * (MonthFromTime t + 1) + DateFromTime t.

(** The text YYYY-MM-DD of year, month (1..12) and day. *)
Definition fmt_date (y m d : Z) : string :=
  (pad4 y ++ "-" ++ pad2 m ++ "-" ++ pad2 d)%string.

(** The character [sep] does not occur in [s]. *)
Fixpoint no_char (sep : ascii) (s : string) : bool :=
  match s with
  | EmptyString => true
  | String c s' => negb (Ascii.eqb c sep) && no_char sep s'
  end.

(** ** Engines

    The program is embedded for an arbitrary [Date.parse].  An engine conforms
    when it reads the date-only form YYYY-MM-DD of a calendar date as midnight
    UTC of that day, which is what ECMAScript asks of every engine on these
    strings. *)

Definition parses_date_only (parse : string -> number) : Prop :=
  forall s y m d, parse_date_only s = Some (y, m, d) -> valid_ymd y m d = true ->
    parse s = Z2F (MakeDate (MakeDay y (m - 1) d) 0).

(** The string is the date-only form of a calendar date: four digits of year,
    a month from 01 to 12 and a day of that month. *)
Definition valid_date_string (s : string) : bool :=
  match parse_date_only s with
  | Some (y, m, d) => valid_ymd y m d
  | None => false
  end.

(** One conforming engine, on which the sample runs are evaluated.  On the
    strings of the form dddd-dd-dd it does what V8 (Node.js) does: a day up to
    31 is accepted in every month, and the days past the end of the month
    count into the next one, so 2025-02-30 is 2025-03-02; a month outside 01
    to 12 or a day outside 01 to 31 is no date.  It reads no other form, and
    the sample runs use it on no string that V8 would read otherwise. *)
Definition date_only_parse (s : string) : number :=
  match parse_date_only s with
  | Some (y, m, d) =>
      if (1 <=? m) && (m <=? 12) && (1 <=? d) && (d <=? 31)
      then Z2F (MakeDate (MakeDay y (m - 1) d) 0) else nan
  | None => nan
  end.

(** ** Runs of the generator *)

(** Math.random() returns a Number in the unit interval at every call. *)
Definition valid_entropy (entropy : nat -> number) : Prop :=
  forall n, unit_interval (entropy n) = true.

(** The world after [k] more draws. *)
Definition tick (k : nat) (w : world) : world :=
  {| draws := k + draws w; console := console w |}.

(** The timestamp and the feature of the iteration that starts at draw [n]:
    the six draws of one iteration are, in order, latitude, longitude,
    timestamp, intensity, trend index and prediction index. *)
Definition timestamp_at (entropy : nat -> number) (startDate endDate : Date) (n : nat)
  : number :=
  randomInt_value (entropy (2 + n)%nat) (getTime startDate) (getTime endDate).

Definition feature_at (entropy : nat -> number) (minLat maxLat minLon maxLon : number)
  (n : nat) (iso : string) : Feature :=
  let pointLat := randomFloat_value (entropy n) minLat maxLat in
  let pointLon := randomFloat_value (entropy (1 + n)%nat) minLon maxLon in
  {| feature_type := "Feature";
     geometry := {| geometry_type := "Point"; coordinates := [pointLon; pointLat] |};
     properties :=
       {| intensity := (entropy (3 + n)%nat * ((90 - Math_abs pointLat) / 90))%float;
          trend := array_get trends (randomInt_value (entropy (4 + n)%nat) 0 2);
          prediction := array_get predictions (randomInt_value (entropy (5 + n)%nat) 0 3);
          date := hd EmptyString (split "T" iso) |} |}.

(** [m] iterations of the loop body, without counter or fuel. *)
Fixpoint iterate (body : M Feature) (m : nat) (features : list Feature) : M (list Feature) :=
  match m with
  | O => ret features
  | S m' => feature <- body ;; iterate body m' (features ++ [feature])
  end.

(** Three constant sources: the least and the greatest value Math.random()
    can return, and one in the middle. *)
Definition zero_entropy : nat -> number := fun _ => 0%float.

Definition top_entropy : nat -> number := fun _ => 0x1.fffffffffffffp-1%float.

Definition half_entropy : nat -> number := fun _ => 0.5%float.

(** The collection a run returns, or an empty one when it does not return. *)
Definition returned_collection (r : outcome FeatureCollection * world) : FeatureCollection :=
  match fst r with
  | Returned fc => fc
  | _ => {| collection_type := EmptyString; features := [] |}
  end.

Definition returned_features (r : outcome FeatureCollection * world) : list Feature :=
  features (returned_collection r).

Definition returns {A} (r : outcome A * world) : bool :=
  match fst r with Returned _ => true | _ => false end.

(** A run on a typical request: center (10, 20), radius 2, spring 2025. *)
Definition sample_run : outcome FeatureCollection * world :=
  generateBloomData half_entropy date_only_parse 350 10 20 2 "2025-03-01" "2025-05-31" w0.

(** The same request with the end date equal to the start date. *)
Definition same_day_run : outcome FeatureCollection * world :=
  generateBloomData half_entropy date_only_parse 350 10 20 2 "2025-03-01" "2025-03-01" w0.

(** A run between 30 February and itself. *)
Definition overflow_run : outcome FeatureCollection * world :=
  generateBloomData half_entropy date_only_parse 350 10 20 2 "2025-02-30" "2025-02-30" w0.

(** Three more runs: a negative radius, the two dates in the other order, and
    a center beyond the north pole. *)
Definition negative_radius_run : outcome FeatureCollection * world :=
  generateBloomData half_entropy date_only_parse 350 10 20 (-2) "2025-03-01" "2025-05-31" w0.

Definition inverted_run : outcome FeatureCollection * world :=
  generateBloomData half_entropy date_only_parse 350 10 20 2 "2025-05-31" "2025-03-01" w0.

Definition polar_run : outcome FeatureCollection * world :=
  generateBloomData half_entropy date_only_parse 350 120 20 2 "2025-03-01" "2025-05-31" w0.

(** [lo <= x <= hi] on Numbers; false as soon as one of them is NaN. *)
Definition within (lo hi x : number) : bool := ((lo <=? x) && (x <=? hi))%float.

(** ** Requests *)

(** A query value with the empty string turned into an absent one. *)
Definition drop_empty (v : option string) : option string :=
  match v with
  | Some EmptyString => None
  | _ => v
  end.

Definition without_empty (q : query) : query :=
  {| q_lat := drop_empty (q_lat q);
     q_lon := drop_empty (q_lon q);
     q_radius := drop_empty (q_radius q);
     q_startDate := drop_empty (q_startDate q);
     q_endDate := drop_empty (q_endDate q) |}.

(** The world after the four log lines of an accepted request. *)
Definition logged (latNum lonNum radiusNum : number) (startDate endDate : string) (w : world)
  : world :=
  {| draws := draws w;
     console := (((console w ++ [LogReceived]) ++ [LogCenter latNum lonNum])
                   ++ [LogRadius radiusNum]) ++ [LogDates startDate endDate] |}.

(** A query with all five parameters present. *)
Definition sample_query (lat lon radius startDate endDate : string) : query :=
  {| q_lat := Some lat; q_lon := Some lon; q_radius := Some radius;
     q_startDate := Some startDate; q_endDate := Some endDate |}.

(** * Part III: theory *)

(** ** Rounding to nearest, ties to even

    Bounds, monotonicity and scaling of [rne], [cexpZ], [rnd_pos] and [R]. *)

Lemma rne_cases a b :
  0 < b -> rne a b = a / b \/ rne a b = a / b + 1 /\ b <= 2 * (a mod b).
Proof.
  intros Hb. unfold rne.
  destruct (Z.compare_spec (2 * (a mod b)) b) as [E|E|E]; auto.
  - destruct (Z.even (a / b)); auto. right. split; lia.
  - right. split; lia.
Qed.

Lemma rne_lower a b : 0 < b -> a / b <= rne a b.
Proof. intros Hb. destruct (rne_cases a b Hb) as [->|[-> _]]; lia. Qed.

Lemma rne_le_int a b n : 0 < b -> a <= n * b -> rne a b <= n.
Proof.
  intros Hb H.
  pose proof (Z.div_mod a b ltac:(lia)) as E.
  pose proof (Z.mod_pos_bound a b Hb) as M.
  destruct (rne_cases a b Hb) as [->|[-> H2]]; nia.
Qed.

Lemma rne_ge_int a b n : 0 < b -> n * b <= a -> n <= rne a b.
Proof.
  intros Hb H.
  pose proof (rne_lower a b Hb).
  assert (n <= a / b) by (apply Z.div_le_lower_bound; lia). lia.
Qed.

Lemma rne_exact n b : 0 < b -> rne (n * b) b = n.
Proof.
  intros Hb. unfold rne. rewrite Z.div_mul, Z.mod_mul by lia.
  change (2 * 0) with 0. destruct (Z.compare_spec 0 b); lia.
Qed.

Lemma rne_scale a b k : 0 < b -> 0 < k -> rne (a * k) (b * k) = rne a b.
Proof.
  intros Hb Hk. unfold rne.
  rewrite Z.div_mul_cancel_r, Z.mul_mod_distr_r by lia.
  replace (2 * (a mod b * k)) with (2 * (a mod b) * k) by ring.
  assert (C : (2 * (a mod b) * k ?= b * k) = (2 * (a mod b) ?= b)).
  { destruct (Z.compare_spec (2 * (a mod b)) b) as [E|E|E].
    - rewrite E. apply Z.compare_refl.
    - apply Z.compare_lt_iff. nia.
    - apply Z.compare_gt_iff. nia. }
  rewrite C. reflexivity.
Qed.

Lemma rne_mono a1 a2 b : 0 < b -> a1 <= a2 -> rne a1 b <= rne a2 b.
Proof.
  intros Hb H.
  pose proof (Z.div_mod a1 b ltac:(lia)) as E1.
  pose proof (Z.div_mod a2 b ltac:(lia)) as E2.
  pose proof (Z.mod_pos_bound a1 b Hb) as M1.
  pose proof (Z.mod_pos_bound a2 b Hb) as M2.
  assert (Hq : a1 / b <= a2 / b) by (apply Z.div_le_mono; lia).
  destruct (Z.eq_dec (a1 / b) (a2 / b)) as [Eq|Ne].
  - assert (Hr : a1 mod b <= a2 mod b) by nia.
    unfold rne. rewrite Eq.
    destruct (Z.compare_spec (2 * (a1 mod b)) b), (Z.compare_spec (2 * (a2 mod b)) b);
      destruct (Z.even (a2 / b)); lia.
  - pose proof (rne_lower a2 b Hb).
    destruct (rne_cases a1 b Hb) as [->|[-> _]]; lia.
Qed.

Lemma rne_mono_frac a1 b1 a2 b2 :
  0 < b1 -> 0 < b2 -> a1 * b2 <= a2 * b1 -> rne a1 b1 <= rne a2 b2.
Proof.
  intros H1 H2 H.
  rewrite <- (rne_scale a1 b1 b2), <- (rne_scale a2 b2 b1) by lia.
  replace (b2 * b1) with (b1 * b2) by ring.
  apply rne_mono; nia.
Qed.

Lemma div_le_frac a1 b1 a2 b2 :
  0 < b1 -> 0 < b2 -> a1 * b2 <= a2 * b1 -> a1 / b1 <= a2 / b2.
Proof.
  intros H1 H2 H.
  apply Z.div_le_lower_bound; [lia|].
  pose proof (Z.mul_div_le a1 b1 H1).
  assert (b1 * (b2 * (a1 / b1)) <= b1 * a2) by nia.
  nia.
Qed.

Lemma emin_val : emin = -1074.
Proof. reflexivity. Qed.

Lemma Kemin_pos : 0 <= K + emin.
Proof. rewrite emin_val. unfold K. lia. Qed.

Lemma cexpZ_ge a b : K + emin <= cexpZ a b.
Proof. unfold cexpZ. lia. Qed.

Lemma cexpZ_nonneg a b : 0 <= cexpZ a b.
Proof. pose proof (cexpZ_ge a b). pose proof Kemin_pos. lia. Qed.

Lemma cexpZ_mono a1 b1 a2 b2 :
  0 < b1 -> 0 < b2 -> a1 * b2 <= a2 * b1 -> cexpZ a1 b1 <= cexpZ a2 b2.
Proof.
  intros H1 H2 H. unfold cexpZ.
  pose proof (Z.log2_le_mono _ _ (div_le_frac a1 b1 a2 b2 H1 H2 H)). lia.
Qed.

Lemma div_lt_bound a b n : 0 < b -> a / b < n -> a < n * b.
Proof.
  intros Hb H. pose proof (Z.div_mod a b ltac:(lia)). pose proof (Z.mod_pos_bound a b Hb). nia.
Qed.

Lemma rnd_pos_upper a b :
  0 < b -> b <= a -> rnd_pos a b <= 2 ^ (prec + cexpZ a b).
Proof.
  intros Hb Ha. unfold rnd_pos.
  pose proof (cexpZ_nonneg a b) as Hc.
  set (c := cexpZ a b) in *.
  assert (Hq : 1 <= a / b) by (apply Z.div_le_lower_bound; lia).
  assert (Hl : a / b < 2 ^ (prec + c)).
  { destruct (Z.log2_spec (a / b) ltac:(lia)) as [_ U].
    eapply Z.lt_le_trans; [exact U|].
    apply Z.pow_le_mono_r; [lia|]. unfold c, cexpZ. lia. }
  apply div_lt_bound in Hl; [|lia].
  rewrite Z.pow_add_r in * by (unfold prec; lia).
  assert (0 < 2 ^ c) by (apply Z.pow_pos_nonneg; lia).
  assert (rne a (b * 2 ^ c) <= 2 ^ prec) by (apply rne_le_int; nia).
  nia.
Qed.

Lemma rnd_pos_lower a b :
  0 < b -> b <= a -> K + emin < cexpZ a b ->
  2 ^ (prec - 1 + cexpZ a b) <= rnd_pos a b.
Proof.
  intros Hb Ha Hc0. unfold rnd_pos.
  pose proof (cexpZ_nonneg a b) as Hc.
  assert (Hq : 1 <= a / b) by (apply Z.div_le_lower_bound; lia).
  assert (E : cexpZ a b = Z.log2 (a / b) + 1 - prec) by (unfold cexpZ in *; lia).
  set (c := cexpZ a b) in *.
  destruct (Z.log2_spec (a / b) ltac:(lia)) as [L _].
  replace (Z.log2 (a / b)) with (prec - 1 + c) in L by lia.
  assert (L' : 2 ^ (prec - 1 + c) * b <= a).
  { pose proof (Z.mul_div_le a b Hb). nia. }
  rewrite Z.pow_add_r in * by (unfold prec; lia).
  assert (0 < 2 ^ c) by (apply Z.pow_pos_nonneg; lia).
  assert (2 ^ (prec - 1) <= rne a (b * 2 ^ c)) by (apply rne_ge_int; nia).
  nia.
Qed.

Lemma rnd_pos_nonneg a b : 0 < b -> 0 <= a -> 0 <= rnd_pos a b.
Proof.
  intros Hb Ha. unfold rnd_pos.
  pose proof (cexpZ_nonneg a b) as Hc.
  assert (0 < 2 ^ cexpZ a b) by (apply Z.pow_pos_nonneg; lia).
  assert (0 <= rne a (b * 2 ^ cexpZ a b)) by (apply rne_ge_int; nia).
  nia.
Qed.

Lemma rnd_pos_mono a1 b1 a2 b2 :
  0 < b1 -> 0 < b2 -> b1 <= a1 -> a1 * b2 <= a2 * b1 ->
  rnd_pos a1 b1 <= rnd_pos a2 b2.
Proof.
  intros H1 H2 Ha H.
  assert (Ha2 : b2 <= a2) by nia.
  pose proof (cexpZ_mono a1 b1 a2 b2 H1 H2 H) as Hc.
  destruct (Z.eq_dec (cexpZ a1 b1) (cexpZ a2 b2)) as [E|NE].
  - unfold rnd_pos. rewrite E.
    pose proof (cexpZ_nonneg a2 b2).
    assert (0 < 2 ^ cexpZ a2 b2) by (apply Z.pow_pos_nonneg; lia).
    apply Z.mul_le_mono_nonneg_r; [lia|].
    apply rne_mono_frac; nia.
  - pose proof (rnd_pos_upper a1 b1 H1 Ha).
    pose proof (cexpZ_ge a1 b1).
    pose proof (rnd_pos_lower a2 b2 H2 Ha2 ltac:(lia)).
    assert (2 ^ (prec + cexpZ a1 b1) <= 2 ^ (prec - 1 + cexpZ a2 b2))
      by (apply Z.pow_le_mono_r; lia).
    lia.
Qed.

Lemma R_mono n1 d1 n2 d2 :
  admissible n1 d1 -> admissible n2 d2 -> n1 * d2 <= n2 * d1 -> R n1 d1 <= R n2 d2.
Proof.
  intros [D1 A1] [D2 A2] H.
  assert (I : 0 < INF) by (apply Z.pow_pos_nonneg; [lia|unfold emax, K; lia]).
  destruct n1 as [|p1|p1], n2 as [|p2|p2]; unfold R; try lia.
  - pose proof (rnd_pos_nonneg (Z.pos p2) d2 D2 ltac:(lia)). lia.
  - pose proof (rnd_pos_mono (Z.pos p1) d1 (Z.pos p2) d2 D1 D2 ltac:(lia) H). lia.
  - pose proof (rnd_pos_nonneg (- Z.neg p1) d1 D1 ltac:(lia)). lia.
  - pose proof (rnd_pos_nonneg (- Z.neg p1) d1 D1 ltac:(lia)).
    pose proof (rnd_pos_nonneg (Z.pos p2) d2 D2 ltac:(lia)). lia.
  - pose proof (rnd_pos_mono (- Z.neg p2) d2 (- Z.neg p1) d1 D2 D1 ltac:(lia) ltac:(lia)). lia.
Qed.

(** ** Shift records

    The records and locations SpecFloat shifts through, read as fractions. *)

Lemma Zdigits2_log2 m : 0 < m -> Zdigits2 m = Z.log2 m + 1.
Proof.
  destruct m as [|p|p]; try lia. intros _.
  simpl. destruct p; simpl; try reflexivity.
  - induction p; simpl; lia.
  - induction p; simpl; lia.
Qed.

Lemma rec_of_loc a b : 0 < b -> shr_record_of_loc (a / b) (loc_of a b) = rec a b.
Proof.
  intros Hb. unfold loc_of, rec, rbit, sbit.
  pose proof (Z.mod_pos_bound a b Hb).
  destruct (Z.eqb_spec (a mod b) 0) as [E|E].
  - rewrite E. change (2 * 0) with 0.
    destruct (Z.leb_spec b 0); [lia|]. reflexivity.
  - destruct (Z.compare_spec (2 * (a mod b)) b);
      destruct (Z.leb_spec b (2 * (a mod b))); destruct (Z.eqb_spec (2 * (a mod b)) b);
      try lia; reflexivity.
Qed.

Lemma loc_of_rec a b : 0 < b -> loc_of_shr_record (rec a b) = loc_of a b.
Proof.
  intros Hb. rewrite <- rec_of_loc by assumption.
  destruct (loc_of a b) as [|[]]; reflexivity.
Qed.

Lemma rne_of_loc a b : 0 < b -> round_nearest_even (a / b) (loc_of a b) = rne a b.
Proof.
  intros Hb. unfold loc_of, rne.
  pose proof (Z.mod_pos_bound a b Hb).
  destruct (Z.eqb_spec (a mod b) 0) as [E|E].
  - rewrite E. change (2 * 0) with 0. destruct (Z.compare_spec 0 b); try lia. reflexivity.
  - destruct (2 * (a mod b) ?= b); reflexivity.
Qed.

Lemma shr_1_rec a b : 0 <= a -> 0 < b -> shr_1 (rec a b) = rec a (b * 2).
Proof.
  intros Ha Hb.
  assert (Hm : 0 <= a / b) by (apply Z.div_pos; lia).
  pose proof (Z.mod_pos_bound a b Hb) as Hr.
  assert (Ed : a / (b * 2) = a / b / 2) by (rewrite Z.div_div; lia).
  assert (Er : a mod (b * 2) = a mod b + b * ((a / b) mod 2))
    by (rewrite Z.rem_mul_r; lia).
  pose proof (Z.div_mod (a / b) 2 ltac:(lia)) as E2.
  pose proof (Z.mod_pos_bound (a / b) 2 ltac:(lia)) as M2.
  unfold rec, rbit, sbit. rewrite Ed, Er. unfold shr_1.
  remember (a / b) as m eqn:Em.
  remember (a mod b) as r eqn:Erm.
  destruct m as [|[p|p|]|p]; try lia.
  - (* 0 *)
    change (0 / 2) with 0. change (0 mod 2) with 0.
    destruct (Z.leb_spec b (2 * r)), (Z.eqb_spec r 0), (Z.eqb_spec (2 * r) b),
      (Z.leb_spec (b * 2) (2 * (r + b * 0))), (Z.eqb_spec (r + b * 0) 0),
      (Z.eqb_spec (2 * (r + b * 0)) (b * 2)); try lia; reflexivity.
  - (* xI *)
    assert (Z.pos p~1 / 2 = Z.pos p) as -> by (symmetry; apply Z.div_unique with 1; lia).
    assert (Z.pos p~1 mod 2 = 1) as -> by (symmetry; apply Z.mod_unique with (Z.pos p); lia).
    destruct (Z.leb_spec b (2 * r)), (Z.eqb_spec r 0), (Z.eqb_spec (2 * r) b),
      (Z.leb_spec (b * 2) (2 * (r + b * 1))), (Z.eqb_spec (r + b * 1) 0),
      (Z.eqb_spec (2 * (r + b * 1)) (b * 2)); try lia; reflexivity.
  - (* xO *)
    assert (Z.pos p~0 / 2 = Z.pos p) as -> by (symmetry; apply Z.div_unique with 0; lia).
    assert (Z.pos p~0 mod 2 = 0) as -> by (symmetry; apply Z.mod_unique with (Z.pos p); lia).
    destruct (Z.leb_spec b (2 * r)), (Z.eqb_spec r 0), (Z.eqb_spec (2 * r) b),
      (Z.leb_spec (b * 2) (2 * (r + b * 0))), (Z.eqb_spec (r + b * 0) 0),
      (Z.eqb_spec (2 * (r + b * 0)) (b * 2)); try lia; reflexivity.
  - (* 1 *)
    change (1 / 2) with 0. change (1 mod 2) with 1.
    destruct (Z.leb_spec b (2 * r)), (Z.eqb_spec r 0), (Z.eqb_spec (2 * r) b),
      (Z.leb_spec (b * 2) (2 * (r + b * 1))), (Z.eqb_spec (r + b * 1) 0),
      (Z.eqb_spec (2 * (r + b * 1)) (b * 2)); try lia; reflexivity.
Qed.

Lemma pow2_xO p : 2 ^ Z.pos p~0 = 2 ^ Z.pos p * 2 ^ Z.pos p.
Proof. rewrite <- Z.pow_add_r by lia. f_equal. lia. Qed.

Lemma pow2_xI p : 2 ^ Z.pos p~1 = 2 * (2 ^ Z.pos p * 2 ^ Z.pos p).
Proof.
  rewrite <- Z.pow_add_r by lia.
  replace (Z.pos p~1) with (1 + (Z.pos p + Z.pos p)) by lia.
  rewrite Z.pow_add_r by lia. reflexivity.
Qed.

Lemma iter_pos_shr_1 p : forall a b, 0 <= a -> 0 < b ->
  iter_pos shr_1 p (rec a b) = rec a (b * 2 ^ Z.pos p).
Proof.
  induction p as [p IH|p IH|]; intros a b Ha Hb; cbn [iter_pos].
  - assert (0 < 2 ^ Z.pos p) by (apply Z.pow_pos_nonneg; lia).
    rewrite shr_1_rec, IH, IH by nia.
    rewrite pow2_xI. f_equal. ring.
  - assert (0 < 2 ^ Z.pos p) by (apply Z.pow_pos_nonneg; lia).
    rewrite IH, IH by nia.
    rewrite pow2_xO. f_equal. ring.
  - rewrite shr_1_rec by lia. reflexivity.
Qed.

Lemma shr_rec a b e n : 0 <= a -> 0 < b -> 0 <= n ->
  shr (rec a b) e n = (rec a (b * 2 ^ n), e + n).
Proof.
  intros Ha Hb Hn. unfold shr. destruct n as [|p|p]; try lia.
  - rewrite Z.pow_0_r, Z.mul_1_r, Z.add_0_r. reflexivity.
  - rewrite iter_pos_shr_1 by lia. reflexivity.
Qed.

(** ** The rounding of SpecFloat

    [binary_round_aux] returns the value [rnd_pos] describes. *)

Lemma log2_shift a b k : 0 < b -> b <= a -> 0 <= k ->
  Z.log2 (a * 2 ^ k / b) = Z.log2 (a / b) + k.
Proof.
  intros Hb Ha Hk.
  assert (Hq : 1 <= a / b) by (apply Z.div_le_lower_bound; lia).
  destruct (Z.log2_spec (a / b) ltac:(lia)) as [L U].
  pose proof (Z.log2_nonneg (a / b)) as Hl.
  pose proof (Z.mul_div_le a b Hb) as D1.
  pose proof (Z.mul_succ_div_gt a b Hb) as D2.
  assert (P : 0 < 2 ^ k) by (apply Z.pow_pos_nonneg; lia).
  apply Z.log2_unique; [lia|]. split.
  - apply Z.div_le_lower_bound; [lia|].
    rewrite Z.pow_add_r by lia.
    assert (b * 2 ^ Z.log2 (a / b) <= a) by nia.
    rewrite Z.mul_assoc. apply Z.mul_le_mono_nonneg_r; lia.
  - apply Z.div_lt_upper_bound; [lia|].
    replace (Z.succ (Z.log2 (a / b) + k)) with (Z.succ (Z.log2 (a / b)) + k) by lia.
    rewrite Z.pow_add_r by lia.
    assert (a < b * 2 ^ Z.succ (Z.log2 (a / b))) by nia.
    rewrite Z.mul_assoc. apply Z.mul_lt_mono_pos_r; lia.
Qed.

Lemma fexp_val x : fexp prec emax x = Z.max (x - prec) emin.
Proof. reflexivity. Qed.

Lemma cexpZ_link a b e : 0 < b -> b <= a -> 0 <= e + K ->
  cexpZ (a * 2 ^ (e + K)) b = fexp prec emax (Zdigits2 (a / b) + e) + K.
Proof.
  intros Hb Ha He.
  assert (Hq : 1 <= a / b) by (apply Z.div_le_lower_bound; lia).
  unfold cexpZ. rewrite log2_shift, fexp_val, Zdigits2_log2 by lia. lia.
Qed.

Lemma shr_nonpos mrs e n : n <= 0 -> shr mrs e n = (mrs, e).
Proof. destruct n; try lia; reflexivity. Qed.

Lemma binary_round_aux_spec s a b e :
  0 < b -> b <= a -> 0 <= e + K ->
  e <= fexp prec emax (Zdigits2 (a / b) + e) ->
  SFis_nan (binary_round_aux prec emax s (a / b) e (loc_of a b)) = false /\
  valid_binary (binary_round_aux prec emax s (a / b) e (loc_of a b)) = true /\
  val (binary_round_aux prec emax s (a / b) e (loc_of a b)) =
    sgn s (Z.min INF (rnd_pos (a * 2 ^ (e + K)) b)).
Proof.
  intros Hb Ha He Hn.
  pose proof emin_val as Emin.
  assert (Eprec : prec = 53) by reflexivity.
  assert (Eemax : emax = 1024) by reflexivity.
  pose proof (cexpZ_link a b e Hb Ha He) as Hc.
  remember (a * 2 ^ (e + K)) as A eqn:EA.
  assert (P : 0 < 2 ^ (e + K)) by (apply Z.pow_pos_nonneg; lia).
  assert (HA : b <= A) by nia.
  pose proof (rnd_pos_upper A b Hb HA) as UP.
  pose proof (cexpZ_ge A b) as Cge.
  pose proof Kemin_pos as Kp.
  remember (fexp prec emax (Zdigits2 (a / b) + e)) as c0 eqn:Ec0.
  assert (Pc : 0 < 2 ^ (c0 + K)) by (apply Z.pow_pos_nonneg; lia).
  assert (Pn : 0 < 2 ^ (c0 - e)) by (apply Z.pow_pos_nonneg; lia).
  assert (Em : rne A (b * 2 ^ cexpZ A b) = rne a (b * 2 ^ (c0 - e))).
  { rewrite Hc, EA.
    replace (b * 2 ^ (c0 + K)) with (b * 2 ^ (c0 - e) * 2 ^ (e + K)).
    - apply rne_scale; nia.
    - rewrite <- Z.mul_assoc, <- (Z.pow_add_r 2 (c0 - e) (e + K)) by lia.
      do 2 f_equal. lia. }
  assert (Ev : rnd_pos A b = rne a (b * 2 ^ (c0 - e)) * 2 ^ (c0 + K)).
  { unfold rnd_pos. rewrite Em, Hc. reflexivity. }
  remember (rne a (b * 2 ^ (c0 - e))) as m1 eqn:Em1.
  assert (M0 : 0 <= m1) by (rewrite Em1; apply rne_ge_int; nia).
  assert (M1 : m1 <= 2 ^ prec).
  { rewrite Ev, Hc, (Z.pow_add_r 2 prec (c0 + K)) in UP by (unfold prec; lia). nia. }
  assert (EQ : binary_round_aux prec emax s (a / b) e (loc_of a b) =
    let '(mrs2, e2) := shr_fexp prec emax m1 c0 loc_Exact in
    match shr_m mrs2 with
    | 0 => S754_zero s
    | Z.pos m => if e2 <=? emax - prec then S754_finite s m e2 else S754_infinity s
    | Z.neg _ => S754_nan
    end).
  { unfold binary_round_aux. unfold shr_fexp at 1.
    rewrite <- Ec0, rec_of_loc, shr_rec by lia.
    cbn [shr_m rec]. rewrite loc_of_rec, rne_of_loc by nia. rewrite <- Em1.
    replace (e + (c0 - e)) with c0 by lia. reflexivity. }
  rewrite EQ. clear EQ.
  assert (Ce : emin <= c0) by (rewrite Ec0, fexp_val; lia).
  destruct (Z.eq_dec m1 (2 ^ prec)) as [E53|N53].
  - (* mantissa overflow: one more shift *)
    rewrite E53 in *.
    unfold shr_fexp. change (Zdigits2 (2 ^ prec)) with 54.
    rewrite fexp_val.
    replace (Z.max (54 + c0 - prec) emin - c0) with 1 by (unfold prec in *; lia).
    change (shr (shr_record_of_loc (2 ^ prec) loc_Exact) c0 1)
      with (Build_shr_record 4503599627370496 false false, c0 + 1).
    cbv beta iota. cbn [shr_m].
    assert (V : 2 ^ prec * 2 ^ (c0 + K) = 4503599627370496 * 2 ^ (c0 + 1 + K)).
    { replace (c0 + 1 + K) with (1 + (c0 + K)) by lia.
      rewrite (Z.pow_add_r 2 1) by lia.
      change (2 ^ prec) with 9007199254740992. change (2 ^ 1) with 2. lia. }
    destruct (Z.leb_spec (c0 + 1) (emax - prec)) as [Le|Gt];
      cbn [val SFis_nan SpecFloat.valid_binary]; (split; [reflexivity|split]);
      try reflexivity; change (emax - prec) with 971 in *.
    + unfold bounded, canonical_mantissa. cbn [digits2_pos Pos.succ].
      rewrite fexp_val.
      replace (Z.max (53 + (c0 + 1) - prec) emin) with (c0 + 1) by lia.
      rewrite Z.eqb_refl. apply Z.leb_le. lia.
    + rewrite Ev, V. f_equal. symmetry. apply Z.min_r.
      unfold INF. replace (emax + K) with (52 + (972 + K)) by reflexivity.
      rewrite (Z.pow_add_r 2 52) by (unfold K; lia).
      change (2 ^ 52) with 4503599627370496.
      assert (2 ^ (c0 + 1 + K) <= 2 ^ (972 + K)) by (apply Z.pow_le_mono_r; lia).
      lia.
    + f_equal. symmetry. apply Z.min_l. rewrite Ev, V.
      unfold INF. replace (emax + K) with (52 + (972 + K)) by reflexivity.
      rewrite (Z.pow_add_r 2 52) by (unfold K; lia).
      change (2 ^ 52) with 4503599627370496.
      assert (2 ^ (972 + K) <= 2 ^ (c0 + 1 + K)) by (apply Z.pow_le_mono_r; lia).
      lia.
  - assert (M2 : m1 < 2 ^ prec) by lia.
    assert (Hs : fexp prec emax (Zdigits2 m1 + c0) - c0 <= 0).
    { rewrite fexp_val. destruct (Z.eq_dec m1 0) as [->|NZ].
      - cbn [Zdigits2]. unfold prec in *. lia.
      - rewrite Zdigits2_log2 by lia.
        assert (Z.log2 m1 < prec) by (apply Z.log2_lt_pow2; lia). lia. }
    unfold shr_fexp. cbn [shr_record_of_loc]. rewrite shr_nonpos by assumption.
    cbn [shr_m].
    destruct m1 as [|p|p] eqn:Ep; try lia.
    + cbn [val SFis_nan SpecFloat.valid_binary]. split; [reflexivity|split; [reflexivity|]].
      rewrite Ev.
      assert (0 < INF) by (apply Z.pow_pos_nonneg; [lia|unfold emax, K; lia]).
      rewrite Z.min_r by lia.
      destruct s; reflexivity.
    + destruct (Z.leb_spec c0 (emax - prec)) as [Le|Gt];
        cbn [val SFis_nan SpecFloat.valid_binary]; (split; [reflexivity|split]); try reflexivity.
      * unfold bounded, canonical_mantissa.
        change (Z.pos (digits2_pos p)) with (Zdigits2 (Z.pos p)).
        apply andb_true_intro. split; [|apply Z.leb_le; lia].
        apply Z.eqb_eq. rewrite fexp_val in *.
        destruct (Z.eq_dec c0 emin) as [E0|N0]; [lia|].
        assert (Hlow := rnd_pos_lower A b Hb HA ltac:(lia)).
        rewrite Hc, Ev, (Z.pow_add_r 2 (prec - 1)) in Hlow by lia.
        assert (2 ^ (prec - 1) <= Z.pos p) by nia.
        assert (prec - 1 <= Z.log2 (Z.pos p)) by (apply Z.log2_le_pow2; lia).
        rewrite Zdigits2_log2 in * by lia. lia.
      * rewrite Ev. f_equal. symmetry. apply Z.min_r.
        unfold INF. replace (emax + K) with (prec + (emax - prec + K)) by lia.
        rewrite (Z.pow_add_r 2 prec) by (unfold prec, emax, K; lia).
        assert (2 ^ (c0 + K) <= 2 ^ (emax - prec + K)) by (apply Z.pow_le_mono_r; lia).
        nia.
      * f_equal. symmetry. apply Z.min_l.
        assert (Hlow := rnd_pos_lower A b Hb HA ltac:(lia)).
        rewrite Hc in Hlow.
        eapply Z.le_trans; [|exact Hlow].
        unfold INF. apply Z.pow_le_mono_r; lia.
Qed.

(** ** Bounded mantissas and comparison *)

Lemma INF_pos : 0 < INF.
Proof. apply Z.pow_pos_nonneg; [lia|unfold emax, K; lia]. Qed.

Lemma bounded_inv m e : bounded prec emax m e = true ->
  emin <= e <= emax - prec /\ Z.log2 (Z.pos m) + 1 <= prec /\
  (e = emin \/ Z.log2 (Z.pos m) + 1 = prec).
Proof.
  unfold bounded, canonical_mantissa. intros H.
  apply andb_prop in H. destruct H as [H1 H2].
  apply Z.eqb_eq in H1. apply Z.leb_le in H2.
  change (Z.pos (digits2_pos m)) with (Zdigits2 (Z.pos m)) in H1.
  rewrite Zdigits2_log2, fexp_val in H1 by lia. lia.
Qed.

Lemma bounded_range m e : bounded prec emax m e = true ->
  0 <= e + K /\ 0 < Z.pos m * 2 ^ (e + K) < INF /\ Z.pos m < 2 ^ prec /\
  (emin < e -> 2 ^ (prec - 1) <= Z.pos m).
Proof.
  intros H. destruct (bounded_inv m e H) as (He & Hd & Hc).
  pose proof emin_val. assert (prec = 53) by reflexivity.
  assert (emax = 1024) by reflexivity. assert (K = 2148) by reflexivity.
  assert (Hm : Z.pos m < 2 ^ prec) by (apply Z.log2_lt_pow2; lia).
  assert (P : 0 < 2 ^ (e + K)) by (apply Z.pow_pos_nonneg; lia).
  split; [lia|]. split; [|split; [exact Hm|]].
  - split; [nia|]. unfold INF.
    replace (emax + K) with (prec + (emax - prec + K)) by lia.
    rewrite (Z.pow_add_r 2 prec) by lia.
    assert (2 ^ (e + K) <= 2 ^ (emax - prec + K)) by (apply Z.pow_le_mono_r; lia).
    nia.
  - intros Hgt. destruct (Z.log2_spec (Z.pos m) ltac:(lia)) as [L _].
    replace (Z.log2 (Z.pos m)) with (prec - 1) in L by lia. exact L.
Qed.

Lemma valid_lt m1 e1 m2 e2 :
  bounded prec emax m1 e1 = true -> bounded prec emax m2 e2 = true ->
  e1 < e2 -> Z.pos m1 * 2 ^ (e1 + K) < Z.pos m2 * 2 ^ (e2 + K).
Proof.
  intros H1 H2 Hlt.
  destruct (bounded_range m1 e1 H1) as (K1 & _ & M1 & _).
  destruct (bounded_range m2 e2 H2) as (K2 & _ & _ & M2).
  destruct (bounded_inv m1 e1 H1) as (E1 & _).
  specialize (M2 ltac:(lia)).
  assert (prec = 53) by reflexivity.
  assert (P1 : 0 < 2 ^ (e1 + K)) by (apply Z.pow_pos_nonneg; lia).
  assert (P2 : 2 ^ (e2 + K) = 2 ^ (e2 - e1) * 2 ^ (e1 + K)).
  { rewrite <- Z.pow_add_r by lia. f_equal. lia. }
  assert (P3 : 2 ^ 1 <= 2 ^ (e2 - e1)) by (apply Z.pow_le_mono_r; lia).
  change (2 ^ 1) with 2 in P3.
  assert (P4 : 2 ^ prec = 2 * 2 ^ (prec - 1)).
  { replace prec with (1 + (prec - 1)) at 1 by lia. rewrite Z.pow_add_r by lia. reflexivity. }
  rewrite P2. nia.
Qed.

Ltac cmp_tac :=
  apply f_equal; symmetry;
  first [apply Z.compare_lt_iff; lia | apply Z.compare_gt_iff; lia | apply Z.compare_refl].

Lemma SFcompare_val x y :
  valid_binary x = true -> valid_binary y = true ->
  SFis_nan x = false -> SFis_nan y = false ->
  SFcompare x y = Some (val x ?= val y).
Proof.
  intros Vx Vy Nx Ny. pose proof INF_pos as I.
  destruct x as [sx|sx| |sx mx ex], y as [sy|sy| |sy my ey]; try discriminate;
    cbn [SFcompare val].
  - reflexivity.
  - destruct sy; cbn [sgn]; cmp_tac.
  - destruct (bounded_range my ey Vy) as (_ & R & _).
    destruct sy; cbn [sgn]; cmp_tac.
  - destruct sx; cbn [sgn]; cmp_tac.
  - destruct sx, sy; cbn [sgn]; cmp_tac.
  - destruct (bounded_range my ey Vy) as (_ & R & _).
    destruct sx, sy; cbn [sgn]; cmp_tac.
  - destruct (bounded_range mx ex Vx) as (_ & R & _).
    destruct sx; cbn [sgn]; cmp_tac.
  - destruct (bounded_range mx ex Vx) as (_ & R & _).
    destruct sx, sy; cbn [sgn]; cmp_tac.
  - cbn [SpecFloat.valid_binary] in Vx, Vy.
    destruct (bounded_range mx ex Vx) as (Kx & Rx & _).
    destruct (bounded_range my ey Vy) as (Ky & Ry & _).
    assert (Px : 0 < 2 ^ (ex + K)) by (apply Z.pow_pos_nonneg; lia).
    destruct sx, sy; cbn [sgn]; apply f_equal; symmetry.
    + destruct (Z.compare_spec ex ey) as [E|L|G].
      * subst ey. change (Pos.compare_cont Eq mx my) with (Z.pos mx ?= Z.pos my).
        destruct (Z.compare_spec (Z.pos mx) (Z.pos my)) as [E|L|G]; cbn [CompOpp].
        -- rewrite E. apply Z.compare_refl.
        -- apply Z.compare_gt_iff. nia.
        -- apply Z.compare_lt_iff. nia.
      * pose proof (valid_lt mx ex my ey Vx Vy L). apply Z.compare_gt_iff. lia.
      * pose proof (valid_lt my ey mx ex Vy Vx ltac:(lia)). apply Z.compare_lt_iff. lia.
    + apply Z.compare_lt_iff. lia.
    + apply Z.compare_gt_iff. lia.
    + destruct (Z.compare_spec ex ey) as [E|L|G].
      * subst ey. change (Pos.compare_cont Eq mx my) with (Z.pos mx ?= Z.pos my).
        destruct (Z.compare_spec (Z.pos mx) (Z.pos my)) as [E|L|G].
        -- rewrite E. apply Z.compare_refl.
        -- apply Z.compare_lt_iff. nia.
        -- apply Z.compare_gt_iff. nia.
      * pose proof (valid_lt mx ex my ey Vx Vy L). apply Z.compare_lt_iff. lia.
      * pose proof (valid_lt my ey mx ex Vy Vx ltac:(lia)). apply Z.compare_gt_iff. lia.
Qed.

(** ** Algebra of [R]

    Signs, scaling by powers of two, and values [R] leaves unchanged. *)

Lemma rnd_pos_scale a b k : 0 < b -> 0 < k -> rnd_pos (a * k) (b * k) = rnd_pos a b.
Proof.
  intros Hb Hk. unfold rnd_pos, cexpZ.
  rewrite Z.div_mul_cancel_r by lia.
  set (c := Z.max (Z.log2 (a / b) + 1 - prec) (K + emin)).
  assert (0 < 2 ^ c) by (apply Z.pow_pos_nonneg; [lia|unfold c; pose proof Kemin_pos; lia]).
  replace (b * k * 2 ^ c) with (b * 2 ^ c * k) by ring.
  rewrite rne_scale by nia. reflexivity.
Qed.

Lemma R_sgn s v d : 0 < v -> R (sgn s v) d = sgn s (Z.min INF (rnd_pos v d)).
Proof.
  intros Hv. destruct v as [|p|p]; try lia. destruct s; reflexivity.
Qed.

Lemma R_opp n d : R (- n) d = - R n d.
Proof. destruct n; cbn [R Z.opp]; lia. Qed.

Lemma R_scale n d k : 0 < d -> 0 < k -> R (n * k) (d * k) = R n d.
Proof.
  intros Hd Hk. destruct n as [|p|p].
  - reflexivity.
  - assert (E : Z.pos p * k = sgn false (Z.pos p * k)) by reflexivity.
    rewrite E, R_sgn, rnd_pos_scale by lia. reflexivity.
  - assert (E : Z.neg p * k = sgn true (Z.pos p * k)) by (cbn [sgn]; lia).
    rewrite E, R_sgn, rnd_pos_scale by lia. reflexivity.
Qed.

Lemma sgn_mul s1 s2 a b : sgn s1 a * sgn s2 b = sgn (xorb s1 s2) (a * b).
Proof. destruct s1, s2; cbn [sgn xorb]; ring. Qed.

Lemma sgn_opp s a : - sgn s a = sgn (negb s) a.
Proof. destruct s; cbn [sgn negb]; ring. Qed.

Lemma rnd_pos_repr m e : bounded prec emax m e = true ->
  rnd_pos (Z.pos m * 2 ^ (e + K)) 1 = Z.pos m * 2 ^ (e + K).
Proof.
  intros H. destruct (bounded_range m e H) as (He & _).
  unfold rnd_pos.
  rewrite (cexpZ_link (Z.pos m) 1 e) by lia.
  rewrite Z.div_1_r.
  unfold bounded, canonical_mantissa in H. apply andb_prop in H. destruct H as [H _].
  apply Z.eqb_eq in H. change (Z.pos (digits2_pos m)) with (Zdigits2 (Z.pos m)) in H.
  rewrite H, Z.mul_1_l.
  rewrite rne_exact by (apply Z.pow_pos_nonneg; lia). reflexivity.
Qed.

Lemma R_repr x : valid_binary x = true -> SFfinite x = true -> R (val x) 1 = val x.
Proof.
  intros V F. destruct x as [s|s| |s m e]; try discriminate; cbn [val].
  - reflexivity.
  - cbn [SpecFloat.valid_binary] in V.
    destruct (bounded_range m e V) as (He & Hr & _).
    rewrite R_sgn by lia. rewrite rnd_pos_repr by assumption.
    rewrite Z.min_r by lia. reflexivity.
Qed.

Lemma rnd_pos_int z : 0 < z <= 2 ^ prec -> rnd_pos (z * 2 ^ K) 1 = z * 2 ^ K.
Proof.
  intros Hz. unfold rnd_pos.
  assert (EK : K = 2148) by reflexivity. assert (Ep : prec = 53) by reflexivity.
  pose proof emin_val as Em.
  pose proof (cexpZ_link z 1 0 ltac:(lia) ltac:(lia) ltac:(lia)) as Hc.
  rewrite Z.add_0_l, Z.add_0_r, Z.div_1_r, fexp_val in Hc.
  assert (L : Z.log2 z <= prec).
  { pose proof (Z.log2_le_mono z (2 ^ prec) ltac:(lia)) as L.
    rewrite Z.log2_pow2 in L by lia. exact L. }
  rewrite Zdigits2_log2 in Hc by lia.
  pose proof (Z.log2_nonneg z) as L0.
  remember (cexpZ (z * 2 ^ K) 1) as c eqn:Ec. clear Ec.
  assert (Hle : c <= K + 1) by lia.
  assert (Hge : 0 <= c) by lia.
  rewrite Z.mul_1_l.
  destruct (Z.eq_dec c (K + 1)) as [E|N].
  - (* only for z = 2^prec *)
    assert (Hl : Z.log2 z = prec) by lia.
    destruct (Z.log2_spec z ltac:(lia)) as [L1 _].
    rewrite Hl in L1.
    assert (z = 2 ^ prec) by lia. subst z.
    rewrite E. rewrite (Z.pow_add_r 2 K 1) by lia. change (2 ^ 1) with 2.
    replace (2 ^ prec) with (2 ^ (prec - 1) * 2).
    + replace (2 ^ (prec - 1) * 2 * 2 ^ K) with (2 ^ (prec - 1) * (2 ^ K * 2)) by ring.
      rewrite rne_exact; [ring|]. assert (0 < 2 ^ K) by (apply Z.pow_pos_nonneg; lia). lia.
    + rewrite Ep. reflexivity.
  - assert (E : 2 ^ K = 2 ^ (K - c) * 2 ^ c).
    { rewrite <- Z.pow_add_r by lia. f_equal. lia. }
    rewrite E at 1. rewrite Z.mul_assoc, rne_exact by (apply Z.pow_pos_nonneg; lia).
    rewrite E. ring.
Qed.

Lemma R_int z : Z.abs z <= 2 ^ prec -> R (z * 2 ^ K) 1 = z * 2 ^ K.
Proof.
  intros Hz.
  assert (P : 0 < 2 ^ K) by (apply Z.pow_pos_nonneg; [lia|unfold K; lia]).
  assert (I : 2 ^ prec * 2 ^ K < INF).
  { unfold INF. rewrite <- Z.pow_add_r by (unfold prec, K; lia).
    apply Z.pow_lt_mono_r; unfold prec, emax, K; lia. }
  destruct z as [|p|p].
  - reflexivity.
  - change (Z.pos p * 2 ^ K) with (sgn false (Z.pos p * 2 ^ K)).
    rewrite R_sgn, rnd_pos_int by lia. rewrite Z.min_r by nia. reflexivity.
  - replace (Z.neg p * 2 ^ K) with (sgn true (Z.pos p * 2 ^ K)) by (cbn [sgn]; lia).
    rewrite R_sgn, rnd_pos_int by lia. rewrite Z.min_r by nia. reflexivity.
Qed.

(** ** Addition, subtraction and multiplication

    Each operation of SpecFloat returns [R] of the exact result. *)

Lemma iter_xO m d : Z.pos (Pos.iter xO m d) = Z.pos m * 2 ^ Z.pos d.
Proof.
  induction d as [|d IH] using Pos.peano_ind.
  - cbn [Pos.iter]. change (2 ^ 1) with 2. lia.
  - rewrite Pos.iter_succ, Pos2Z.inj_xO, IH, Pos2Z.inj_succ, Z.pow_succ_r by lia. ring.
Qed.

Lemma shl_align_spec m e e' :
  snd (shl_align m e e') = Z.min e e' /\
  Z.pos (fst (shl_align m e e')) = Z.pos m * 2 ^ (e - Z.min e e').
Proof.
  unfold shl_align. destruct (e' - e) as [|d|d] eqn:E; cbn [fst snd].
  - rewrite Z.min_l by lia. rewrite Z.sub_diag. split; lia.
  - rewrite Z.min_l by lia. rewrite Z.sub_diag. split; lia.
  - rewrite Z.min_r by lia. split; [reflexivity|].
    rewrite iter_xO. f_equal. f_equal. lia.
Qed.

Lemma log2_mul_pow2 a k : 0 < a -> 0 <= k -> Z.log2 (a * 2 ^ k) = Z.log2 a + k.
Proof.
  intros Ha Hk. rewrite <- Z.shiftl_mul_pow2 by lia. apply Z.log2_shiftl; lia.
Qed.

Lemma loc_of_1 a : loc_of a 1 = loc_Exact.
Proof. unfold loc_of. rewrite Z.mod_1_r. reflexivity. Qed.

Lemma binary_round_aux_exact s m e :
  0 <= e + K -> e <= fexp prec emax (Zdigits2 (Z.pos m) + e) ->
  SFis_nan (binary_round_aux prec emax s (Z.pos m) e loc_Exact) = false /\
  valid_binary (binary_round_aux prec emax s (Z.pos m) e loc_Exact) = true /\
  val (binary_round_aux prec emax s (Z.pos m) e loc_Exact) =
    R (sgn s (Z.pos m * 2 ^ (e + K))) 1.
Proof.
  intros He Hc.
  pose proof (binary_round_aux_spec s (Z.pos m) 1 e ltac:(lia) ltac:(lia) He) as H.
  rewrite Z.div_1_r, loc_of_1 in H. specialize (H Hc).
  assert (0 < 2 ^ (e + K)) by (apply Z.pow_pos_nonneg; lia).
  rewrite R_sgn by nia. exact H.
Qed.

Lemma binary_round_spec s m e :
  0 <= e + K ->
  SFis_nan (binary_round prec emax s m e) = false /\
  valid_binary (binary_round prec emax s m e) = true /\
  val (binary_round prec emax s m e) = R (sgn s (Z.pos m * 2 ^ (e + K))) 1.
Proof.
  intros He. unfold binary_round.
  change (Z.pos (digits2_pos m)) with (Zdigits2 (Z.pos m)).
  remember (fexp prec emax (Zdigits2 (Z.pos m) + e)) as c eqn:Ec.
  destruct (shl_align_spec m e c) as [E1 E2].
  destruct (shl_align m e c) as [mz ez]. cbn [fst snd] in E1, E2.
  pose proof Kemin_pos as Kp.
  assert (Hc : emin <= c) by (rewrite Ec, fexp_val; lia).
  assert (Hz : 0 <= ez + K) by lia.
  assert (Hd : Zdigits2 (Z.pos mz) + ez = Zdigits2 (Z.pos m) + e).
  { rewrite !Zdigits2_log2 by lia. rewrite E2, log2_mul_pow2 by lia. lia. }
  assert (Hv : Z.pos mz * 2 ^ (ez + K) = Z.pos m * 2 ^ (e + K)).
  { rewrite E2, <- Z.mul_assoc, <- Z.pow_add_r by lia. do 2 f_equal. lia. }
  rewrite <- Hv. apply binary_round_aux_exact; [lia|]. rewrite Hd, <- Ec. lia.
Qed.

Lemma binary_normalize_spec n e sz :
  0 <= e + K ->
  SFis_nan (binary_normalize prec emax n e sz) = false /\
  valid_binary (binary_normalize prec emax n e sz) = true /\
  val (binary_normalize prec emax n e sz) = R (n * 2 ^ (e + K)) 1.
Proof.
  intros He. destruct n as [|p|p]; cbn [binary_normalize].
  - repeat split.
  - apply (binary_round_spec false p e He).
  - replace (Z.neg p * 2 ^ (e + K)) with (sgn true (Z.pos p * 2 ^ (e + K)))
      by (cbn [sgn]; lia).
    apply (binary_round_spec true p e He).
Qed.

Lemma cond_Zopp_sgn s m : cond_Zopp s m = sgn s m.
Proof. reflexivity. Qed.

Lemma align_val s m e ez : 0 <= ez + K -> ez <= e ->
  sgn s (Z.pos (fst (shl_align m e ez))) * 2 ^ (ez + K) = sgn s (Z.pos m * 2 ^ (e + K)).
Proof.
  intros Hz Hle. destruct (shl_align_spec m e ez) as [_ E].
  rewrite E, Z.min_r by lia.
  assert (2 ^ (e + K) = 2 ^ (e - ez) * 2 ^ (ez + K)) as ->.
  { rewrite <- Z.pow_add_r by lia. f_equal. lia. }
  destruct s; cbn [sgn]; ring.
Qed.

Lemma SFadd_val x y :
  valid_binary x = true -> valid_binary y = true ->
  SFfinite x = true -> SFfinite y = true ->
  SFis_nan (SFadd prec emax x y) = false /\
  valid_binary (SFadd prec emax x y) = true /\
  val (SFadd prec emax x y) = R (val x + val y) 1.
Proof.
  intros Vx Vy Fx Fy.
  destruct x as [sx|sx| |sx mx ex], y as [sy|sy| |sy my ey]; try discriminate.
  - destruct sx, sy; repeat split.
  - cbn [SFadd val]. rewrite Z.add_0_l.
    change (sgn sy (Z.pos my * 2 ^ (ey + K))) with (val (S754_finite sy my ey)).
    rewrite R_repr by assumption. repeat split. assumption.
  - cbn [SFadd val]. rewrite Z.add_0_r.
    change (sgn sx (Z.pos mx * 2 ^ (ex + K))) with (val (S754_finite sx mx ex)).
    rewrite R_repr by assumption. repeat split. assumption.
  - cbn [SFadd val SpecFloat.valid_binary] in *.
    destruct (bounded_range mx ex Vx) as (Kx & _).
    destruct (bounded_range my ey Vy) as (Ky & _).
    rewrite !cond_Zopp_sgn.
    rewrite <- (align_val sx mx ex (Z.min ex ey)), <- (align_val sy my ey (Z.min ex ey)) by lia.
    rewrite <- Z.mul_add_distr_r.
    apply binary_normalize_spec. lia.
Qed.

Lemma SFsub_val x y :
  valid_binary x = true -> valid_binary y = true ->
  SFfinite x = true -> SFfinite y = true ->
  SFis_nan (SFsub prec emax x y) = false /\
  valid_binary (SFsub prec emax x y) = true /\
  val (SFsub prec emax x y) = R (val x - val y) 1.
Proof.
  intros Vx Vy Fx Fy.
  destruct x as [sx|sx| |sx mx ex], y as [sy|sy| |sy my ey]; try discriminate.
  - destruct sx, sy; repeat split.
  - cbn [SFsub val]. rewrite Z.sub_0_l, sgn_opp.
    change (sgn (negb sy) (Z.pos my * 2 ^ (ey + K))) with (val (S754_finite (negb sy) my ey)).
    rewrite R_repr by assumption. repeat split. assumption.
  - cbn [SFsub val]. rewrite Z.sub_0_r.
    change (sgn sx (Z.pos mx * 2 ^ (ex + K))) with (val (S754_finite sx mx ex)).
    rewrite R_repr by assumption. repeat split. assumption.
  - cbn [SFsub val SpecFloat.valid_binary] in *.
    destruct (bounded_range mx ex Vx) as (Kx & _).
    destruct (bounded_range my ey Vy) as (Ky & _).
    rewrite !cond_Zopp_sgn.
    rewrite <- (align_val sx mx ex (Z.min ex ey)), <- (align_val sy my ey (Z.min ex ey)) by lia.
    rewrite <- Z.mul_sub_distr_r.
    apply binary_normalize_spec. lia.
Qed.

Lemma sgn_mul_r s a k : sgn s (a * k) = sgn s a * k.
Proof. destruct s; cbn [sgn]; ring. Qed.

Lemma SFmul_val x y :
  valid_binary x = true -> valid_binary y = true ->
  SFfinite x = true -> SFfinite y = true ->
  SFis_nan (SFmul prec emax x y) = false /\
  valid_binary (SFmul prec emax x y) = true /\
  val (SFmul prec emax x y) = R (val x * val y) (2 ^ K).
Proof.
  intros Vx Vy Fx Fy.
  destruct x as [sx|sx| |sx mx ex], y as [sy|sy| |sy my ey]; try discriminate;
    try solve [cbn [SFmul val]; rewrite ?Z.mul_0_l, ?Z.mul_0_r; repeat split].
  cbn [SFmul val SpecFloat.valid_binary] in *.
  destruct (bounded_range mx ex Vx) as (Kx & _ & Mx & Lx).
  destruct (bounded_range my ey Vy) as (Ky & _ & My & Ly).
  destruct (bounded_inv mx ex Vx) as (Ex & Dx & Cx).
  destruct (bounded_inv my ey Vy) as (Ey & Dy & Cy).
  pose proof emin_val as Em. assert (EK : K = 2148) by reflexivity.
  assert (Ep : prec = 53) by reflexivity.
  assert (PK : 0 < 2 ^ K) by (apply Z.pow_pos_nonneg; lia).
  assert (EP : 2 ^ (ex + K) * 2 ^ (ey + K) = 2 ^ (ex + ey + K) * 2 ^ K).
  { rewrite <- !Z.pow_add_r by lia. f_equal. lia. }
  rewrite sgn_mul.
  replace (Z.pos mx * 2 ^ (ex + K) * (Z.pos my * 2 ^ (ey + K)))
    with (Z.pos (mx * my) * 2 ^ (ex + ey + K) * 2 ^ K)
    by (rewrite Pos2Z.inj_mul; nia).
  rewrite sgn_mul_r.
  rewrite <- (Z.mul_1_l (2 ^ K)) at 2.
  rewrite R_scale by lia.
  apply binary_round_aux_exact; [lia|].
  rewrite fexp_val, Zdigits2_log2 by lia.
  pose proof (Z.log2_mul_below (Z.pos mx) (Z.pos my) ltac:(lia) ltac:(lia)) as LB.
  pose proof (Z.log2_nonneg (Z.pos mx)). pose proof (Z.log2_nonneg (Z.pos my)).
  rewrite Pos2Z.inj_mul. lia.
Qed.

(** ** Division *)

Lemma new_location_spec b r : 0 < b -> 0 <= r < b ->
  new_location b r = if r =? 0 then loc_Exact else loc_Inexact (2 * r ?= b).
Proof.
  intros Hb Hr. unfold new_location.
  destruct (Z.even b) eqn:Ev.
  - reflexivity.
  - unfold new_location_odd. destruct (Z.eqb_spec r 0); [reflexivity|].
    f_equal.
    assert (Ho : Z.odd b = true) by (rewrite <- Z.negb_even, Ev; reflexivity).
    apply Z.odd_spec in Ho. destruct Ho as [k Hk].
    destruct (Z.compare_spec (2 * r + 1) b), (Z.compare_spec (2 * r) b); try lia; reflexivity.
Qed.

Lemma SFdiv_val sx mx ex my ey :
  bounded prec emax mx ex = true -> bounded prec emax my ey = true ->
  emin + prec <= (Zdigits2 (Z.pos mx) + ex) - (Zdigits2 (Z.pos my) + ey) ->
  let q := SFdiv prec emax (S754_finite sx mx ex) (S754_finite false my ey) in
  SFis_nan q = false /\ valid_binary q = true /\
  val q = R (val (S754_finite sx mx ex) * 2 ^ K) (val (S754_finite false my ey)).
Proof.
  intros Vx Vy Hu.
  destruct (bounded_range mx ex Vx) as (Kx & _ & Mx & Lx).
  destruct (bounded_range my ey Vy) as (Ky & _ & My & Ly).
  destruct (bounded_inv mx ex Vx) as (Ex & Dx & Cx).
  destruct (bounded_inv my ey Vy) as (Ey & Dy & Cy).
  pose proof emin_val as Em. assert (EK : K = 2148) by reflexivity.
  assert (Ep : prec = 53) by reflexivity. assert (Ea : emax = 1024) by reflexivity.
  rewrite !Zdigits2_log2 in Hu by lia.
  pose proof (Z.log2_nonneg (Z.pos mx)) as L1. pose proof (Z.log2_nonneg (Z.pos my)) as L2.
  remember (Z.log2 (Z.pos mx)) as l1 eqn:El1.
  remember (Z.log2 (Z.pos my)) as l2 eqn:El2.
  cbv zeta. cbn [SFdiv xorb val sgn]. rewrite xorb_false_r.
  unfold SFdiv_core_binary.
  rewrite !Zdigits2_log2 by lia. rewrite <- El1, <- El2, fexp_val.
  replace (Z.min (Z.max (l1 + 1 + ex - (l2 + 1 + ey) - prec) emin) (ex - ey))
    with (ex - ey + l1 - l2 - prec) by lia.
  remember (ex - ey + l1 - l2 - prec) as e' eqn:Ee'.
  replace (ex - ey - e') with (prec + l2 - l1) by lia.
  destruct (prec + l2 - l1) as [|s|s] eqn:Es; try lia.
  rewrite Z.shiftl_mul_pow2 by lia. rewrite <- Es.
  remember (Z.pos mx * 2 ^ (prec + l2 - l1)) as a eqn:Ea'.
  assert (Hdm : Z.div_eucl a (Z.pos my) = (a / Z.pos my, a mod Z.pos my)).
  { unfold Z.div, Z.modulo. destruct (Z.div_eucl a (Z.pos my)); reflexivity. }
  rewrite Hdm.
  pose proof (Z.mod_pos_bound a (Z.pos my) ltac:(lia)) as Hr.
  rewrite new_location_spec by lia.
  change (if a mod Z.pos my =? 0 then loc_Exact else loc_Inexact (2 * (a mod Z.pos my) ?= Z.pos my))
    with (loc_of a (Z.pos my)).
  (* size of the scaled numerator *)
  destruct (Z.log2_spec (Z.pos mx) ltac:(lia)) as [Lo1 _].
  destruct (Z.log2_spec (Z.pos my) ltac:(lia)) as [_ Up2].
  rewrite <- El1 in Lo1. rewrite <- El2 in Up2.
  assert (P1 : 2 ^ l1 * 2 ^ (prec + l2 - l1) = 2 ^ (prec - 1) * 2 ^ Z.succ l2).
  { rewrite <- !Z.pow_add_r by lia. f_equal. lia. }
  assert (P0 : 0 < 2 ^ (prec + l2 - l1)) by (apply Z.pow_pos_nonneg; lia).
  assert (P2 : 0 < 2 ^ (prec - 1)) by (apply Z.pow_pos_nonneg; lia).
  assert (Ha : 2 ^ (prec - 1) * Z.pos my <= a) by nia.
  assert (Hq : 2 ^ (prec - 1) <= a / Z.pos my) by (apply Z.div_le_lower_bound; lia).
  assert (Hab : Z.pos my <= a) by nia.
  assert (Hl : prec - 1 <= Z.log2 (a / Z.pos my)) by (apply Z.log2_le_pow2; lia).
  pose proof (binary_round_aux_spec sx a (Z.pos my) e' ltac:(lia) Hab ltac:(lia)) as H.
  rewrite fexp_val, Zdigits2_log2 in H by lia.
  specialize (H ltac:(lia)).
  destruct H as (H1 & H2 & H3). split; [exact H1|]. split; [exact H2|].
  rewrite H3.
  assert (PK : 0 < 2 ^ (ey + K)) by (apply Z.pow_pos_nonneg; lia).
  assert (Pa : 0 < a * 2 ^ (e' + K)).
  { assert (0 < 2 ^ (e' + K)) by (apply Z.pow_pos_nonneg; lia). nia. }
  rewrite <- R_sgn by lia.
  rewrite <- (R_scale (sgn sx (a * 2 ^ (e' + K))) (Z.pos my) (2 ^ (ey + K))) by lia.
  f_equal. rewrite <- !sgn_mul_r. f_equal.
  rewrite Ea'. rewrite <- !Z.mul_assoc. f_equal.
  rewrite <- !Z.pow_add_r by lia. f_equal. lia.
Qed.

(** ** Primitive floats

    The same facts through the axioms that link [PrimFloat] to [SpecFloat]. *)

Lemma SFfinite_not_nan x : SFfinite x = true -> SFis_nan x = false.
Proof. destruct x; try discriminate; reflexivity. Qed.

Lemma is_nan_spec x : is_nan x = SFis_nan (Prim2SF x).
Proof.
  unfold is_nan. rewrite eqb_spec. unfold SFeqb.
  destruct (SFis_nan (Prim2SF x)) eqn:N.
  - destruct (Prim2SF x); try discriminate. reflexivity.
  - rewrite SFcompare_val by (auto using Prim2SF_valid).
    rewrite Z.compare_refl. reflexivity.
Qed.

Lemma Finite_not_nan x : Finite x = true -> is_nan x = false.
Proof. intros H. rewrite is_nan_spec. apply SFfinite_not_nan. exact H. Qed.

Lemma leb_val x y : is_nan x = false -> is_nan y = false ->
  (x <=? y)%float = (fval x <=? fval y).
Proof.
  rewrite !is_nan_spec. intros Nx Ny.
  rewrite leb_spec. unfold SFleb, fval.
  rewrite SFcompare_val by (auto using Prim2SF_valid).
  unfold Z.leb. destruct (val (Prim2SF x) ?= val (Prim2SF y)); reflexivity.
Qed.

Lemma ltb_val x y : is_nan x = false -> is_nan y = false ->
  (x <? y)%float = (fval x <? fval y).
Proof.
  rewrite !is_nan_spec. intros Nx Ny.
  rewrite ltb_spec. unfold SFltb, fval.
  rewrite SFcompare_val by (auto using Prim2SF_valid).
  unfold Z.ltb. destruct (val (Prim2SF x) ?= val (Prim2SF y)); reflexivity.
Qed.

Lemma leb_not_nan x y : (x <=? y)%float = true -> is_nan x = false /\ is_nan y = false.
Proof.
  rewrite !is_nan_spec, leb_spec. unfold SFleb.
  destruct (Prim2SF x), (Prim2SF y); cbn; try discriminate; auto.
Qed.

Lemma ltb_not_nan x y : (x <? y)%float = true -> is_nan x = false /\ is_nan y = false.
Proof.
  rewrite !is_nan_spec, ltb_spec. unfold SFltb.
  destruct (Prim2SF x), (Prim2SF y); cbn; try discriminate; auto.
Qed.

Lemma leb_true x y : (x <=? y)%float = true ->
  is_nan x = false /\ is_nan y = false /\ fval x <= fval y.
Proof.
  intros H. destruct (leb_not_nan x y H) as [Nx Ny].
  rewrite leb_val in H by assumption. apply Z.leb_le in H. auto.
Qed.

Lemma ltb_true x y : (x <? y)%float = true ->
  is_nan x = false /\ is_nan y = false /\ fval x < fval y.
Proof.
  intros H. destruct (ltb_not_nan x y H) as [Nx Ny].
  rewrite ltb_val in H by assumption. apply Z.ltb_lt in H. auto.
Qed.

Lemma fval_bound x : - INF <= fval x <= INF.
Proof.
  unfold fval. pose proof (Prim2SF_valid x) as V. pose proof INF_pos.
  destruct (Prim2SF x) as [s|s| |s m e]; cbn [val]; try lia.
  - destruct s; cbn [sgn]; lia.
  - destruct (bounded_range m e V) as (_ & R & _). destruct s; cbn [sgn]; lia.
Qed.

Lemma Finite_iff x : is_nan x = false -> Finite x = true <-> - INF < fval x < INF.
Proof.
  rewrite is_nan_spec. unfold Finite, fval.
  pose proof (Prim2SF_valid x) as V. pose proof INF_pos.
  destruct (Prim2SF x) as [s|s| |s m e]; cbn [val SFfinite SFis_nan]; try discriminate; intros _.
  - split; [lia|reflexivity].
  - split; [discriminate|]. destruct s; cbn [sgn]; lia.
  - destruct (bounded_range m e V) as (_ & R & _).
    split; [|reflexivity]. destruct s; cbn [sgn]; lia.
Qed.

Section Ops.

Variables x y : float.

Hypothesis Fx : Finite x = true.

Hypothesis Fy : Finite y = true.

Lemma add_val : is_nan (x + y) = false /\ fval (x + y) = R (fval x + fval y) 1.
Proof.
  rewrite is_nan_spec. unfold fval. rewrite add_spec.
  destruct (SFadd_val (Prim2SF x) (Prim2SF y)) as (A & _ & B);
    auto using Prim2SF_valid.
Qed.

Lemma sub_val : is_nan (x - y) = false /\ fval (x - y) = R (fval x - fval y) 1.
Proof.
  rewrite is_nan_spec. unfold fval. rewrite sub_spec.
  destruct (SFsub_val (Prim2SF x) (Prim2SF y)) as (A & _ & B);
    auto using Prim2SF_valid.
Qed.

Lemma mul_val : is_nan (x * y) = false /\ fval (x * y) = R (fval x * fval y) (2 ^ K).
Proof.
  rewrite is_nan_spec. unfold fval. rewrite mul_spec.
  destruct (SFmul_val (Prim2SF x) (Prim2SF y)) as (A & _ & B);
    auto using Prim2SF_valid.
Qed.

End Ops.

Lemma abs_val x : is_nan (abs x) = is_nan x /\ fval (abs x) = Z.abs (fval x) /\
  Finite (abs x) = Finite x.
Proof.
  rewrite !is_nan_spec. unfold fval, Finite. rewrite abs_spec.
  pose proof (Prim2SF_valid x) as V. pose proof INF_pos.
  destruct (Prim2SF x) as [s|s| |s m e]; cbn [SFabs val SFis_nan SFfinite sgn]; auto.
  - destruct s; cbn [sgn]; repeat split; lia.
  - destruct (bounded_range m e V) as (_ & R & _).
    destruct s; cbn [sgn]; repeat split; lia.
Qed.

(** ** Gaps between doubles

    What lies strictly below a double stays below after rounding. *)

Lemma adm_1 n : admissible n 1.
Proof. unfold admissible. lia. Qed.

Lemma val_grid x : valid_binary x = true -> SFfinite x = true ->
  val x = 0 \/ 2 ^ (K + emin) <= Z.abs (val x).
Proof.
  intros V F. destruct x as [s|s| |s m e]; try discriminate; cbn [val]; auto.
  right. cbn [SpecFloat.valid_binary] in V.
  destruct (bounded_inv m e V) as (E & _). destruct (bounded_range m e V) as (Ke & _).
  pose proof Kemin_pos.
  assert (2 ^ (K + emin) <= 2 ^ (e + K)) by (apply Z.pow_le_mono_r; lia).
  assert (0 < 2 ^ (e + K)) by (apply Z.pow_pos_nonneg; lia).
  destruct s; cbn [sgn]; nia.
Qed.

Lemma K_split : 2 ^ K = 2 ^ (K + emin) * 2 ^ (K + emin).
Proof. rewrite <- Z.pow_add_r by (rewrite emin_val; unfold K; lia). reflexivity. Qed.

Lemma adm_mul x y : valid_binary x = true -> valid_binary y = true ->
  SFfinite x = true -> SFfinite y = true -> admissible (val x * val y) (2 ^ K).
Proof.
  intros Vx Vy Fx Fy. split.
  - apply Z.pow_pos_nonneg; [lia|unfold K; lia].
  - destruct (val_grid x Vx Fx) as [->|Hx]; [left; lia|].
    destruct (val_grid y Vy Fy) as [->|Hy]; [left; lia|].
    right. rewrite Z.abs_mul, K_split.
    assert (0 < 2 ^ (K + emin)) by (apply Z.pow_pos_nonneg; [lia|apply Kemin_pos]).
    nia.
Qed.

(** Distance to the next smaller value below a float with a full mantissa. *)
Lemma val_gap x my ey :
  valid_binary x = true -> SFfinite x = true ->
  bounded prec emax my ey = true -> 2 ^ (prec - 1) <= Z.pos my ->
  val x < Z.pos my * 2 ^ (ey + K) ->
  val x <= Z.pos my * 2 ^ (ey + K) - 2 ^ (ey - 1 + K).
Proof.
  intros Vx Fx Vy Ny Hlt.
  destruct (bounded_range my ey Vy) as (Ky & Ry & My & _).
  destruct (bounded_inv my ey Vy) as (Ey & _).
  pose proof emin_val as Em. assert (EK : K = 2148) by reflexivity.
  assert (Ep : prec = 53) by reflexivity.
  assert (P1 : 0 < 2 ^ (ey - 1 + K)) by (apply Z.pow_pos_nonneg; lia).
  assert (P2 : 2 ^ (ey + K) = 2 * 2 ^ (ey - 1 + K)).
  { replace (ey + K) with (1 + (ey - 1 + K)) by lia. rewrite Z.pow_add_r by lia. reflexivity. }
  assert (P3 : 0 < 2 ^ (prec - 1)) by (apply Z.pow_pos_nonneg; lia).
  assert (Hy : 0 <= Z.pos my * 2 ^ (ey + K) - 2 ^ (ey - 1 + K)) by (rewrite P2; nia).
  destruct x as [s|s| |s mx ex]; try discriminate; cbn [val] in *.
  - lia.
  - cbn [SpecFloat.valid_binary] in Vx.
    destruct (bounded_range mx ex Vx) as (Kx & Rx & Mx & _).
    destruct (bounded_inv mx ex Vx) as (Ex & _).
    destruct s; cbn [sgn] in *; [lia|].
    destruct (Z.lt_ge_cases ey ex) as [G|L].
    + pose proof (valid_lt my ey mx ex Vy Vx G). lia.
    + destruct (Z.eq_dec ex ey) as [E1|N1].
      { subst ex. rewrite P2 in *.
        assert (Z.pos mx + 1 <= Z.pos my) by nia. nia. }
      destruct (Z.eq_dec ex (ey - 1)) as [E2|N2].
      { subst ex. rewrite P2 in *.
        assert (Z.pos mx + 1 <= 2 * Z.pos my) by nia. nia. }
      assert (P4 : 2 ^ (ex + K) * 4 <= 2 ^ (ey + K)).
      { change 4 with (2 ^ 2). rewrite <- Z.pow_add_r by lia.
        apply Z.pow_le_mono_r; lia. }
      assert (P5 : 2 ^ prec = 2 * 2 ^ (prec - 1)).
      { replace prec with (1 + (prec - 1)) at 1 by lia.
        rewrite Z.pow_add_r by lia. reflexivity. }
      assert (0 < 2 ^ (ex + K)) by (apply Z.pow_pos_nonneg; lia).
      nia.
Qed.

Lemma pred_one_bounded e : emin <= e <= emax - prec ->
  bounded prec emax 9007199254740991 e = true.
Proof.
  intros He. unfold bounded, canonical_mantissa.
  change (Z.pos (digits2_pos 9007199254740991)) with 53.
  rewrite fexp_val. replace (Z.max (53 + e - prec) emin) with e by (unfold prec in *; lia).
  rewrite Z.eqb_refl. apply Z.leb_le. lia.
Qed.

(** Multiplying a full-mantissa value above the smallest binade by the
    largest float below one rounds strictly below that value. *)
Lemma R_pred_one m e :
  bounded prec emax m e = true -> emin < e ->
  R ((2 ^ prec - 1) * (Z.pos m * 2 ^ (e + K))) (2 ^ prec) < Z.pos m * 2 ^ (e + K).
Proof.
  intros V He.
  destruct (bounded_range m e V) as (Ke & Rv & Mu & Ml). specialize (Ml He).
  destruct (bounded_inv m e V) as (Ee & _).
  pose proof emin_val as Em. assert (EK : K = 2148) by reflexivity.
  assert (Ep : prec = 53) by reflexivity. assert (Ea : emax = 1024) by reflexivity.
  assert (P53 : 2 ^ prec = 9007199254740992) by reflexivity.
  assert (P52 : 2 ^ (prec - 1) = 4503599627370496) by reflexivity.
  assert (Pe : 0 < 2 ^ (e + K)) by (apply Z.pow_pos_nonneg; lia).
  destruct (Z.eq_dec (Z.pos m) (2 ^ (prec - 1))) as [E|N].
  - (* power of two *)
    assert (P1 : 2 ^ (e + K) = 2 * 2 ^ (e - 1 + K)).
    { replace (e + K) with (1 + (e - 1 + K)) by lia. rewrite Z.pow_add_r by lia. reflexivity. }
    assert (Pe1 : 0 < 2 ^ (e - 1 + K)) by (apply Z.pow_pos_nonneg; lia).
    rewrite E.
    replace ((2 ^ prec - 1) * (2 ^ (prec - 1) * 2 ^ (e + K)))
      with (Z.pos 9007199254740991 * 2 ^ (e - 1 + K) * 2 ^ prec) by (rewrite P1; lia).
    rewrite <- (Z.mul_1_l (2 ^ prec)) at 2.
    rewrite R_scale by lia.
    pose proof (R_repr (S754_finite false 9007199254740991 (e - 1))
                  (pred_one_bounded (e - 1) ltac:(lia)) eq_refl) as Hr.
    cbn [val sgn] in Hr. rewrite Hr. rewrite P1. lia.
  - assert (Hm : 2 ^ (prec - 1) < Z.pos m) by lia.
    set (a' := (2 ^ prec - 1) * Z.pos m).
    assert (Hdiv : a' / 2 ^ prec = Z.pos m - 1).
    { symmetry. apply Z.div_unique with (2 ^ prec - Z.pos m); unfold a'; lia. }
    assert (Hmod : a' mod 2 ^ prec = 2 ^ prec - Z.pos m).
    { symmetry. apply Z.mod_unique with (Z.pos m - 1); unfold a'; lia. }
    replace ((2 ^ prec - 1) * (Z.pos m * 2 ^ (e + K))) with (a' * 2 ^ (e + K))
      by (unfold a'; ring).
    assert (Ha : 0 < a' * 2 ^ (e + K)) by (unfold a'; nia).
    change (a' * 2 ^ (e + K)) with (sgn false (a' * 2 ^ (e + K))).
    rewrite R_sgn by lia. cbn [sgn].
    assert (Hc : cexpZ (a' * 2 ^ (e + K)) (2 ^ prec) = e + K).
    { rewrite cexpZ_link by (unfold a'; nia).
      rewrite Hdiv, fexp_val, Zdigits2_log2 by lia.
      assert (Z.log2 (Z.pos m - 1) = prec - 1).
      { apply Z.log2_unique; [lia|]. replace (Z.succ (prec - 1)) with prec by lia. lia. }
      lia. }
    assert (Hr : rnd_pos (a' * 2 ^ (e + K)) (2 ^ prec) = (Z.pos m - 1) * 2 ^ (e + K)).
    { unfold rnd_pos. rewrite Hc, rne_scale by lia.
      unfold rne. rewrite Hdiv, Hmod.
      destruct (Z.compare_spec (2 * (2 ^ prec - Z.pos m)) (2 ^ prec)); try lia. }
    rewrite Hr. lia.
Qed.

Lemma one_SF : Prim2SF 1 = S754_finite false 4503599627370496 (-52).
Proof. reflexivity. Qed.

Lemma fval_one : fval 1 = 2 ^ K.
Proof.
  unfold fval. rewrite one_SF. cbn [val sgn].
  change (Z.pos 4503599627370496) with (2 ^ 52).
  rewrite <- Z.pow_add_r by (unfold K; lia). f_equal.
Qed.

Lemma fval_zero : fval 0 = 0.
Proof. reflexivity. Qed.

Lemma below_one r : Finite r = true -> fval r < fval 1 -> fval r <= 2 ^ K - 2 ^ (K - prec).
Proof.
  intros F H. rewrite fval_one in H.
  assert (V1 : bounded prec emax 4503599627370496 (-52) = true) by reflexivity.
  pose proof (val_gap (Prim2SF r) 4503599627370496 (-52) (Prim2SF_valid r) F V1 ltac:(reflexivity)) as G.
  assert (E1 : Z.pos 4503599627370496 * 2 ^ (-52 + K) = 2 ^ K).
  { change (Z.pos 4503599627370496) with (2 ^ 52).
    rewrite <- Z.pow_add_r by (unfold K; lia). f_equal. }
  rewrite E1 in G. specialize (G H).
  replace (-52 - 1 + K) with (K - prec) in G by (unfold prec; lia). exact G.
Qed.

(** r * x < x for 0 <= r < 1 and x at or above 2^-1021. *)
Lemma mul_lt r x :
  Finite r = true -> Finite x = true ->
  0 <= fval r -> fval r < fval 1 ->
  2 ^ (prec + emin + K) <= fval x ->
  fval (r * x) < fval x.
Proof.
  intros Fr Fx R0 R1 Hx.
  destruct (mul_val r x Fr Fx) as [_ ->].
  pose proof (below_one r Fr R1) as Hr.
  pose proof emin_val as Em. assert (EK : K = 2148) by reflexivity.
  assert (Ep : prec = 53) by reflexivity.
  assert (Px : 0 < 2 ^ (prec + emin + K)) by (apply Z.pow_pos_nonneg; lia).
  assert (PK : 0 < 2 ^ K) by (apply Z.pow_pos_nonneg; lia).
  assert (Pk : 0 < 2 ^ (K - prec)) by (apply Z.pow_pos_nonneg; lia).
  assert (Ek : 2 ^ K = 2 ^ prec * 2 ^ (K - prec)).
  { rewrite <- Z.pow_add_r by lia. f_equal; lia. }
  assert (P53 : 0 < 2 ^ prec) by (apply Z.pow_pos_nonneg; lia).
  assert (Adm : admissible (fval r * fval x) (2 ^ K))
    by (apply adm_mul; auto using Prim2SF_valid).
  assert (Adm2 : admissible ((2 ^ prec - 1) * fval x) (2 ^ prec)).
  { split; [lia|]. right.
    assert (2 ^ 1 <= 2 ^ (prec + emin + K)) by (apply Z.pow_le_mono_r; lia).
    change (2 ^ 1) with 2 in *.
    assert (2 <= 2 ^ prec) by (rewrite Ep; discriminate).
    assert (2 <= fval x) by lia.
    rewrite Z.abs_eq by nia. nia. }
  eapply Z.le_lt_trans.
  - apply (R_mono _ _ ((2 ^ prec - 1) * fval x) (2 ^ prec) Adm Adm2).
    rewrite Ek. rewrite Ek in Hr.
    assert (fval r * fval x <= (2 ^ prec - 1) * 2 ^ (K - prec) * fval x)
      by (apply Z.mul_le_mono_nonneg_r; lia).
    nia.
  - unfold fval in *. pose proof (Prim2SF_valid x) as V.
    unfold Finite in Fx.
    destruct (Prim2SF x) as [s|s| |s m e]; try discriminate; cbn [val] in *; [lia|].
    cbn [SpecFloat.valid_binary] in V.
    destruct (bounded_range m e V) as (Ke & Rv & Mu & _).
    destruct (bounded_inv m e V) as (Ee & _).
    assert (Pe : 0 < 2 ^ (e + K)) by (apply Z.pow_pos_nonneg; lia).
    destruct s; cbn [sgn] in *; [lia|].
    apply R_pred_one; [exact V|].
    destruct (Z.eq_dec e emin) as [->|]; [|lia].
    replace (prec + emin + K) with (prec + (emin + K)) in Hx by lia.
    rewrite (Z.pow_add_r 2 prec) in Hx by lia. nia.
Qed.

(** ** Integers as doubles

    [Z2F], negation, [Math_floor] and [Math_ceil]. *)

Lemma PK_pos : 0 < 2 ^ K.
Proof. apply Z.pow_pos_nonneg; [lia|unfold K; lia]. Qed.

Lemma R_finite n : Z.abs n <= 2 ^ prec * 2 ^ K -> - INF < R n 1 < INF.
Proof.
  intros H. pose proof PK_pos.
  assert (I : 2 ^ prec * 2 ^ K < INF).
  { unfold INF. rewrite <- Z.pow_add_r by (unfold prec, K; lia).
    apply Z.pow_lt_mono_r; unfold prec, emax, K; lia. }
  assert (E : R (2 ^ prec * 2 ^ K) 1 = 2 ^ prec * 2 ^ K)
    by (apply R_int; rewrite Z.abs_eq; [lia|apply Z.pow_nonneg; lia]).
  assert (E' : R (- (2 ^ prec * 2 ^ K)) 1 = - (2 ^ prec * 2 ^ K))
    by (rewrite R_opp, E; reflexivity).
  pose proof (R_mono n 1 (2 ^ prec * 2 ^ K) 1 (adm_1 _) (adm_1 _) ltac:(lia)).
  pose proof (R_mono (- (2 ^ prec * 2 ^ K)) 1 n 1 (adm_1 _) (adm_1 _) ltac:(lia)).
  lia.
Qed.

Lemma Z2F_SF z : Prim2SF (Z2F z) = binary_normalize prec emax z 0 false.
Proof.
  unfold Z2F. apply Prim2SF_SF2Prim.
  apply (binary_normalize_spec z 0 false). unfold K. lia.
Qed.

Lemma Z2F_val z : is_nan (Z2F z) = false /\ fval (Z2F z) = R (z * 2 ^ K) 1.
Proof.
  rewrite is_nan_spec. unfold fval. rewrite Z2F_SF.
  destruct (binary_normalize_spec z 0 false) as (A & _ & B); [unfold K; lia|].
  rewrite Z.add_0_l in B. auto.
Qed.

Lemma Z2F_int z : Z.abs z <= 2 ^ prec ->
  Finite (Z2F z) = true /\ fval (Z2F z) = z * 2 ^ K.
Proof.
  intros H. destruct (Z2F_val z) as [N V]. pose proof PK_pos.
  split.
  - apply Finite_iff; [exact N|]. rewrite V. apply R_finite.
    rewrite Z.abs_mul, (Z.abs_eq (2 ^ K)) by lia. nia.
  - rewrite V. apply R_int. exact H.
Qed.

Lemma opp_val x : is_nan (- x) = is_nan x /\ fval (- x) = - fval x /\ Finite (- x) = Finite x.
Proof.
  rewrite !is_nan_spec. unfold fval, Finite. rewrite opp_spec.
  destruct (Prim2SF x) as [s|s| |s m e]; cbn [SFopp val SFis_nan SFfinite]; auto;
    destruct s; cbn [sgn negb]; repeat split; lia.
Qed.

Lemma floor_val x : Finite x = true ->
  Finite (Math_floor x) = true /\ fval (Math_floor x) = fval x / 2 ^ K * 2 ^ K.
Proof.
  intros F. unfold Math_floor. pose proof PK_pos as PK.
  pose proof (Prim2SF_valid x) as V.
  unfold Finite, fval in *.
  destruct (Prim2SF x) as [s|s| |s m e] eqn:E; try discriminate.
  - rewrite E. split; reflexivity.
  - cbn [SpecFloat.valid_binary] in V.
    destruct (bounded_range m e V) as (Ke & _ & Mu & _).
    destruct (Z.leb_spec 0 e) as [P|N].
    + rewrite E. split; [reflexivity|]. cbn [val].
      assert (Es : sgn s (Z.pos m * 2 ^ (e + K)) = sgn s (Z.pos m * 2 ^ e) * 2 ^ K).
      { rewrite Z.pow_add_r by (unfold K; lia). destruct s; cbn [sgn]; ring. }
      rewrite Es, Z.div_mul by lia. reflexivity.
    + set (q := (if s then Z.neg m else Z.pos m) / 2 ^ (- e)).
      assert (Pe : 0 < 2 ^ (- e)) by (apply Z.pow_pos_nonneg; lia).
      assert (Pk : 0 < 2 ^ (e + K)) by (apply Z.pow_pos_nonneg; lia).
      assert (Hq : Z.abs q <= 2 ^ prec).
      { unfold q. destruct s.
        - assert (- Z.pos m <= Z.neg m / 2 ^ (- e)).
          { apply Z.div_le_lower_bound; [lia|]. nia. }
          assert (Z.neg m / 2 ^ (- e) <= 0).
          { apply Z.div_le_upper_bound; lia. }
          lia.
        - assert (0 <= Z.pos m / 2 ^ (- e)) by (apply Z.div_pos; lia).
          assert (Z.pos m / 2 ^ (- e) <= Z.pos m).
          { apply Z.div_le_upper_bound; [lia|]. nia. }
          lia. }
      destruct (Z2F_int q Hq) as [Fq Vq]. unfold Finite, fval in Fq, Vq.
      split; [exact Fq|]. rewrite Vq. f_equal. cbn [val].
      assert (EK : 2 ^ K = 2 ^ (- e) * 2 ^ (e + K)).
      { rewrite <- Z.pow_add_r by lia. f_equal. lia. }
      rewrite EK. unfold q.
      replace (sgn s (Z.pos m * 2 ^ (e + K))) with ((if s then Z.neg m else Z.pos m) * 2 ^ (e + K))
        by (destruct s; cbn [sgn]; lia).
      rewrite Z.div_mul_cancel_r by lia. reflexivity.
Qed.

Lemma ceil_val x : Finite x = true ->
  Finite (Math_ceil x) = true /\ fval (Math_ceil x) = - ((- fval x) / 2 ^ K * 2 ^ K).
Proof.
  intros F. unfold Math_ceil.
  destruct (opp_val x) as (_ & V1 & F1).
  destruct (floor_val (- x)%float) as [F2 V2]; [rewrite F1; exact F|].
  destruct (opp_val (Math_floor (- x)%float)) as (_ & V3 & F3).
  rewrite F3, V3, V2, V1. auto.
Qed.

Lemma F2Z_int x z : Finite x = true -> fval x = z * 2 ^ K -> F2Z x = z.
Proof.
  intros F Hv. unfold F2Z. pose proof PK_pos as PK.
  pose proof (Prim2SF_valid x) as V.
  unfold Finite, fval in *.
  destruct (Prim2SF x) as [s|s| |s m e] eqn:E; try discriminate; cbn [val] in Hv.
  - nia.
  - cbn [SpecFloat.valid_binary] in V.
    destruct (bounded_range m e V) as (Ke & _ & Mu & _).
    assert (Pk : 0 < 2 ^ (e + K)) by (apply Z.pow_pos_nonneg; lia).
    destruct (Z.leb_spec 0 e) as [P|N].
    + rewrite Z.pow_add_r in Hv by (unfold K; lia).
      destruct s; cbn [sgn] in Hv; nia.
    + assert (Pe : 0 < 2 ^ (- e)) by (apply Z.pow_pos_nonneg; lia).
      assert (EK : 2 ^ K = 2 ^ (- e) * 2 ^ (e + K)).
      { rewrite <- Z.pow_add_r by lia. f_equal. lia. }
      rewrite EK in Hv.
      destruct s; cbn [sgn] in Hv.
      * assert (Em : Z.pos m = (- z) * 2 ^ (- e)) by nia.
        rewrite Em, Z.div_mul by lia. lia.
      * assert (Em : Z.pos m = z * 2 ^ (- e)) by nia.
        rewrite Em, Z.div_mul by lia. lia.
Qed.

(** ** Integer-valued doubles and [getRandomInt] *)

Lemma int_small_finite z : Z.abs z <= 2 ^ prec -> - INF < z * 2 ^ K < INF.
Proof.
  intros H. pose proof PK_pos.
  assert (I : 2 ^ prec * 2 ^ K < INF).
  { unfold INF. rewrite <- Z.pow_add_r by (unfold prec, K; lia).
    apply Z.pow_lt_mono_r; unfold prec, emax, K; lia. }
  nia.
Qed.

Lemma int_add x y a b : IsInt x a -> IsInt y b -> Z.abs (a + b) <= 2 ^ prec ->
  IsInt (x + y) (a + b).
Proof.
  intros [Fx Vx] [Fy Vy] H. destruct (add_val x y Fx Fy) as [N V].
  rewrite Vx, Vy, <- Z.mul_add_distr_r, R_int in V by assumption.
  split; [|exact V]. apply Finite_iff; [exact N|]. rewrite V. apply int_small_finite, H.
Qed.

Lemma int_sub x y a b : IsInt x a -> IsInt y b -> Z.abs (a - b) <= 2 ^ prec ->
  IsInt (x - y) (a - b).
Proof.
  intros [Fx Vx] [Fy Vy] H. destruct (sub_val x y Fx Fy) as [N V].
  rewrite Vx, Vy, <- Z.mul_sub_distr_r, R_int in V by assumption.
  split; [|exact V]. apply Finite_iff; [exact N|]. rewrite V. apply int_small_finite, H.
Qed.

Lemma int_floor x a : IsInt x a -> IsInt (Math_floor x) a.
Proof.
  intros [Fx Vx]. destruct (floor_val x Fx) as [F V].
  split; [exact F|]. rewrite V, Vx, Z.div_mul by (pose proof PK_pos; lia). reflexivity.
Qed.

Lemma int_ceil x a : IsInt x a -> IsInt (Math_ceil x) a.
Proof.
  intros [Fx Vx]. destruct (ceil_val x Fx) as [F V].
  split; [exact F|]. rewrite V, Vx.
  replace (- (a * 2 ^ K)) with ((- a) * 2 ^ K) by ring.
  rewrite Z.div_mul by (pose proof PK_pos; lia). ring.
Qed.

Lemma int_one : IsInt 1 1.
Proof. split; [reflexivity|]. rewrite fval_one. ring. Qed.

Lemma int_opp x a : IsInt x a -> IsInt (- x) (- a).
Proof.
  intros [Fx Vx]. destruct (opp_val x) as (_ & V & F).
  split; [rewrite F; exact Fx|]. rewrite V, Vx. ring.
Qed.

Lemma unit_interval_spec r : unit_interval r = true ->
  Finite r = true /\ 0 <= fval r < fval 1.
Proof.
  unfold unit_interval. intros H. apply andb_prop in H. destruct H as [H0 H1].
  apply leb_true in H0. apply ltb_true in H1.
  destruct H0 as (_ & N & L0). destruct H1 as (_ & _ & L1).
  rewrite fval_zero in L0. split; [|lia].
  apply Finite_iff; [exact N|]. rewrite fval_one in L1.
  pose proof PK_pos. pose proof (int_small_finite 1 ltac:(simpl; unfold prec; lia)). lia.
Qed.

(** Product of a unit-interval float with an integer-valued float. *)
Lemma unit_mul_int r x k : unit_interval r = true -> IsInt x k -> Z.abs k <= 2 ^ prec ->
  Finite (r * x) = true /\
  (0 < k -> 0 <= fval (r * x) < k * 2 ^ K) /\
  (k = 0 -> fval (r * x) = 0) /\
  (k < 0 -> k * 2 ^ K < fval (r * x) <= 0).
Proof.
  intros Hr [Fx Vx] Hk. destruct (unit_interval_spec r Hr) as (Fr & R0 & R1).
  pose proof PK_pos as PK. pose proof emin_val as Em.
  assert (EK : K = 2148) by reflexivity. assert (Ep : prec = 53) by reflexivity.
  destruct (mul_val r x Fr Fx) as [N V].
  assert (Adm : admissible (fval r * fval x) (2 ^ K))
    by (apply adm_mul; auto using Prim2SF_valid).
  assert (Adm0 : admissible 0 (2 ^ K)) by (split; [lia|left; reflexivity]).
  assert (Small : 2 ^ (prec + emin + K) <= 2 ^ K) by (apply Z.pow_le_mono_r; lia).
  assert (Hcases : (0 < k -> 0 <= fval (r * x) < k * 2 ^ K) /\
                   (k = 0 -> fval (r * x) = 0) /\
                   (k < 0 -> k * 2 ^ K < fval (r * x) <= 0)).
  { split; [|split]; intros Hs.
    - split.
      + rewrite V. change 0 with (R 0 (2 ^ K)) at 1.
        apply R_mono; auto. rewrite Vx. nia.
      + rewrite <- Vx. apply mul_lt; auto. rewrite Vx. nia.
    - rewrite V, Vx, Hs. rewrite Z.mul_0_l, Z.mul_0_r. reflexivity.
    - destruct (int_opp x k (conj Fx Vx)) as [Fo Vo].
      destruct (mul_val r (- x) Fr Fo) as [_ V'].
      assert (Hlt : fval (r * - x) < fval (- x)%float).
      { apply mul_lt; auto. rewrite Vo. nia. }
      rewrite V', Vo in Hlt.
      replace (fval r * (- k * 2 ^ K)) with (- (fval r * fval x)) in Hlt by (rewrite Vx; ring).
      rewrite R_opp, <- V in Hlt.
      split; [lia|].
      rewrite V. change 0 with (R 0 (2 ^ K)) at 1.
      apply R_mono; auto. rewrite Vx. nia. }
  split; [|exact Hcases].
  apply Finite_iff; [exact N|].
  pose proof (int_small_finite k Hk) as B.
  destruct Hcases as (C1 & C2 & C3).
  destruct (Z.lt_trichotomy k 0) as [L|[E|G]].
  - specialize (C3 L). pose proof INF_pos. lia.
  - rewrite (C2 E). pose proof INF_pos. lia.
  - specialize (C1 G). pose proof INF_pos. lia.
Qed.

Lemma randomInt_value_spec r lo hi zlo zhi :
  unit_interval r = true -> IsInt lo zlo -> IsInt hi zhi ->
  Z.abs zlo <= 2 ^ 51 -> Z.abs zhi <= 2 ^ 51 ->
  exists n, IsInt (randomInt_value r lo hi) n /\
    (zlo <= zhi -> zlo <= n <= zhi) /\ (zhi < zlo -> zhi < n <= zlo).
Proof.
  intros Hr Hlo Hhi Blo Bhi. unfold randomInt_value.
  assert (Ep : 2 ^ prec = 9007199254740992) by reflexivity.
  assert (E51 : 2 ^ 51 = 2251799813685248) by reflexivity.
  pose proof PK_pos as PK.
  pose proof (int_ceil lo zlo Hlo) as Hmin.
  pose proof (int_floor hi zhi Hhi) as Hmax.
  pose proof (int_sub _ _ _ _ Hmax Hmin ltac:(lia)) as Hd.
  pose proof (int_add _ _ _ _ Hd int_one ltac:(lia)) as Hk.
  destruct (unit_mul_int r _ _ Hr Hk ltac:(lia)) as (Ft & C1 & C2 & C3).
  destruct (floor_val _ Ft) as [Fq Vq].
  set (t := (r * (Math_floor hi - Math_ceil lo + 1))%float) in *.
  set (qz := fval t / 2 ^ K) in *.
  assert (Hq : IsInt (Math_floor t) qz) by (split; assumption).
  assert (Bq : (zlo <= zhi -> 0 <= qz <= zhi - zlo) /\ (zhi < zlo -> zhi - zlo < qz <= 0)).
  { split; intros Hc.
    - destruct (C1 ltac:(lia)) as [T0 T1]. split.
      + apply Z.div_pos; lia.
      + assert (qz < zhi - zlo + 1) by (apply Z.div_lt_upper_bound; lia). lia.
    - destruct (Z.eq_dec (zhi - zlo + 1) 0) as [E0|N0].
      + unfold qz. rewrite (C2 E0). rewrite Z.div_0_l by lia. lia.
      + destruct (C3 ltac:(lia)) as [T0 T1]. split.
        * assert (zhi - zlo + 1 <= qz) by (apply Z.div_le_lower_bound; lia). lia.
        * assert (qz < 1) by (apply Z.div_lt_upper_bound; lia). lia. }
  destruct Bq as [B1 B2].
  exists (qz + zlo). split.
  - apply int_add; auto. destruct (Z.le_gt_cases zlo zhi) as [L|G].
    + specialize (B1 L). lia.
    + specialize (B2 ltac:(lia)). lia.
  - split; intros Hc.
    + specialize (B1 Hc). lia.
    + specialize (B2 Hc). lia.
Qed.

(** ** [getRandomFloat] stays between its bounds *)

Lemma sub_finite_inv x y : Finite (x - y) = true -> Finite x = true /\ Finite y = true.
Proof.
  unfold Finite. rewrite sub_spec.
  destruct (Prim2SF x) as [sx|sx| |sx mx ex], (Prim2SF y) as [sy|sy| |sy my ey];
    cbn [SF64sub SFsub SFfinite]; auto; try discriminate.
  - destruct sx, sy; cbn; auto.
Qed.

Lemma add_finite_inv x y : Finite (x + y) = true -> Finite x = true /\ Finite y = true.
Proof.
  unfold Finite. rewrite add_spec.
  destruct (Prim2SF x) as [sx|sx| |sx mx ex], (Prim2SF y) as [sy|sy| |sy my ey];
    cbn [SF64add SFadd SFfinite]; auto; try discriminate.
  - destruct sx, sy; cbn; auto.
Qed.

Lemma fval_repr x : Finite x = true -> R (fval x) 1 = fval x.
Proof. intros F. apply R_repr; [apply Prim2SF_valid|exact F]. Qed.

Lemma fval_multiple x : Finite x = true -> exists z, fval x = z * 2 ^ (K + emin).
Proof.
  intros F. unfold Finite, fval in *. pose proof (Prim2SF_valid x) as V.
  destruct (Prim2SF x) as [s|s| |s m e]; try discriminate; cbn [val].
  - exists 0. reflexivity.
  - cbn [SpecFloat.valid_binary] in V. destruct (bounded_inv m e V) as (E & _).
    pose proof Kemin_pos.
    exists (sgn s (Z.pos m * 2 ^ (e - emin))).
    rewrite <- sgn_mul_r, <- Z.mul_assoc, <- Z.pow_add_r by lia.
    do 3 f_equal. lia.
Qed.

Lemma R_small_grid z : 0 <= z < 2 ^ prec ->
  R (z * 2 ^ (K + emin)) 1 = z * 2 ^ (K + emin).
Proof.
  intros Hz. pose proof Kemin_pos as Kp.
  assert (P : 0 < 2 ^ (K + emin)) by (apply Z.pow_pos_nonneg; lia).
  destruct (Z.eq_dec z 0) as [->|N]; [reflexivity|].
  assert (Hpos : 0 < z * 2 ^ (K + emin)) by nia.
  change (z * 2 ^ (K + emin)) with (sgn false (z * 2 ^ (K + emin))) at 1.
  rewrite R_sgn by lia. cbn [sgn].
  assert (Hc : cexpZ (z * 2 ^ (K + emin)) 1 = K + emin).
  { replace (K + emin) with (emin + K) at 1 by lia.
    rewrite cexpZ_link by lia.
    rewrite Z.div_1_r, fexp_val, Zdigits2_log2 by lia.
    assert (Z.log2 z < prec) by (apply Z.log2_lt_pow2; lia). lia. }
  unfold rnd_pos. rewrite Hc, Z.mul_1_l, rne_exact by lia.
  apply Z.min_r.
  assert (I : 2 ^ prec * 2 ^ (K + emin) <= INF).
  { unfold INF. rewrite <- Z.pow_add_r by (first [apply Kemin_pos | discriminate]).
    apply Z.pow_le_mono_r; [lia|]. rewrite emin_val. unfold prec, emax. lia. }
  nia.
Qed.

Lemma R_zero d : R 0 d = 0.
Proof. reflexivity. Qed.

(** [r * d] for a unit-interval [r] and a finite nonnegative [d]. *)
Lemma unit_mul_le r d : unit_interval r = true -> Finite d = true -> 0 <= fval d ->
  Finite (r * d) = true /\ 0 <= fval (r * d) <= fval d.
Proof.
  intros Hr Fd Hd. destruct (unit_interval_spec r Hr) as (Fr & R0 & R1).
  pose proof PK_pos as PK. rewrite fval_one in R1.
  destruct (mul_val r d Fr Fd) as [N V].
  assert (Adm : admissible (fval r * fval d) (2 ^ K))
    by (apply adm_mul; auto using Prim2SF_valid).
  assert (B : 0 <= fval (r * d) <= fval d).
  { rewrite V. split.
    - rewrite <- (R_zero (2 ^ K)). apply R_mono; auto; [split; [lia|left; reflexivity]|nia].
    - rewrite <- (fval_repr d Fd) at 2.
      rewrite <- (R_scale (fval d) 1 (2 ^ K)) by lia.
      apply R_mono; auto.
      + split; [lia|]. destruct (Z.eq_dec (fval d) 0) as [->|]; [left; reflexivity|right].
        rewrite Z.abs_eq by nia. nia.
      + nia. }
  split; [|exact B].
  apply Finite_iff; [exact N|].
  apply Finite_iff in Fd; [|apply Finite_not_nan, Fd]. lia.
Qed.

Theorem randomFloat_value_bounds r lo hi :
  unit_interval r = true -> Finite (hi - lo) = true -> fval lo <= fval hi ->
  Finite (randomFloat_value r lo hi) = true /\
  fval lo <= fval (randomFloat_value r lo hi) <= fval hi.
Proof.
  intros Hr Fd Hle. unfold randomFloat_value.
  destruct (sub_finite_inv hi lo Fd) as [Fhi Flo].
  destruct (sub_val hi lo Fhi Flo) as [_ Vd].
  pose proof PK_pos as PK. pose proof Kemin_pos as Kp. pose proof emin_val as Em.
  assert (EK : K = 2148) by reflexivity. assert (Ep : prec = 53) by reflexivity.
  assert (Hd0 : 0 <= fval (hi - lo)).
  { rewrite Vd, <- (R_zero 1). apply R_mono; auto using adm_1. lia. }
  destruct (unit_mul_le r (hi - lo) Hr Fd Hd0) as [Ft [T0 T1]].
  destruct (add_val _ _ Ft Flo) as [Np Vp].
  assert (B : fval lo <= fval (r * (hi - lo) + lo) <= fval hi).
  { rewrite Vp. split.
    - rewrite <- (fval_repr lo Flo) at 1. apply R_mono; auto using adm_1. lia.
    - rewrite <- (fval_repr hi Fhi) at 1. apply R_mono; auto using adm_1.
      rewrite !Z.mul_1_r.
      destruct (Z.le_gt_cases (fval (hi - lo)) (fval hi - fval lo)) as [A|B]; [lia|].
      (* the difference was rounded up: it is at least 2^-1021 *)
      assert (Big : 2 ^ (prec + emin + K) <= fval hi - fval lo).
      { destruct (Z.le_gt_cases (2 ^ (prec + emin + K)) (fval hi - fval lo)) as [|S]; [assumption|].
        exfalso.
        destruct (fval_multiple hi Fhi) as [zh Eh].
        destruct (fval_multiple lo Flo) as [zl El].
        assert (P : 0 < 2 ^ (K + emin)) by (apply Z.pow_pos_nonneg; lia).
        assert (Es : 2 ^ (prec + emin + K) = 2 ^ prec * 2 ^ (K + emin)).
        { rewrite <- Z.pow_add_r by lia. f_equal; lia. }
        assert (Ex : fval hi - fval lo = (zh - zl) * 2 ^ (K + emin)) by (rewrite Eh, El; ring).
        rewrite Ex, R_small_grid in Vd by nia. lia. }
      assert (Bd : 2 ^ (prec + emin + K) <= fval (hi - lo)) by lia.
      destruct (unit_interval_spec r Hr) as (Fr & R0 & R1).
      pose proof (mul_lt r (hi - lo) Fr Fd R0 R1 Bd) as St.
      destruct (Z.le_gt_cases (fval (r * (hi - lo))) (fval hi - fval lo)) as [|G]; [lia|].
      exfalso.
      pose proof (R_mono (fval hi - fval lo) 1 (fval (r * (hi - lo))) 1
                    (adm_1 _) (adm_1 _) ltac:(lia)) as M.
      rewrite <- Vd, (fval_repr _ Ft) in M. lia. }
  split; [|exact B].
  apply Finite_iff; [exact Np|].
  apply Finite_iff in Fhi; [|apply Finite_not_nan, Fhi].
  apply Finite_iff in Flo; [|apply Finite_not_nan, Flo]. lia.
Qed.

(** ** Latitude factor and intensity *)

Lemma finite_of_bounds x : is_nan x = false -> - INF < fval x < INF -> Finite x = true.
Proof. intros N B. apply Finite_iff; assumption. Qed.

Lemma div_val x y lo hi :
  Finite x = true -> Finite y = true -> 0 < fval y ->
  (fval x = 0 \/
   (2 ^ (lo + K) <= Z.abs (fval x) /\ fval y < 2 ^ (hi + K) /\ emin + prec <= lo + 1 - hi)) ->
  is_nan (x / y) = false /\ fval (x / y) = R (fval x * 2 ^ K) (fval y).
Proof.
  intros Fx Fy Hy Hx. rewrite is_nan_spec. unfold fval, Finite in *.
  rewrite div_spec.
  pose proof (Prim2SF_valid x) as Vx. pose proof (Prim2SF_valid y) as Vy.
  destruct (Prim2SF y) as [sy|sy| |sy my ey]; try discriminate; cbn [val] in Hy.
  cbn [SpecFloat.valid_binary] in Vy.
  destruct (bounded_range my ey Vy) as (Ky & Ry & Muy & _).
  destruct sy; cbn [sgn] in Hy; [lia|].
  destruct (Prim2SF x) as [sx|sx| |sx mx ex]; try discriminate.
  - split; reflexivity.
  - cbn [SpecFloat.valid_binary] in Vx.
    destruct (bounded_range mx ex Vx) as (Kx & Rx & Mux & _).
    destruct Hx as [Hx|(H1 & H2 & H3)].
    { cbn [val] in Hx. destruct sx; cbn [sgn] in Hx; lia. }
    pose proof (SFdiv_val sx mx ex my ey Vx Vy) as D. cbv zeta in D.
    assert (Hm : emin + prec <= Zdigits2 (Z.pos mx) + ex - (Zdigits2 (Z.pos my) + ey)).
    { rewrite !Zdigits2_log2 by lia.
      destruct (Z.log2_spec (Z.pos mx) ltac:(lia)) as [_ Ux].
      destruct (Z.log2_spec (Z.pos my) ltac:(lia)) as [Ly _].
      pose proof (Z.log2_nonneg (Z.pos mx)). pose proof (Z.log2_nonneg (Z.pos my)).
      cbn [val sgn] in H1, H2.
      assert (Ax : Z.abs (sgn sx (Z.pos mx * 2 ^ (ex + K))) = Z.pos mx * 2 ^ (ex + K))
        by (destruct sx; cbn [sgn]; lia).
      rewrite Ax in H1.
      assert (Pe : 0 < 2 ^ (ex + K)) by (apply Z.pow_pos_nonneg; lia).
      assert (Pf : 0 < 2 ^ (ey + K)) by (apply Z.pow_pos_nonneg; lia).
      assert (B1 : 2 ^ (lo + K) < 2 ^ (Z.succ (Z.log2 (Z.pos mx)) + (ex + K))).
      { rewrite (Z.pow_add_r 2 (Z.succ _)) by lia. nia. }
      assert (B2 : 2 ^ (Z.log2 (Z.pos my) + (ey + K)) < 2 ^ (hi + K)).
      { rewrite (Z.pow_add_r 2 (Z.log2 _)) by lia. nia. }
      apply Z.pow_lt_mono_r_iff in B1; [|lia|lia].
      apply Z.pow_lt_mono_r_iff in B2; [|lia|].
      - lia.
      - destruct (Z.le_gt_cases 0 (hi + K)) as [|Neg]; [assumption|].
        rewrite (Z.pow_neg_r 2 (hi + K)) in B2 by lia.
        assert (0 < 2 ^ (Z.log2 (Z.pos my) + (ey + K))) by (apply Z.pow_pos_nonneg; lia).
        lia. }
    specialize (D Hm). destruct D as (D1 & _ & D3). split; [exact D1|exact D3].
Qed.

Lemma ninety_SF : Prim2SF 90 = S754_finite false 6333186975989760 (-46).
Proof. reflexivity. Qed.

Lemma tiny_SF : Prim2SF 0x1p-47 = S754_finite false 4503599627370496 (-99).
Proof. reflexivity. Qed.

Lemma fval_ninety_bounds : 0 < fval 90 < 2 ^ (7 + K).
Proof.
  unfold fval. rewrite ninety_SF. cbn [val sgn].
  assert (P : 0 < 2 ^ (-46 + K)) by (apply Z.pow_pos_nonneg; [lia|unfold K; lia]).
  split; [lia|].
  replace (7 + K) with (53 + (-46 + K)) by lia.
  rewrite (Z.pow_add_r 2 53) by (unfold K; lia).
  change (2 ^ 53) with 9007199254740992. nia.
Qed.

Lemma fval_tiny : fval 0x1p-47 = 2 ^ (-47 + K).
Proof.
  unfold fval. rewrite tiny_SF. cbn [val sgn].
  change (Z.pos 4503599627370496) with (2 ^ 52).
  rewrite <- Z.pow_add_r by (unfold K; lia). f_equal.
Qed.

Lemma below_ninety a : Finite a = true -> fval a < fval 90 ->
  fval a <= fval 90 - 2 ^ (-47 + K).
Proof.
  intros F H.
  assert (V : bounded prec emax 6333186975989760 (-46) = true) by reflexivity.
  pose proof (val_gap (Prim2SF a) 6333186975989760 (-46) (Prim2SF_valid a) F V
                ltac:(discriminate)) as G.
  unfold fval in *. rewrite ninety_SF in *. cbn [val sgn] in *.
  specialize (G H). replace (-46 - 1 + K) with (-47 + K) in G by lia. exact G.
Qed.

(** The latitude factor [(90 - |p|) / 90] for a latitude with [|p| <= 90]. *)
Lemma latitudeFactor_bounds p :
  (abs p <=? 90)%float = true ->
  let f := ((90 - abs p) / 90)%float in
  Finite f = true /\ 0 <= fval f <= fval 1 /\
  ((abs p <? 90)%float = true -> 2 ^ (prec + emin + K) <= fval f).
Proof.
  intros Hle. cbv zeta.
  apply leb_true in Hle. destruct Hle as (Na & _ & La).
  destruct (abs_val p) as (_ & Va & _).
  pose proof fval_ninety_bounds as B90. pose proof PK_pos as PK.
  pose proof INF_pos as I. pose proof emin_val as Em.
  assert (EK : K = 2148) by reflexivity. assert (Ep : prec = 53) by reflexivity.
  assert (I7 : 2 ^ (7 + K) < INF) by (apply Z.pow_lt_mono_r; unfold emax; lia).
  assert (I0 : 2 ^ K < INF) by (apply Z.pow_lt_mono_r; unfold emax; lia).
  assert (F90 : Finite 90 = true) by reflexivity.
  assert (Fa : Finite (abs p) = true) by (apply finite_of_bounds; [exact Na|lia]).
  destruct (sub_val 90 (abs p) F90 Fa) as [Ns Vs].
  assert (Bs : 0 <= fval (90 - abs p) <= fval 90).
  { rewrite Vs. split.
    - rewrite <- (R_zero 1). apply R_mono; auto using adm_1. lia.
    - rewrite <- (fval_repr 90 F90) at 2. apply R_mono; auto using adm_1. lia. }
  assert (Fs : Finite (90 - abs p) = true) by (apply finite_of_bounds; [exact Ns|lia]).
  assert (Ft : Finite 0x1p-47 = true) by reflexivity.
  assert (Pt : 0 < 2 ^ (-47 + K)) by (apply Z.pow_pos_nonneg; lia).
  (* positive differences are at least 2^-47 *)
  assert (Low : fval (abs p) < fval 90 -> 2 ^ (-47 + K) <= fval (90 - abs p)).
  { intros Hlt. pose proof (below_ninety _ Fa Hlt) as G.
    rewrite Vs, <- fval_tiny, <- (fval_repr _ Ft).
    apply R_mono; auto using adm_1. rewrite fval_tiny. lia. }
  assert (Hx : fval (90 - abs p) = 0 \/
     (2 ^ (-47 + K) <= Z.abs (fval (90 - abs p)) /\ fval 90 < 2 ^ (7 + K) /\
      emin + prec <= -47 + 1 - 7)).
  { destruct (Z.eq_dec (fval (abs p)) (fval 90)) as [E|N].
    - left. rewrite Vs, E, Z.sub_diag. reflexivity.
    - right. specialize (Low ltac:(lia)). rewrite Z.abs_eq by lia. lia. }
  destruct (div_val (90 - abs p) 90 (-47) 7 Fs F90 ltac:(lia) Hx) as [Nf Vf].
  assert (Adm : admissible (fval (90 - abs p) * 2 ^ K) (fval 90)).
  { split; [lia|]. destruct Hx as [->|(H1 & _)]; [left; reflexivity|right].
    rewrite Z.abs_mul, (Z.abs_eq (2 ^ K)) by lia.
    assert (2 ^ (7 + K) = 2 ^ (-47 + K) * 2 ^ 54).
    { rewrite <- Z.pow_add_r by lia. f_equal; lia. }
    assert (2 ^ 54 <= 2 ^ K) by (apply Z.pow_le_mono_r; lia).
    nia. }
  assert (Bf : 0 <= fval ((90 - abs p) / 90) <= fval 1).
  { rewrite Vf. split.
    - rewrite <- (R_zero (fval 90)). apply R_mono; auto; [split; [lia|left; reflexivity]|nia].
    - rewrite fval_one. rewrite <- (R_int 1) at 2 by (simpl; lia).
      rewrite <- (R_scale (1 * 2 ^ K) 1 (fval 90)) by lia.
      apply R_mono; auto.
      + split; [lia|right]. rewrite Z.abs_eq by nia. nia.
      + nia. }
  split; [apply finite_of_bounds; [exact Nf|rewrite fval_one in Bf; lia]|].
  split; [exact Bf|].
  intros Hlt. apply ltb_true in Hlt. destruct Hlt as (_ & _ & Hlt).
  specialize (Low Hlt).
  (* compare with the quotient 2^-47 / 90, computed exactly *)
  destruct (div_val 0x1p-47 90 (-47) 7 Ft F90 ltac:(lia)) as [_ Vc].
  { right. rewrite fval_tiny, Z.abs_eq by lia. lia. }
  assert (Hc : 2 ^ (prec + emin + K) <= fval (0x1p-47 / 90)).
  { apply Z.leb_le. vm_compute. reflexivity. }
  eapply Z.le_trans; [exact Hc|].
  rewrite Vc, Vf. apply R_mono; auto.
  - split; [lia|right]. rewrite fval_tiny, Z.abs_eq by nia.
    assert (2 ^ (7 + K) = 2 ^ (-47 + K) * 2 ^ 54).
    { rewrite <- Z.pow_add_r by lia. f_equal; lia. }
    assert (2 ^ 54 <= 2 ^ K) by (apply Z.pow_le_mono_r; lia).
    nia.
  - rewrite fval_tiny. nia.
Qed.

(** Intensity [rnd * f] for a factor [0 <= f <= 1]. *)
Lemma intensity_bounds r f :
  unit_interval r = true -> Finite f = true -> 0 <= fval f <= fval 1 ->
  Finite (r * f) = true /\ 0 <= fval (r * f) /\ fval (r * f) < fval 1 /\
  fval (r * f) <= fval f /\
  (2 ^ (prec + emin + K) <= fval f -> fval (r * f) < fval f).
Proof.
  intros Hr Ff Bf.
  destruct (unit_mul_le r f Hr Ff ltac:(lia)) as [Fi [I0 I1]].
  destruct (unit_interval_spec r Hr) as (Fr & R0 & R1).
  pose proof PK_pos as PK.
  split; [exact Fi|]. split; [exact I0|]. split; [|split; [exact I1|]].
  - destruct (mul_val r f Fr Ff) as [_ V].
    eapply Z.le_lt_trans; [|exact R1].
    rewrite V. rewrite <- (fval_repr r Fr) at 2.
    rewrite <- (R_scale (fval r) 1 (2 ^ K)) by lia.
    apply R_mono.
    + apply adm_mul; auto using Prim2SF_valid.
    + split; [lia|]. destruct (Z.eq_dec (fval r) 0) as [->|]; [left; reflexivity|right].
      rewrite Z.abs_eq by nia. nia.
    + rewrite fval_one in Bf. nia.
  - intros Hbig. apply mul_lt; auto.
Qed.

(** ** [getRandomInt] on time values

    Differences of two time values need 54 bits and are rounded to even integers. *)

(** Halves, rounded to even. *)
Lemma rne2_even m : rne (2 * m) 2 = m.
Proof. replace (2 * m) with (m * 2) by ring. apply rne_exact. lia. Qed.

Lemma rne2_odd m : rne (2 * m + 1) 2 = if Z.even m then m else m + 1.
Proof.
  unfold rne.
  assert (E1 : (2 * m + 1) / 2 = m) by (Z.to_euclidean_division_equations; lia).
  assert (E2 : (2 * m + 1) mod 2 = 1) by (Z.to_euclidean_division_equations; lia).
  rewrite E1, E2. reflexivity.
Qed.

Lemma rne2_near x : x - 1 <= 2 * rne x 2 <= x + 1.
Proof.
  assert (E : x = 2 * (x / 2) \/ x = 2 * (x / 2) + 1)
    by (Z.to_euclidean_division_equations; lia).
  remember (x / 2) as k eqn:Ek. clear Ek.
  destruct E as [-> | ->].
  - rewrite rne2_even. lia.
  - rewrite rne2_odd. destruct (Z.even k); lia.
Qed.

(** Rounding, adding one and rounding again does not pass the rounding of
    the successor: a tie goes back to the even neighbour it came from. *)
Lemma rne2_step x : rne (2 * rne x 2 + 1) 2 <= rne (x + 1) 2.
Proof.
  assert (E : x = 2 * (x / 2) \/ x = 2 * (x / 2) + 1)
    by (Z.to_euclidean_division_equations; lia).
  remember (x / 2) as k eqn:Ek. clear Ek.
  destruct E as [-> | ->].
  - rewrite rne2_even. lia.
  - replace (2 * k + 1 + 1) with (2 * (k + 1)) by ring.
    rewrite rne2_even, (rne2_odd k).
    destruct (Z.even k) eqn:Ev.
    + rewrite rne2_odd, Ev. lia.
    + rewrite rne2_odd.
      replace (Z.even (k + 1)) with true; [lia|].
      change (k + 1) with (Z.succ k). rewrite Z.even_succ, <- Z.negb_even, Ev. reflexivity.
Qed.

(** Integers of 54 bits: the doubles among them are the even ones. *)
Lemma R_binade X : 2 ^ prec <= X < 2 ^ (prec + 1) ->
  R (X * 2 ^ K) 1 = 2 * rne X 2 * 2 ^ K.
Proof.
  intros HX. pose proof PK_pos as PK. pose proof emin_val as Em.
  assert (EK : K = 2148) by reflexivity. assert (Ep : prec = 53) by reflexivity.
  assert (P53 : 0 < 2 ^ prec) by (apply Z.pow_pos_nonneg; lia).
  assert (E54 : 2 ^ (prec + 1) = 2 * 2 ^ prec) by (rewrite Z.pow_add_r by lia; ring).
  assert (Hpos : 0 < X * 2 ^ K) by nia.
  change (X * 2 ^ K) with (sgn false (X * 2 ^ K)) at 1.
  rewrite R_sgn by lia. cbn [sgn]. unfold rnd_pos.
  assert (Hl : Z.log2 X = prec) by (apply Z.log2_unique; lia).
  assert (Hc : cexpZ (X * 2 ^ K) 1 = K + 1).
  { unfold cexpZ. rewrite Z.div_1_r, log2_mul_pow2 by lia. rewrite Hl. lia. }
  rewrite Hc, Z.mul_1_l, (Z.pow_add_r 2 K 1) by lia. change (2 ^ 1) with 2.
  replace (2 ^ K * 2) with (2 * 2 ^ K) by ring.
  rewrite rne_scale by lia.
  assert (B : rne X 2 <= 2 ^ prec).
  { pose proof (rne_mono X (2 * 2 ^ prec) 2 ltac:(lia) ltac:(lia)) as M.
    rewrite rne2_even in M. exact M. }
  assert (I : 2 * 2 ^ prec * 2 ^ K < INF).
  { unfold INF. rewrite <- E54, <- Z.pow_add_r by lia.
    apply Z.pow_lt_mono_r; unfold emax; lia. }
  rewrite Z.min_r by nia. ring.
Qed.

(** The double nearest to an integer below [2 ^ 54] is an integer. *)
Lemma R_wide X : 0 <= X < 2 ^ (prec + 1) ->
  exists Y, R (X * 2 ^ K) 1 = Y * 2 ^ K /\
    (X <= 2 ^ prec -> Y = X) /\ (2 ^ prec <= X -> Y = 2 * rne X 2) /\
    X - 1 <= Y <= X + 1 /\ 0 <= Y <= 2 ^ (prec + 1).
Proof.
  intros HX.
  assert (Ep : prec = 53) by reflexivity.
  assert (P53 : 0 < 2 ^ prec) by (apply Z.pow_pos_nonneg; lia).
  assert (E54 : 2 ^ (prec + 1) = 2 * 2 ^ prec) by (rewrite Z.pow_add_r by lia; ring).
  assert (T : rne (2 ^ prec) 2 * 2 = 2 ^ prec) by (rewrite Ep; reflexivity).
  destruct (Z.le_gt_cases X (2 ^ prec)) as [L|G].
  - exists X. split; [apply R_int; lia|]. split; [reflexivity|]. split; [|lia].
    intros H. assert (X = 2 ^ prec) by lia. subst X. lia.
  - exists (2 * rne X 2). split; [apply R_binade; lia|]. split; [lia|].
    split; [reflexivity|]. split; [apply rne2_near|].
    pose proof (rne_mono 0 X 2 ltac:(lia) ltac:(lia)) as M0.
    pose proof (rne_mono X (2 * 2 ^ prec) 2 ltac:(lia) ltac:(lia)) as M1.
    rewrite rne2_even in M1. change (rne 0 2) with 0 in M0. lia.
Qed.

Lemma wide_finite Y : Z.abs Y <= 2 ^ (prec + 1) -> - INF < Y * 2 ^ K < INF.
Proof.
  intros H. pose proof PK_pos as PK.
  assert (EK : K = 2148) by reflexivity. assert (Ep : prec = 53) by reflexivity.
  assert (I : 2 ^ (prec + 1) * 2 ^ K < INF).
  { unfold INF. rewrite <- Z.pow_add_r by lia.
    apply Z.pow_lt_mono_r; unfold emax; lia. }
  nia.
Qed.

(** [getRandomInt] between two integers of magnitude up to 8.64e15, the range
    of time values.  The width [max - min + 1] may exceed [2 ^ 53] and is then
    rounded, to an even integer; the result still lies between the bounds. *)
Lemma randomInt_value_wide r lo hi a b :
  unit_interval r = true -> IsInt (Math_ceil lo) a -> IsInt (Math_floor hi) b ->
  Z.abs a <= 8640000000000000 -> Z.abs b <= 8640000000000000 ->
  exists n, IsInt (randomInt_value r lo hi) n /\
    (a <= b -> a <= n <= b) /\ (b < a -> b <= n <= a).
Proof.
  intros Hr Hmin Hmax Ba Bb. unfold randomInt_value.
  remember (Math_ceil lo) as lo' eqn:Elo. remember (Math_floor hi) as hi' eqn:Ehi.
  clear Elo Ehi lo hi.
  assert (Ep : 2 ^ prec = 9007199254740992) by reflexivity.
  assert (Ep1 : 2 ^ (prec + 1) = 18014398509481984) by reflexivity.
  pose proof PK_pos as PK. pose proof emin_val as Em.
  assert (EK : K = 2148) by reflexivity. assert (Epv : prec = 53) by reflexivity.
  assert (Small : 2 ^ (prec + emin + K) <= 2 ^ K) by (apply Z.pow_le_mono_r; lia).
  destruct (unit_interval_spec r Hr) as (Fr & R0 & R1).
  destruct Hmin as [Flo Vlo]. destruct Hmax as [Fhi Vhi].
  destruct (sub_val hi' lo' Fhi Flo) as [N1 V1].
  rewrite Vhi, Vlo, <- Z.mul_sub_distr_r in V1.
  assert (Adm0 : forall d, 0 < d -> admissible 0 d) by (intros d Hd; split; [lia|left; reflexivity]).
  destruct (Z.le_gt_cases a b) as [Hab|Hab].
  - (* ordered bounds *)
    destruct (R_wide (b - a) ltac:(lia)) as (y1 & E1 & S1 & G1 & N1' & Y1).
    rewrite E1 in V1.
    assert (F1 : Finite (hi' - lo') = true).
    { apply Finite_iff; [exact N1|]. rewrite V1. apply wide_finite. lia. }
    destruct (add_val (hi' - lo') 1 F1 ltac:(reflexivity)) as [N2 V2].
    rewrite V1, fval_one in V2.
    replace (y1 * 2 ^ K + 2 ^ K) with ((y1 + 1) * 2 ^ K) in V2 by ring.
    destruct (R_wide (y1 + 1) ltac:(lia)) as (y2 & E2 & S2 & G2 & N2' & Y2).
    rewrite E2 in V2.
    assert (F2 : Finite (hi' - lo' + 1) = true).
    { apply Finite_iff; [exact N2|]. rewrite V2. apply wide_finite. lia. }
    destruct (R_wide (b - a + 1) ltac:(lia)) as (u & Eu & Su & Gu & Nu & Yu).
    assert (Hu : y2 <= u).
    { destruct (Z.le_gt_cases (b - a + 1) (2 ^ prec)) as [L|G].
      - rewrite (S1 ltac:(lia)) in *. rewrite (S2 ltac:(lia)), (Su L). lia.
      - rewrite (G1 ltac:(lia)) in *. rewrite (G2 ltac:(lia)), (Gu ltac:(lia)).
        pose proof (rne2_step (b - a)). lia. }
    destruct (mul_val r (hi' - lo' + 1) Fr F2) as [Nt Vt].
    assert (Adm : admissible (fval r * fval (hi' - lo' + 1)) (2 ^ K))
      by (apply adm_mul; auto using Prim2SF_valid).
    remember (r * (hi' - lo' + 1))%float as t eqn:Et.
    assert (T0 : 0 <= fval t).
    { rewrite Vt. rewrite <- (R_zero (2 ^ K)). apply R_mono; auto. rewrite V2. nia. }
    assert (T1 : fval t < y2 * 2 ^ K).
    { rewrite <- V2, Et. apply mul_lt; auto. rewrite V2. nia. }
    assert (Ft : Finite t = true).
    { apply Finite_iff; [exact Nt|]. pose proof (wide_finite y2 ltac:(lia)). lia. }
    assert (T2 : fval t < (b - a + 1) * 2 ^ K).
    { destruct (Z.lt_ge_cases (fval t) ((b - a + 1) * 2 ^ K)) as [|G]; [assumption|].
      exfalso.
      pose proof (R_mono ((b - a + 1) * 2 ^ K) 1 (fval t) 1 (adm_1 _) (adm_1 _) ltac:(lia)) as M.
      rewrite Eu, (fval_repr t Ft) in M. nia. }
    destruct (floor_val t Ft) as [Fq Vq].
    remember (fval t / 2 ^ K) as qz eqn:Eq.
    assert (Bq : 0 <= qz <= b - a).
    { split.
      - subst qz. apply Z.div_pos; lia.
      - assert (qz < b - a + 1) by (subst qz; apply Z.div_lt_upper_bound; lia). lia. }
    exists (qz + a). split.
    + apply int_add; [split; assumption|split; assumption|lia].
    + split; intros; lia.
  - (* bounds in the other order *)
    replace ((b - a) * 2 ^ K) with (- ((a - b) * 2 ^ K)) in V1 by ring.
    rewrite R_opp in V1.
    destruct (R_wide (a - b) ltac:(lia)) as (y1 & E1 & S1 & G1 & N1' & Y1).
    rewrite E1 in V1.
    assert (F1 : Finite (hi' - lo') = true).
    { apply Finite_iff; [exact N1|]. rewrite V1.
      pose proof (wide_finite y1 ltac:(lia)). lia. }
    destruct (add_val (hi' - lo') 1 F1 ltac:(reflexivity)) as [N2 V2].
    rewrite V1, fval_one in V2.
    replace (- (y1 * 2 ^ K) + 2 ^ K) with (- ((y1 - 1) * 2 ^ K)) in V2 by ring.
    rewrite R_opp in V2.
    assert (P1 : 1 <= y1) by lia.
    destruct (R_wide (y1 - 1) ltac:(lia)) as (y2 & E2 & S2 & G2 & N2' & Y2).
    rewrite E2 in V2.
    assert (F2 : Finite (hi' - lo' + 1) = true).
    { apply Finite_iff; [exact N2|]. rewrite V2.
      pose proof (wide_finite y2 ltac:(lia)). lia. }
    assert (Hy : y2 <= y1).
    { pose proof (R_mono ((y1 - 1) * 2 ^ K) 1 (y1 * 2 ^ K) 1 (adm_1 _) (adm_1 _) ltac:(lia)) as M.
      rewrite E2 in M.
      pose proof (fval_repr (hi' - lo') F1) as Rp. rewrite V1, R_opp in Rp.
      assert (R (y1 * 2 ^ K) 1 = y1 * 2 ^ K) by lia.
      nia. }
    destruct (mul_val r (hi' - lo' + 1) Fr F2) as [Nt Vt].
    assert (Adm : admissible (fval r * fval (hi' - lo' + 1)) (2 ^ K))
      by (apply adm_mul; auto using Prim2SF_valid).
    remember (r * (hi' - lo' + 1))%float as t eqn:Et.
    assert (T0 : fval t <= 0).
    { rewrite Vt. rewrite <- (R_zero (2 ^ K)). apply R_mono; auto. rewrite V2. nia. }
    assert (T1 : - (y2 * 2 ^ K) <= fval t /\ (0 < y2 -> - (y2 * 2 ^ K) < fval t)).
    { destruct (Z.eq_dec y2 0) as [Z0|NZ].
      - split; [|lia]. rewrite Vt, V2, Z0. rewrite Z.mul_0_l, Z.mul_0_r. reflexivity.
      - destruct (opp_val (hi' - lo' + 1)) as (_ & Vo & Fo).
        rewrite F2 in Fo. rewrite V2 in Vo. rewrite Z.opp_involutive in Vo.
        destruct (mul_val r (- (hi' - lo' + 1)) Fr Fo) as [_ V'].
        assert (Hlt : fval (r * - (hi' - lo' + 1)) < fval (- (hi' - lo' + 1))%float).
        { apply mul_lt; auto. rewrite Vo. nia. }
        rewrite V', Vo in Hlt.
        replace (fval r * (y2 * 2 ^ K)) with (- (fval r * fval (hi' - lo' + 1))) in Hlt
          by (rewrite V2; ring).
        rewrite R_opp, <- Vt in Hlt. lia. }
    assert (Ft : Finite t = true).
    { apply Finite_iff; [exact Nt|]. pose proof (wide_finite y2 ltac:(lia)). lia. }
    assert (T2 : - ((a - b) * 2 ^ K) <= fval t).
    { destruct (Z.le_gt_cases (- ((a - b) * 2 ^ K)) (fval t)) as [|G]; [assumption|].
      exfalso.
      pose proof (R_mono (fval t) 1 (- ((a - b) * 2 ^ K)) 1 (adm_1 _) (adm_1 _) ltac:(lia)) as M.
      rewrite R_opp, E1, (fval_repr t Ft) in M.
      destruct T1 as [T1 T1'].
      destruct (Z.eq_dec y2 0) as [Z0|NZ]; [nia|].
      specialize (T1' ltac:(lia)). nia. }
    destruct (floor_val t Ft) as [Fq Vq].
    remember (fval t / 2 ^ K) as qz eqn:Eq.
    assert (Bq : b - a <= qz <= 0).
    { split.
      - subst qz. apply Z.div_le_lower_bound; lia.
      - assert (qz < 1) by (subst qz; apply Z.div_lt_upper_bound; lia). lia. }
    exists (qz + a). split.
    + apply int_add; [split; assumption|split; assumption|lia].
    + split; intros; lia.
Qed.

(** ** Calendar arithmetic

    Years, months and days of a time value, and their order. *)

Lemma DaysInYear_cases y : DaysInYear y = 365 \/ DaysInYear y = 366.
Proof.
  unfold DaysInYear.
  destruct (y mod 4 =? 0), (y mod 100 =? 0), (y mod 400 =? 0); cbn; auto.
Qed.

Lemma DayFromYear_succ y : DayFromYear (y + 1) = DayFromYear y + DaysInYear y.
Proof.
  unfold DayFromYear, DaysInYear.
  destruct (Z.eqb_spec (y mod 4) 0), (Z.eqb_spec (y mod 100) 0), (Z.eqb_spec (y mod 400) 0);
    cbn [negb]; Z.to_euclidean_division_equations; lia.
Qed.

Lemma DayFromYear_mono y1 y2 : y1 <= y2 -> DayFromYear y1 <= DayFromYear y2.
Proof. unfold DayFromYear. Z.to_euclidean_division_equations; lia. Qed.

Lemma DayFromYear_lt y1 y2 : y1 < y2 -> DayFromYear y1 < DayFromYear y2.
Proof. unfold DayFromYear. Z.to_euclidean_division_equations; lia. Qed.

Lemma YearFromDay_spec d :
  DayFromYear (YearFromDay d) <= d < DayFromYear (YearFromDay d + 1).
Proof.
  unfold YearFromDay.
  set (y := 1970 + d * 400 / 146097).
  assert (H : DayFromYear (y - 1) <= d < DayFromYear (y + 2)).
  { unfold y, DayFromYear. Z.to_euclidean_division_equations; lia. }
  destruct (Z.ltb_spec d (DayFromYear y)).
  - replace (y - 1 + 1) with y by lia. lia.
  - destruct (Z.leb_spec (DayFromYear (y + 1)) d).
    + replace (y + 1 + 1) with (y + 2) by lia. lia.
    + lia.
Qed.

Lemma YearFromDay_unique d y :
  DayFromYear y <= d < DayFromYear (y + 1) -> YearFromDay d = y.
Proof.
  intros H. pose proof (YearFromDay_spec d) as S.
  destruct (Z.lt_trichotomy (YearFromDay d) y) as [L|[E|G]]; [|exact E|].
  - pose proof (DayFromYear_mono (YearFromDay d + 1) y ltac:(lia)). lia.
  - pose proof (DayFromYear_mono (y + 1) (YearFromDay d) ltac:(lia)). lia.
Qed.

Lemma YearFromDay_mono d1 d2 : d1 <= d2 -> YearFromDay d1 <= YearFromDay d2.
Proof.
  intros H. pose proof (YearFromDay_spec d1). pose proof (YearFromDay_spec d2).
  destruct (Z.le_gt_cases (YearFromDay d1) (YearFromDay d2)) as [|G]; [assumption|].
  pose proof (DayFromYear_mono (YearFromDay d2 + 1) (YearFromDay d1) ltac:(lia)). lia.
Qed.

Lemma DayWithinYear_range t : 0 <= DayWithinYear t < DaysInYear (YearFromTime t).
Proof.
  unfold DayWithinYear, YearFromTime.
  pose proof (YearFromDay_spec (Day t)) as S.
  rewrite DayFromYear_succ in S. lia.
Qed.

Lemma InLeapYear_cases t :
  (InLeapYear t = 0 /\ DaysInYear (YearFromTime t) = 365) \/
  (InLeapYear t = 1 /\ DaysInYear (YearFromTime t) = 366).
Proof.
  unfold InLeapYear. destruct (DaysInYear_cases (YearFromTime t)) as [E|E]; rewrite E; cbn; auto.
Qed.

Ltac month_cases :=
  repeat match goal with
         | |- context [?a <? ?b] => destruct (Z.ltb_spec a b)
         end.

Lemma month_split m : 0 <= m <= 11 ->
  m = 0 \/ m = 1 \/ m = 2 \/ m = 3 \/ m = 4 \/ m = 5 \/ m = 6 \/ m = 7 \/ m = 8 \/
  m = 9 \/ m = 10 \/ m = 11.
Proof. lia. Qed.

Ltac split_month H :=
  destruct (month_split _ H) as [->|[->|[->|[->|[->|[->|[->|[->|[->|[->|[->| ->]]]]]]]]]]].

Lemma month_spec t :
  0 <= MonthFromTime t <= 11 /\
  DaysBeforeMonth (MonthFromTime t) (InLeapYear t) <= DayWithinYear t
    < month_end (MonthFromTime t) (InLeapYear t) /\
  DateFromTime t = DayWithinYear t - DaysBeforeMonth (MonthFromTime t) (InLeapYear t) + 1.
Proof.
  pose proof (DayWithinYear_range t) as R.
  unfold DateFromTime, MonthFromTime.
  destruct (InLeapYear_cases t) as [[-> E]|[-> E]]; rewrite E in R;
    set (d := DayWithinYear t) in *; clearbody d; month_cases; cbn; lia.
Qed.

Lemma month_length m l : 0 <= m <= 11 -> 0 <= l <= 1 ->
  DaysBeforeMonth m l < month_end m l /\ month_end m l <= DaysBeforeMonth m l + 31.
Proof.
  intros H L. assert (E : l = 0 \/ l = 1) by lia.
  destruct E as [-> | ->]; split_month H; cbn; lia.
Qed.

Lemma month_order m1 m2 l : 0 <= m1 -> m1 < m2 -> m2 <= 11 -> 0 <= l <= 1 ->
  month_end m1 l <= DaysBeforeMonth m2 l.
Proof.
  intros H1 H12 H2 L.
  assert (Ha : 0 <= m1 <= 11) by lia. assert (Hb : 0 <= m2 <= 11) by lia.
  assert (E : l = 0 \/ l = 1) by lia.
  destruct E as [-> | ->]; split_month Ha; split_month Hb; cbn; lia.
Qed.

Lemma InLeapYear_range t : 0 <= InLeapYear t <= 1.
Proof. destruct (InLeapYear_cases t) as [[-> _]|[-> _]]; lia. Qed.

Lemma ymd_range t :
  0 <= MonthFromTime t <= 11 /\ 1 <= DateFromTime t <= 31.
Proof.
  destruct (month_spec t) as (M & W & D).
  pose proof (month_length _ _ M (InLeapYear_range t)). lia.
Qed.

Lemma date_code_mono t1 t2 : Day t1 <= Day t2 -> date_code t1 <= date_code t2.
Proof.
  intros H. unfold date_code.
  pose proof (ymd_range t1) as R1. pose proof (ymd_range t2) as R2.
  pose proof (YearFromDay_mono _ _ H) as Y. fold (YearFromTime t1) (YearFromTime t2) in Y.
  destruct (Z.eq_dec (YearFromTime t1) (YearFromTime t2)) as [E|N]; [|lia].
  assert (D : DayWithinYear t1 <= DayWithinYear t2) by (unfold DayWithinYear; rewrite E; lia).
  assert (L : InLeapYear t1 = InLeapYear t2) by (unfold InLeapYear; rewrite E; reflexivity).
  destruct (month_spec t1) as (M1 & W1 & D1). destruct (month_spec t2) as (M2 & W2 & D2).
  rewrite L in *. pose proof (InLeapYear_range t2) as Lr.
  destruct (Z.lt_trichotomy (MonthFromTime t1) (MonthFromTime t2)) as [Lt|[Eq|Gt]].
  - lia.
  - rewrite Eq in *. lia.
  - pose proof (month_order (MonthFromTime t2) (MonthFromTime t1) (InLeapYear t2)
                  ltac:(lia) Gt ltac:(lia) Lr). lia.
Qed.

Lemma leap_cases y :
  (leap y = 0 /\ DaysInYear y = 365) \/ (leap y = 1 /\ DaysInYear y = 366).
Proof.
  unfold leap. destruct (DaysInYear_cases y) as [E|E]; rewrite E; cbn; auto.
Qed.

Lemma valid_ymd_inv y m d : valid_ymd y m d = true ->
  1 <= m <= 12 /\ 1 <= d <= DaysInMonth y (m - 1).
Proof.
  unfold valid_ymd. intros H.
  repeat (apply andb_prop in H; destruct H as [H ?]).
  repeat match goal with H : (_ <=? _) = true |- _ => apply Z.leb_le in H end. lia.
Qed.

Lemma month_end_days y m : 0 <= m <= 11 ->
  month_end m (leap y) = DaysBeforeMonth m (leap y) + DaysInMonth y m /\
  month_end m (leap y) <= DaysInYear y.
Proof.
  intros H. unfold DaysInMonth.
  destruct (leap_cases y) as [[-> E]|[-> E]]; rewrite E; split_month H; cbn; lia.
Qed.

Lemma MakeDay_roundtrip y m d : valid_ymd y m d = true ->
  let t := MakeDate (MakeDay y (m - 1) d) 0 in
  Day t = MakeDay y (m - 1) d /\
  YearFromTime t = y /\ MonthFromTime t = m - 1 /\ DateFromTime t = d.
Proof.
  intros V. destruct (valid_ymd_inv y m d V) as [Hm Hd]. cbv zeta.
  set (t := MakeDate (MakeDay y (m - 1) d) 0).
  assert (ED : Day t = MakeDay y (m - 1) d).
  { unfold t, Day, MakeDate. rewrite Z.add_0_r, Z.div_mul by discriminate. reflexivity. }
  destruct (month_end_days y (m - 1) ltac:(lia)) as [Me Mb].
  assert (Lr : 0 <= leap y <= 1) by (destruct (leap_cases y) as [[-> _]|[-> _]]; lia).
  pose proof (month_length (m - 1) (leap y) ltac:(lia) Lr) as Ml.
  assert (B0 : 0 <= DaysBeforeMonth (m - 1) (leap y)).
  { assert (Hm' : 0 <= m - 1 <= 11) by lia. revert Lr. generalize (leap y). intros l Lr.
    assert (E : l = 0 \/ l = 1) by lia.
    destruct E as [-> | ->]; split_month Hm'; cbn; lia. }
  assert (EY : YearFromTime t = y).
  { unfold YearFromTime. rewrite ED. apply YearFromDay_unique.
    rewrite DayFromYear_succ. unfold MakeDay. lia. }
  split; [exact ED|]. split; [exact EY|].
  assert (EW : DayWithinYear t = DaysBeforeMonth (m - 1) (leap y) + d - 1).
  { unfold DayWithinYear. rewrite ED, EY. unfold MakeDay. lia. }
  assert (EL : InLeapYear t = leap y).
  { unfold InLeapYear, leap. rewrite EY. reflexivity. }
  destruct (month_spec t) as (M & W & D). rewrite EW, EL in *.
  assert (EM : MonthFromTime t = m - 1).
  { destruct (Z.lt_trichotomy (MonthFromTime t) (m - 1)) as [Lt|[Eq|Gt]]; [|exact Eq|].
    - pose proof (month_order (MonthFromTime t) (m - 1) (leap y) ltac:(lia) Lt ltac:(lia) Lr).
      lia.
    - pose proof (month_order (m - 1) (MonthFromTime t) (leap y) ltac:(lia) Gt ltac:(lia) Lr).
      lia. }
  split; [exact EM|]. rewrite D, EM. lia.
Qed.

(** ** Date strings

    Parsing and printing YYYY-MM-DD, and the order of the strings. *)

Lemma digit_of_inv c k : digit_of c = Some k -> 0 <= k <= 9 /\ digit k = c.
Proof.
  unfold digit_of, digit. intros H.
  destruct (Z.leb_spec 48 (Z.of_N (N_of_ascii c))) as [L|]; [|discriminate].
  destruct (Z.leb_spec (Z.of_N (N_of_ascii c)) 57) as [U|]; [|discriminate].
  cbn [andb] in H. injection H as <-. split; [lia|].
  rewrite Z.mod_small by lia.
  replace (48 + (Z.of_N (N_of_ascii c) - 48)) with (Z.of_N (N_of_ascii c)) by lia.
  rewrite N2Z.id. apply ascii_N_embedding.
Qed.

Lemma N_of_digit n : N_of_ascii (digit n) = Z.to_N (48 + n mod 10).
Proof.
  unfold digit. apply N_ascii_embedding.
  pose proof (Z.mod_pos_bound n 10 ltac:(lia)). lia.
Qed.

Lemma compare_digit a b :
  Ascii.compare (digit a) (digit b) = (a mod 10 ?= b mod 10).
Proof.
  unfold Ascii.compare. rewrite !N_of_digit.
  pose proof (Z.mod_pos_bound a 10 ltac:(lia)). pose proof (Z.mod_pos_bound b 10 ltac:(lia)).
  destruct (Z.compare_spec (a mod 10) (b mod 10)) as [E|E|E].
  - rewrite E. apply N.compare_refl.
  - apply N.compare_lt_iff. lia.
  - apply N.compare_gt_iff. lia.
Qed.

Lemma digit_not_T n : Ascii.eqb (digit n) "T" = false.
Proof.
  destruct (Ascii.eqb_spec (digit n) "T") as [E|]; [|reflexivity].
  apply (f_equal N_of_ascii) in E. rewrite N_of_digit in E.
  pose proof (Z.mod_pos_bound n 10 ltac:(lia)).
  change (N_of_ascii "T") with 84%N in E. lia.
Qed.

Lemma parse_date_only_inv s y m d : parse_date_only s = Some (y, m, d) ->
  s = fmt_date y m d /\ 0 <= y <= 9999 /\ 0 <= m <= 99 /\ 0 <= d <= 99.
Proof.
  unfold parse_date_only. intros H.
  do 10 (destruct s as [|? s]; [discriminate|]).
  destruct s; [|discriminate].
  destruct (Ascii.eqb_spec a3 "-") as [->|]; [|discriminate].
  destruct (Ascii.eqb_spec a6 "-") as [->|]; [|discriminate].
  cbn [andb] in H.
  destruct (digit_of a) as [k0|] eqn:E0; [|discriminate].
  destruct (digit_of a0) as [k1|] eqn:E1; [|discriminate].
  destruct (digit_of a1) as [k2|] eqn:E2; [|discriminate].
  destruct (digit_of a2) as [k3|] eqn:E3; [|discriminate].
  destruct (digit_of a4) as [k4|] eqn:E4; [|discriminate].
  destruct (digit_of a5) as [k5|] eqn:E5; [|discriminate].
  destruct (digit_of a7) as [k6|] eqn:E6; [|discriminate].
  destruct (digit_of a8) as [k7|] eqn:E7; [|discriminate].
  assert (Hp := f_equal (fun o => match o with Some p => p | None => (0, 0, 0) end) H).
  cbv beta iota in Hp. clear H.
  apply pair_equal_spec in Hp. destruct Hp as [Hp Hd].
  apply pair_equal_spec in Hp. destruct Hp as [Hy Hm]. subst y m d.
  apply digit_of_inv in E0, E1, E2, E3, E4, E5, E6, E7.
  destruct E0 as [R0 <-], E1 as [R1 <-], E2 as [R2 <-], E3 as [R3 <-],
           E4 as [R4 <-], E5 as [R5 <-], E6 as [R6 <-], E7 as [R7 <-].
  split; [|lia].
  unfold fmt_date, pad4, pad3, pad2. cbn [append].
  assert (Dg : forall a b, a mod 10 = b mod 10 -> digit a = digit b)
    by (intros ? ? E; unfold digit; rewrite E; reflexivity).
  repeat (first [ reflexivity
                | apply (f_equal2 String);
                  [first [reflexivity | apply Dg; Z.to_euclidean_division_equations; lia]|] ]).
Qed.

Lemma compare_dash : Ascii.compare "-" "-" = Eq.
Proof. reflexivity. Qed.

Lemma compare_fmt_date y1 m1 d1 y2 m2 d2 :
  0 <= y1 <= 9999 -> 0 <= m1 <= 99 -> 0 <= d1 <= 99 ->
  0 <= y2 <= 9999 -> 0 <= m2 <= 99 -> 0 <= d2 <= 99 ->
  String.compare (fmt_date y1 m1 d1) (fmt_date y2 m2 d2) =
    (10000 * y1 + 100 * m1 + d1 ?= 10000 * y2 + 100 * m2 + d2).
Proof.
  intros Y1 M1 D1 Y2 M2 D2.
  unfold fmt_date, pad4, pad3, pad2. cbn [append String.compare].
  rewrite !compare_digit, !compare_dash.
  symmetry.
  repeat match goal with
         | |- context [?a mod 10 ?= ?b mod 10] =>
             destruct (Z.compare_spec (a mod 10) (b mod 10));
             [| apply Z.compare_lt_iff; Z.to_euclidean_division_equations; lia
              | apply Z.compare_gt_iff; Z.to_euclidean_division_equations; lia]
         end.
  cbn [String.compare]. apply Z.compare_eq_iff.
  Z.to_euclidean_division_equations; lia.
Qed.

Lemma leb_fmt_date y1 m1 d1 y2 m2 d2 :
  0 <= y1 <= 9999 -> 0 <= m1 <= 99 -> 0 <= d1 <= 99 ->
  0 <= y2 <= 9999 -> 0 <= m2 <= 99 -> 0 <= d2 <= 99 ->
  String.leb (fmt_date y1 m1 d1) (fmt_date y2 m2 d2) =
    (10000 * y1 + 100 * m1 + d1 <=? 10000 * y2 + 100 * m2 + d2).
Proof.
  intros. unfold String.leb, Z.leb. rewrite compare_fmt_date by assumption.
  destruct (_ ?= _); reflexivity.
Qed.

Lemma iso_date_fmt t : 0 <= YearFromTime t <= 9999 ->
  iso_date t = fmt_date (YearFromTime t) (MonthFromTime t + 1) (DateFromTime t).
Proof.
  intros H. unfold iso_date, year_string, fmt_date.
  destruct (Z.leb_spec 0 (YearFromTime t)); [|lia].
  destruct (Z.leb_spec (YearFromTime t) 9999); [|lia].
  reflexivity.
Qed.

Lemma no_char_app sep s1 s2 :
  no_char sep (s1 ++ s2) = no_char sep s1 && no_char sep s2.
Proof.
  induction s1 as [|c s1 IH]; cbn [append no_char]; [reflexivity|].
  rewrite IH, andb_assoc. reflexivity.
Qed.

Lemma append_assoc (s1 s2 s3 : string) : ((s1 ++ s2) ++ s3 = s1 ++ (s2 ++ s3))%string.
Proof. induction s1 as [|c s1 IH]; cbn [append]; [reflexivity|]. rewrite IH. reflexivity. Qed.

Lemma split_aux_first sep s1 s2 cur : no_char sep s1 = true ->
  split_aux sep (s1 ++ String sep s2) cur = (cur ++ s1)%string :: split_aux sep s2 EmptyString.
Proof.
  revert cur. induction s1 as [|c s1 IH]; intros cur H; cbn [append split_aux].
  - rewrite Ascii.eqb_refl. f_equal.
    induction cur as [|c cur IHc]; cbn [append]; [reflexivity|]. rewrite <- IHc. reflexivity.
  - cbn [no_char] in H. apply andb_prop in H. destruct H as [H1 H2].
    destruct (Ascii.eqb c sep); [discriminate|].
    rewrite IH by assumption. rewrite append_assoc. reflexivity.
Qed.

Lemma no_T_pad2 n : no_char "T" (pad2 n) = true.
Proof. unfold pad2. cbn [no_char]. rewrite !digit_not_T. reflexivity. Qed.

Lemma no_T_pad4 n : no_char "T" (pad4 n) = true.
Proof. unfold pad4, pad3, pad2. cbn [no_char]. rewrite !digit_not_T. reflexivity. Qed.

Lemma no_T_iso_date t : no_char "T" (iso_date t) = true.
Proof.
  unfold iso_date. rewrite !no_char_app, !no_T_pad2.
  assert (Hy : no_char "T" (year_string (YearFromTime t)) = true).
  { unfold year_string. destruct (_ && _); [apply no_T_pad4|].
    destruct (_ <? _); unfold pad6; cbn [no_char]; rewrite !digit_not_T, no_T_pad4;
      reflexivity. }
  rewrite Hy. reflexivity.
Qed.

Lemma date_part_of_iso t :
  hd EmptyString (split "T" (iso_date t ++ "T" ++ iso_time t)) = iso_date t.
Proof.
  unfold split. cbn [append]. rewrite split_aux_first by apply no_T_iso_date.
  reflexivity.
Qed.

(** ** One iteration, and the loop *)

Section Run.

Variable entropy : nat -> number.

Variables minLat maxLat minLon maxLon : number.

Variables startDate endDate : Date.

Lemma make_feature_run w :
  make_feature entropy minLat maxLat minLon maxLon startDate endDate w =
  match toISOString (Date_of_number (timestamp_at entropy startDate endDate (draws w))) with
  | inl iso =>
      (Returned (feature_at entropy minLat maxLat minLon maxLon (draws w) iso), tick 6 w)
  | inr e => (Thrown e, tick 6 w)
  end.
Proof.
  cbv beta iota delta [make_feature getRandomFloat getRandomInt Math_random bind ret lift
                       throw draws console].
  destruct w as [n c]. cbv beta iota.
  unfold timestamp_at, randomInt_value. cbn [Nat.add].
  destruct (toISOString _); reflexivity.
Qed.

End Run.

Section Loop.

Variable body : M Feature.

Lemma for_loop_iterate np n : IsInt np n -> n <= 2 ^ 52 ->
  forall m fuel i k features w,
    IsInt i k -> 0 <= k -> Z.of_nat m = n - k -> (m <= fuel)%nat ->
    for_loop fuel i np body features w = iterate body m features w.
Proof.
  intros [Fn Vn] Hn. pose proof PK_pos as PK.
  assert (E52 : 2 ^ 52 = 4503599627370496) by reflexivity.
  assert (E53 : 2 ^ prec = 9007199254740992) by reflexivity.
  induction m as [|m IH]; intros fuel i k features w [Fi Vi] Hk Hm Hf.
  - assert (L : (i <? np)%float = false).
    { rewrite ltb_val by (apply Finite_not_nan; assumption).
      apply Z.ltb_ge. rewrite Vi, Vn. nia. }
    destruct fuel; cbn [for_loop iterate]; rewrite L; reflexivity.
  - assert (L : (i <? np)%float = true).
    { rewrite ltb_val by (apply Finite_not_nan; assumption).
      apply Z.ltb_lt. rewrite Vi, Vn. nia. }
    destruct fuel as [|fuel]; [lia|].
    cbn [for_loop iterate]. rewrite L. unfold bind.
    destruct (body w) as [[f|e|] w1]; try reflexivity.
    apply (IH fuel (i + 1)%float (k + 1)); try lia.
    apply int_add; [split; assumption|exact int_one|lia].
Qed.

Lemma iterate_forall (P : Feature -> Prop) :
  (forall w f w', body w = (Returned f, w') -> P f) ->
  forall m features w l w',
    iterate body m features w = (Returned l, w') -> Forall P features -> Forall P l.
Proof.
  intros HP. induction m as [|m IH]; intros features w l w' H HF; cbn [iterate] in H.
  - unfold ret in H. injection H as <- _. exact HF.
  - unfold bind in H. destruct (body w) as [[f|e|] w1] eqn:B; try discriminate.
    apply (IH _ _ _ _ H). apply Forall_app. split; [exact HF|].
    constructor; [eapply HP; exact B|constructor].
Qed.

Lemma for_loop_forall (P : Feature -> Prop) :
  (forall w f w', body w = (Returned f, w') -> P f) ->
  forall fuel i np features w l w',
    for_loop fuel i np body features w = (Returned l, w') ->
    Forall P features -> Forall P l.
Proof.
  intros HP. induction fuel as [|fuel IH]; intros i np features w l w' H HF;
    cbn [for_loop] in H; destruct (i <? np)%float.
  - discriminate.
  - unfold ret in H. injection H as <- _. exact HF.
  - unfold bind in H. destruct (body w) as [[f|e|] w1] eqn:B; try discriminate.
    apply (IH _ _ _ _ _ _ H). apply Forall_app. split; [exact HF|].
    constructor; [eapply HP; exact B|constructor].
  - unfold ret in H. injection H as <- _. exact HF.
Qed.

(** A body that draws [d] numbers and never runs out of fuel. *)
Hypothesis body_draws : forall w, exists o, body w = (o, tick 6 w) /\ o <> OutOfFuel.

Lemma iterate_total m : forall features w,
  (exists l, iterate body m features w = (Returned l, tick (6 * m) w) /\
             List.length l = (List.length features + m)%nat) \/
  (exists e j, (j <= m)%nat /\ iterate body m features w = (Thrown e, tick (6 * j) w)).
Proof.
  induction m as [|m IH]; intros features w; cbn [iterate].
  - left. exists features. split; [destruct w; reflexivity|lia].
  - unfold bind. destruct (body_draws w) as (o & B & NO). rewrite B.
    destruct o as [f|e|]; [| |congruence].
    + destruct (IH (features ++ [f]) (tick 6 w)) as [(l & E & L)|(e & j & J & E)].
      * left. exists l. rewrite E. split.
        -- f_equal. unfold tick. cbn [draws console]. f_equal. lia.
        -- rewrite L, length_app. cbn [List.length]. lia.
      * right. exists e, (S j). split; [lia|]. rewrite E. f_equal.
        unfold tick. cbn [draws console]. f_equal. lia.
    + right. exists e, 1%nat. split; [lia|]. reflexivity.
Qed.

End Loop.

Section LoopMore.

Variable body : M Feature.

Lemma for_loop_returned np n : IsInt np n -> n <= 2 ^ 52 ->
  forall m fuel i k features w l w',
    IsInt i k -> 0 <= k -> Z.of_nat m = n - k ->
    for_loop fuel i np body features w = (Returned l, w') ->
    iterate body m features w = (Returned l, w').
Proof.
  intros [Fn Vn] Hn. pose proof PK_pos as PK.
  assert (E52 : 2 ^ 52 = 4503599627370496) by reflexivity.
  assert (E53 : 2 ^ prec = 9007199254740992) by reflexivity.
  induction m as [|m IH]; intros fuel i k features w l w' [Fi Vi] Hk Hm H.
  - assert (L : (i <? np)%float = false).
    { rewrite ltb_val by (apply Finite_not_nan; assumption).
      apply Z.ltb_ge. rewrite Vi, Vn. nia. }
    destruct fuel; cbn [for_loop iterate] in *; rewrite L in H; exact H.
  - assert (L : (i <? np)%float = true).
    { rewrite ltb_val by (apply Finite_not_nan; assumption).
      apply Z.ltb_lt. rewrite Vi, Vn. nia. }
    destruct fuel as [|fuel]; cbn [for_loop iterate] in *; rewrite L in H; [discriminate|].
    unfold bind in *. destruct (body w) as [[f|e|] w1]; try discriminate.
    apply (IH fuel (i + 1)%float (k + 1)); try lia; try assumption.
    apply int_add; [split; assumption|exact int_one|lia].
Qed.

Lemma iterate_thrown_inv m : forall features w e w',
  iterate body m features w = (Thrown e, w') -> exists w1 w2, body w1 = (Thrown e, w2).
Proof.
  induction m as [|m IH]; intros features w e w' H; cbn [iterate] in H.
  - discriminate.
  - unfold bind in H. destruct (body w) as [[f|e1|] w1] eqn:B; try discriminate.
    + eapply IH. exact H.
    + injection H as -> _. eauto.
Qed.

End LoopMore.

(** ** NaN, [TimeClip] and conforming engines *)

Lemma nan_SF x : is_nan x = true -> Prim2SF x = S754_nan.
Proof. rewrite is_nan_spec. destruct (Prim2SF x); try discriminate; reflexivity. Qed.

Lemma add_nan_l x y : is_nan x = true -> is_nan (x + y) = true.
Proof. intros H. rewrite is_nan_spec, add_spec, (nan_SF x H). reflexivity. Qed.

Lemma add_nan_r x y : is_nan y = true -> is_nan (x + y) = true.
Proof.
  intros H. rewrite is_nan_spec, add_spec, (nan_SF y H).
  destruct (Prim2SF x); reflexivity.
Qed.

Lemma sub_nan_l x y : is_nan x = true -> is_nan (x - y) = true.
Proof. intros H. rewrite is_nan_spec, sub_spec, (nan_SF x H). reflexivity. Qed.

Lemma sub_nan_r x y : is_nan y = true -> is_nan (x - y) = true.
Proof.
  intros H. rewrite is_nan_spec, sub_spec, (nan_SF y H).
  destruct (Prim2SF x); reflexivity.
Qed.

Lemma mul_nan_r x y : is_nan y = true -> is_nan (x * y) = true.
Proof.
  intros H. rewrite is_nan_spec, mul_spec, (nan_SF y H).
  destruct (Prim2SF x); reflexivity.
Qed.

Lemma opp_nan x : is_nan x = true -> is_nan (- x) = true.
Proof. intros H. destruct (opp_val x) as (E & _). rewrite E. exact H. Qed.

Lemma floor_nan x : is_nan x = true -> is_nan (Math_floor x) = true.
Proof. intros H. unfold Math_floor. rewrite (nan_SF x H). exact H. Qed.

Lemma ceil_nan x : is_nan x = true -> is_nan (Math_ceil x) = true.
Proof. intros H. unfold Math_ceil. apply opp_nan, floor_nan, opp_nan, H. Qed.

Lemma randomInt_nan r lo hi : is_nan lo = true \/ is_nan hi = true ->
  is_nan (randomInt_value r lo hi) = true.
Proof.
  unfold randomInt_value. intros [H|H].
  - apply add_nan_r, ceil_nan, H.
  - apply add_nan_l, floor_nan, mul_nan_r, add_nan_l, sub_nan_l, floor_nan, H.
Qed.

Lemma eqb_val x y : is_nan x = false -> is_nan y = false ->
  (x =? y)%float = (fval x =? fval y).
Proof.
  rewrite !is_nan_spec. intros Nx Ny.
  rewrite eqb_spec. unfold SFeqb, fval.
  rewrite SFcompare_val by (auto using Prim2SF_valid).
  rewrite Z.eqb_compare. reflexivity.
Qed.

Lemma is_finite_spec x : is_finite x = Finite x.
Proof.
  unfold is_finite, is_infinity.
  destruct (is_nan x) eqn:N.
  - unfold Finite. rewrite (nan_SF x N). reflexivity.
  - destruct (abs_val x) as (Na & Va & Fa). rewrite N in Na.
    rewrite eqb_val by (try assumption; reflexivity).
    rewrite Va. cbn [orb]. change (fval infinity) with INF.
    pose proof (fval_bound x) as B. pose proof INF_pos.
    destruct (Finite x) eqn:F.
    + apply Finite_iff in F; [|exact N].
      destruct (Z.eqb_spec (Z.abs (fval x)) INF); [lia|reflexivity].
    + destruct (Z.eqb_spec (Z.abs (fval x)) INF) as [|NE]; [reflexivity|].
      assert (Finite x = true) by (apply Finite_iff; [exact N|lia]). congruence.
Qed.

Lemma IsInt_not_nan x z : IsInt x z -> is_nan x = false.
Proof. intros [F _]. apply Finite_not_nan, F. Qed.

Lemma maxTime_int : IsInt 8.64e15 8640000000000000.
Proof. split; [reflexivity|]. vm_compute. reflexivity. Qed.

Lemma TimeClip_int v z : IsInt v z -> Z.abs z <= 8640000000000000 -> IsInt (TimeClip v) z.
Proof.
  intros [F V] Hz. unfold TimeClip. rewrite is_finite_spec, F. cbn [negb].
  destruct (abs_val v) as (Na & Va & Fa).
  pose proof PK_pos as PK.
  assert (L : (8.64e15 <? abs v)%float = false).
  { rewrite ltb_val; [|reflexivity|rewrite Na; apply Finite_not_nan, F].
    destruct maxTime_int as [_ ->]. rewrite Va, V.
    apply Z.ltb_ge. rewrite Z.abs_mul, (Z.abs_eq (2 ^ K)) by lia. nia. }
  rewrite L. rewrite (F2Z_int v z F V).
  apply Z2F_int. change (2 ^ prec) with 9007199254740992. lia.
Qed.

Lemma TimeClip_nan v : is_nan v = true -> is_nan (TimeClip v) = true.
Proof.
  intros H. unfold TimeClip. rewrite is_finite_spec. unfold Finite.
  rewrite (nan_SF v H). reflexivity.
Qed.

Lemma MakeDate_range y m d : 0 <= y <= 9999 -> valid_ymd y m d = true ->
  Z.abs (MakeDate (MakeDay y (m - 1) d) 0) <= 2 ^ 51.
Proof.
  intros Hy V. destruct (valid_ymd_inv y m d V) as [Hm Hd].
  destruct (month_end_days y (m - 1) ltac:(lia)) as [Me Mb].
  assert (Lr : 0 <= leap y <= 1) by (destruct (leap_cases y) as [[-> _]|[-> _]]; lia).
  assert (B0 : 0 <= DaysBeforeMonth (m - 1) (leap y)).
  { assert (Hm' : 0 <= m - 1 <= 11) by lia. revert Lr. generalize (leap y). intros l Lr.
    assert (E : l = 0 \/ l = 1) by lia.
    destruct E as [-> | ->]; split_month Hm'; cbn; lia. }
  pose proof (DayFromYear_mono 0 y ltac:(lia)) as L.
  pose proof (DayFromYear_mono (y + 1) 10000 ltac:(lia)) as U.
  rewrite DayFromYear_succ in U.
  change (DayFromYear 0) with (-719528) in L. change (DayFromYear 10000) with 2932897 in U.
  unfold MakeDate, MakeDay, msPerDay. change (2 ^ 51) with 2251799813685248. lia.
Qed.

(** The integral part is no larger than the number. *)
Lemma F2Z_bound x : Finite x = true -> Z.abs (F2Z x) * 2 ^ K <= Z.abs (fval x).
Proof.
  intros F. unfold F2Z. pose proof PK_pos as PK.
  pose proof (Prim2SF_valid x) as V.
  unfold Finite, fval in *.
  destruct (Prim2SF x) as [s|s| |s m e] eqn:E; try discriminate; cbn [val];
    try (change (Z.abs 0) with 0; lia).
  cbn [SpecFloat.valid_binary] in V.
  { destruct (bounded_range m e V) as (Ke & _ & Mu & _).
    assert (Pk : 0 < 2 ^ (e + K)) by (apply Z.pow_pos_nonneg; lia).
    assert (A : Z.abs (sgn s (Z.pos m * 2 ^ (e + K))) = Z.pos m * 2 ^ (e + K))
      by (destruct s; cbn [sgn]; nia).
    rewrite A.
    destruct (Z.leb_spec 0 e) as [P|N].
    + rewrite Z.pow_add_r by (unfold K; lia).
      assert (Pe : 0 < 2 ^ e) by (apply Z.pow_pos_nonneg; lia).
      destruct s; nia.
    + assert (Pe : 0 < 2 ^ (- e)) by (apply Z.pow_pos_nonneg; lia).
      assert (EK : 2 ^ K = 2 ^ (- e) * 2 ^ (e + K)).
      { rewrite <- Z.pow_add_r by lia. f_equal. lia. }
      rewrite EK.
      pose proof (Z.mul_div_le (Z.pos m) (2 ^ (- e)) Pe) as D.
      assert (D0 : 0 <= Z.pos m / 2 ^ (- e)) by (apply Z.div_pos; lia).
      destruct s; nia. }
Qed.

(** What [TimeClip] returns is NaN or an integer of the range of time values. *)
Lemma TimeClip_cases v :
  is_nan (TimeClip v) = true \/
  exists z, IsInt (TimeClip v) z /\ Z.abs z <= 8640000000000000.
Proof.
  unfold TimeClip. rewrite is_finite_spec.
  destruct (Finite v) eqn:F; cbn [negb]; [|left; reflexivity].
  destruct (8.64e15 <? abs v)%float eqn:L; [left; reflexivity|].
  right. exists (F2Z v).
  destruct (abs_val v) as (Na & Va & Fa). pose proof PK_pos as PK.
  rewrite ltb_val in L; [|reflexivity|rewrite Na; apply Finite_not_nan, F].
  destruct maxTime_int as [_ Vm]. rewrite Vm, Va in L. apply Z.ltb_ge in L.
  pose proof (F2Z_bound v F) as B.
  assert (Hz : Z.abs (F2Z v) <= 8640000000000000) by nia.
  split; [|exact Hz].
  apply Z2F_int. change (2 ^ prec) with 9007199254740992. lia.
Qed.

(** * Engines

    An engine conforms when it reads the date-only form YYYY-MM-DD of a
    calendar date as midnight UTC of that day; ECMAScript asks for no more
    on the strings of ten characters. *)

Lemma DaysInMonth_le y m : DaysInMonth y m <= 31.
Proof.
  unfold DaysInMonth. destruct (leap_cases y) as [[-> _]|[-> _]];
    destruct m as [|p|p]; try lia;
    do 4 (try destruct p as [p|p|]); lia.
Qed.

Lemma date_only_parse_conforms : parses_date_only date_only_parse.
Proof.
  intros s y m d P V. unfold date_only_parse. rewrite P.
  destruct (valid_ymd_inv y m d V) as [Hm Hd].
  pose proof (DaysInMonth_le y (m - 1)) as L.
  replace ((1 <=? m) && (m <=? 12) && (1 <=? d) && (d <=? 31)) with true; [reflexivity|].
  symmetry. repeat (apply andb_true_intro; split); apply Z.leb_le; lia.
Qed.

(** The time value of a calendar date in a conforming engine. *)
Lemma valid_date_time parse s : parses_date_only parse -> valid_date_string s = true ->
  exists y m d, parse_date_only s = Some (y, m, d) /\ valid_ymd y m d = true /\
                IsInt (getTime (Date_of_string parse s)) (MakeDate (MakeDay y (m - 1) d) 0).
Proof.
  intros C H. unfold valid_date_string in H.
  destruct (parse_date_only s) as [[[y m] d]|] eqn:P; [|discriminate].
  exists y, m, d. split; [reflexivity|]. split; [exact H|].
  unfold getTime, Date_of_string. cbn [time_value]. rewrite (C s y m d P H).
  destruct (parse_date_only_inv s y m d P) as (_ & Hy & _).
  pose proof (MakeDate_range y m d Hy H) as B.
  change (2 ^ 51) with 2251799813685248 in B.
  apply TimeClip_int; [|lia]. apply Z2F_int.
  change (2 ^ prec) with 9007199254740992. lia.
Qed.

(** ** The generator *)

Lemma int_150 : IsInt 150 150.
Proof. split; [reflexivity|]. vm_compute. reflexivity. Qed.

Lemma int_350 : IsInt 350 350.
Proof. split; [reflexivity|]. vm_compute. reflexivity. Qed.

Lemma int_0 : IsInt 0 0.
Proof. split; reflexivity. Qed.

Lemma int_2 : IsInt 2 2.
Proof. split; [reflexivity|]. vm_compute. reflexivity. Qed.

Lemma int_3 : IsInt 3 3.
Proof. split; [reflexivity|]. vm_compute. reflexivity. Qed.

Lemma numberOfPoints_range r : unit_interval r = true ->
  exists n, IsInt (randomInt_value r 150 350) n /\ 150 <= n <= 350.
Proof.
  intros Hr.
  destruct (randomInt_value_spec r 150 350 150 350 Hr int_150 int_350) as (n & I & B & _);
    try (change (2 ^ 51) with 2251799813685248; simpl; lia).
  exists n. split; [exact I|]. apply B. lia.
Qed.

Section Generator.

Variable entropy : nat -> number.

Variable Date_parse : string -> number.

Variables lat lon radius : number.

Variables startDateStr endDateStr : string.

Let body : M Feature :=
  make_feature entropy (lat - radius) (lat + radius) (lon - radius) (lon + radius)
    (Date_of_string Date_parse startDateStr) (Date_of_string Date_parse endDateStr).

Lemma generateBloomData_run fuel w :
  generateBloomData entropy Date_parse fuel lat lon radius startDateStr endDateStr w =
  match for_loop fuel 0 (randomInt_value (entropy (draws w)) 150 350) body [] (tick 1 w) with
  | (Returned l, w') =>
      (Returned {| collection_type := "FeatureCollection"; features := l |}, w')
  | (Thrown e, w') => (Thrown e, w')
  | (OutOfFuel, w') => (OutOfFuel, w')
  end.
Proof.
  unfold generateBloomData, getRandomInt, Math_random, bind, ret, body, tick, randomInt_value.
  destruct w as [n c]. cbn [draws console Nat.add].
  destruct (for_loop _ _ _ _ _ _) as [[l|e|] w']; reflexivity.
Qed.

Lemma body_run w :
  body w =
  match toISOString (Date_of_number
          (timestamp_at entropy (Date_of_string Date_parse startDateStr)
             (Date_of_string Date_parse endDateStr) (draws w))) with
  | inl iso => (Returned (feature_at entropy (lat - radius) (lat + radius) (lon - radius)
                            (lon + radius) (draws w) iso), tick 6 w)
  | inr e => (Thrown e, tick 6 w)
  end.
Proof. apply make_feature_run. Qed.

Lemma body_draws w : exists o, body w = (o, tick 6 w) /\ o <> OutOfFuel.
Proof.
  rewrite body_run. destruct (toISOString _).
  - eexists. split; [reflexivity|discriminate].
  - eexists. split; [reflexivity|discriminate].
Qed.

Hypothesis entropy_ok : valid_entropy entropy.

(** The generator as a fuel-free iteration. *)
Lemma generateBloomData_iterate fuel w : (350 <= fuel)%nat ->
  exists n, 150 <= n <= 350 /\
    IsInt (randomInt_value (entropy (draws w)) 150 350) n /\
    generateBloomData entropy Date_parse fuel lat lon radius startDateStr endDateStr w =
    match iterate body (Z.to_nat n) [] (tick 1 w) with
    | (Returned l, w') =>
        (Returned {| collection_type := "FeatureCollection"; features := l |}, w')
    | (Thrown e, w') => (Thrown e, w')
    | (OutOfFuel, w') => (OutOfFuel, w')
    end.
Proof.
  intros Hf. destruct (numberOfPoints_range _ (entropy_ok (draws w))) as (n & I & B).
  exists n. split; [exact B|]. split; [exact I|].
  rewrite generateBloomData_run.
  rewrite (for_loop_iterate body _ n I) with (m := Z.to_nat n) (k := 0);
    try reflexivity; try lia; try exact int_0.
Qed.

Lemma generateBloomData_features fuel w fc w' (P : Feature -> Prop) :
  (forall w1 f w2, body w1 = (Returned f, w2) -> P f) ->
  generateBloomData entropy Date_parse fuel lat lon radius startDateStr endDateStr w
    = (Returned fc, w') ->
  Forall P (features fc).
Proof.
  intros HP H. rewrite generateBloomData_run in H.
  destruct (for_loop _ _ _ _ _ _) as [[l|e|] w1] eqn:L; try discriminate.
  injection H as <- _. cbn [features].
  eapply for_loop_forall; [exact HP|exact L|constructor].
Qed.

Lemma body_inv w f w' : body w = (Returned f, w') ->
  exists iso,
    toISOString (Date_of_number
       (timestamp_at entropy (Date_of_string Date_parse startDateStr)
          (Date_of_string Date_parse endDateStr) (draws w))) = inl iso /\
    f = feature_at entropy (lat - radius) (lat + radius) (lon - radius) (lon + radius)
          (draws w) iso.
Proof.
  rewrite body_run. destruct (toISOString _) as [iso|e]; [|discriminate].
  intros H. injection H as <- _. exists iso. split; reflexivity.
Qed.

End Generator.

(** The generator reads the engine on its two date strings only. *)
Lemma generateBloomData_parser parse1 parse2 entropy fuel lat lon radius startDateStr
  endDateStr w :
  parse1 startDateStr = parse2 startDateStr -> parse1 endDateStr = parse2 endDateStr ->
  generateBloomData entropy parse1 fuel lat lon radius startDateStr endDateStr w =
  generateBloomData entropy parse2 fuel lat lon radius startDateStr endDateStr w.
Proof.
  intros Es Ee. unfold generateBloomData, Date_of_string. rewrite Es, Ee. reflexivity.
Qed.

Lemma conforming_agree parse s : parses_date_only parse -> valid_date_string s = true ->
  parse s = date_only_parse s.
Proof.
  intros C V. unfold valid_date_string in V.
  destruct (parse_date_only s) as [[[y m] d]|] eqn:P; [|discriminate].
  rewrite (C s y m d P V), (date_only_parse_conforms s y m d P V). reflexivity.
Qed.

(** A run on two calendar dates is the same in every conforming engine. *)
Lemma generateBloomData_conforming parse entropy fuel lat lon radius startDateStr
  endDateStr w :
  parses_date_only parse ->
  valid_date_string startDateStr = true -> valid_date_string endDateStr = true ->
  generateBloomData entropy parse fuel lat lon radius startDateStr endDateStr w =
  generateBloomData entropy date_only_parse fuel lat lon radius startDateStr endDateStr w.
Proof.
  intros C Vs Ve. apply generateBloomData_parser; apply conforming_agree; assumption.
Qed.

(** ** Sample sources *)

Lemma zero_entropy_valid : valid_entropy zero_entropy.
Proof. intros n. reflexivity. Qed.

Lemma top_entropy_valid : valid_entropy top_entropy.
Proof. intros n. reflexivity. Qed.

Lemma half_entropy_valid : valid_entropy half_entropy.
Proof. intros n. reflexivity. Qed.

Lemma same_day_run_returns :
  generateBloomData half_entropy date_only_parse 350 10 20 2 "2025-03-01" "2025-03-01" w0 =
  (Returned (returned_collection same_day_run), snd same_day_run).
Proof. vm_compute. reflexivity. Qed.

Lemma sample_run_returns :
  generateBloomData half_entropy date_only_parse 350 10 20 2 "2025-03-01" "2025-05-31" w0 =
  (Returned (returned_collection sample_run), snd sample_run).
Proof. vm_compute. reflexivity. Qed.

(** ** Timestamps and category picks *)

Lemma toISOString_int v t : IsInt v t -> Z.abs t <= 8640000000000000 ->
  toISOString (Date_of_number v) = inl (iso_date t ++ "T" ++ iso_time t)%string.
Proof.
  intros I B. pose proof (TimeClip_int v t I B) as [F V].
  unfold toISOString, Date_of_number. cbn [time_value].
  rewrite (Finite_not_nan _ F), (F2Z_int _ t F V). reflexivity.
Qed.

Lemma toISOString_nan v : is_nan v = true ->
  toISOString (Date_of_number v) = inr (RangeError "Invalid time value").
Proof.
  intros H. unfold toISOString, Date_of_number. cbn [time_value].
  rewrite (TimeClip_nan v H). reflexivity.
Qed.

Lemma is_nan_cases x : is_nan x = true \/ is_nan x = false.
Proof. destruct (is_nan x); auto. Qed.

Section Timestamps.

Variable entropy : nat -> number.

Variable Date_parse : string -> number.

Hypothesis entropy_ok : valid_entropy entropy.

Variables startDateStr endDateStr : string.

Let ts (n : nat) : number :=
  timestamp_at entropy (Date_of_string Date_parse startDateStr)
    (Date_of_string Date_parse endDateStr) n.

(** Between two dates of four-digit years the timestamp is an integer
    between them. *)
Lemma timestamp_valid n zs ze :
  IsInt (getTime (Date_of_string Date_parse startDateStr)) zs ->
  IsInt (getTime (Date_of_string Date_parse endDateStr)) ze ->
  Z.abs zs <= 2 ^ 51 -> Z.abs ze <= 2 ^ 51 ->
  exists t, IsInt (ts n) t /\ Z.abs t <= 2 ^ 51 /\
            (zs <= ze -> zs <= t <= ze) /\ (ze < zs -> ze < t <= zs).
Proof.
  intros Is Ie Bs Be.
  destruct (randomInt_value_spec (entropy (2 + n)) _ _ zs ze (entropy_ok _) Is Ie Bs Be)
    as (t & It & B1 & B2).
  exists t. split; [exact It|]. split; [|split; assumption].
  destruct (Z.le_gt_cases zs ze) as [L|G].
  - specialize (B1 L). lia.
  - specialize (B2 G). lia.
Qed.

(** A valid date holds an integer of the range of time values, whatever the
    engine parsed: [new Date] clips it. *)
Lemma dates_clipped :
  is_nan (getTime (Date_of_string Date_parse startDateStr)) = false ->
  is_nan (getTime (Date_of_string Date_parse endDateStr)) = false ->
  exists zs ze, IsInt (getTime (Date_of_string Date_parse startDateStr)) zs /\
                IsInt (getTime (Date_of_string Date_parse endDateStr)) ze /\
                Z.abs zs <= 8640000000000000 /\ Z.abs ze <= 8640000000000000.
Proof.
  unfold getTime, Date_of_string. cbn [time_value]. intros Ns Ne.
  destruct (TimeClip_cases (Date_parse startDateStr)) as [N|(zs & Is & Bs)]; [congruence|].
  destruct (TimeClip_cases (Date_parse endDateStr)) as [N|(ze & Ie & Be)]; [congruence|].
  exists zs, ze. auto.
Qed.

(** Between any two valid dates the timestamp is a time value between them. *)
Lemma timestamp_wide n zs ze :
  IsInt (getTime (Date_of_string Date_parse startDateStr)) zs ->
  IsInt (getTime (Date_of_string Date_parse endDateStr)) ze ->
  Z.abs zs <= 8640000000000000 -> Z.abs ze <= 8640000000000000 ->
  exists t, IsInt (ts n) t /\ Z.abs t <= 8640000000000000 /\
            Z.min zs ze <= t <= Z.max zs ze.
Proof.
  intros Is Ie Bs Be.
  destruct (randomInt_value_wide (entropy (2 + n)) _ _ zs ze (entropy_ok _)
              (int_ceil _ _ Is) (int_floor _ _ Ie) Bs Be) as (t & It & B1 & B2).
  exists t. split; [exact It|].
  destruct (Z.le_gt_cases zs ze) as [L|G].
  - specialize (B1 L). lia.
  - specialize (B2 G). lia.
Qed.

(** A feature is produced only when both dates are valid. *)
Lemma timestamp_returned n iso : toISOString (Date_of_number (ts n)) = inl iso ->
  is_nan (getTime (Date_of_string Date_parse startDateStr)) = false /\
  is_nan (getTime (Date_of_string Date_parse endDateStr)) = false.
Proof.
  intros H.
  destruct (is_nan_cases (getTime (Date_of_string Date_parse startDateStr))) as [N1|N1];
    [|destruct (is_nan_cases (getTime (Date_of_string Date_parse endDateStr))) as [N2|N2];
      [|auto]].
  - rewrite toISOString_nan in H; [discriminate|].
    apply randomInt_nan. left. exact N1.
  - rewrite toISOString_nan in H; [discriminate|].
    apply randomInt_nan. right. exact N2.
Qed.

End Timestamps.

Lemma array_get_int {A} (arr : list A) k n : IsInt k n -> 0 <= n ->
  array_get arr k = nth_error arr (Z.to_nat n).
Proof.
  intros [F V] Hn. unfold array_get.
  rewrite is_finite_spec, F.
  pose proof (int_floor k n (conj F V)) as [Ff Vf].
  rewrite eqb_val by (apply Finite_not_nan; assumption).
  rewrite Vf, V, Z.eqb_refl.
  rewrite leb_val; [|reflexivity|apply Finite_not_nan, F].
  rewrite fval_zero, V. pose proof PK_pos.
  destruct (Z.leb_spec 0 (n * 2 ^ K)); [|nia].
  cbn [andb]. rewrite (F2Z_int k n F V). reflexivity.
Qed.

Lemma trend_pick r : unit_interval r = true ->
  exists t, array_get trends (randomInt_value r 0 2) = Some t /\ In t trends.
Proof.
  intros Hr.
  destruct (randomInt_value_spec r 0 2 0 2 Hr int_0 int_2) as (n & I & B & _);
    try (change (2 ^ 51) with 2251799813685248; simpl; lia).
  specialize (B ltac:(lia)). rewrite (array_get_int _ _ n I) by lia.
  assert (E : n = 0 \/ n = 1 \/ n = 2) by lia.
  destruct E as [->|[->| ->]]; cbn; eexists; split; try reflexivity; cbn; auto.
Qed.

Lemma prediction_pick r : unit_interval r = true ->
  exists p, array_get predictions (randomInt_value r 0 3) = Some p /\ In p predictions.
Proof.
  intros Hr.
  destruct (randomInt_value_spec r 0 3 0 3 Hr int_0 int_3) as (n & I & B & _);
    try (change (2 ^ 51) with 2251799813685248; simpl; lia).
  specialize (B ltac:(lia)). rewrite (array_get_int _ _ n I) by lia.
  assert (E : n = 0 \/ n = 1 \/ n = 2 \/ n = 3) by lia.
  destruct E as [->|[->|[->| ->]]]; cbn; eexists; split; try reflexivity; cbn; auto.
Qed.

(** ** The bounding box *)

Lemma box_bounds r c rad :
  unit_interval r = true -> (0 <=? rad)%float = true ->
  is_finite ((c + rad) - (c - rad)) = true ->
  within (c - rad) (c + rad) (randomFloat_value r (c - rad) (c + rad)) = true.
Proof.
  intros Hr Hrad Hfin. rewrite is_finite_spec in Hfin.
  destruct (sub_finite_inv _ _ Hfin) as [Fmax Fmin].
  destruct (add_finite_inv _ _ Fmax) as [Fc Fr].
  apply leb_true in Hrad. destruct Hrad as (_ & _ & Hrad). rewrite fval_zero in Hrad.
  destruct (add_val c rad Fc Fr) as [_ Vmax]. destruct (sub_val c rad Fc Fr) as [_ Vmin].
  assert (Hle : fval (c - rad) <= fval (c + rad)).
  { rewrite Vmax, Vmin. apply R_mono; auto using adm_1. lia. }
  destruct (randomFloat_value_bounds r _ _ Hr Hfin Hle) as (Fp & B1 & B2).
  unfold within.
  rewrite !leb_val by (apply Finite_not_nan; assumption).
  apply andb_true_intro. split; apply Z.leb_le; assumption.
Qed.

(** ** The date range *)

(** A parsed, valid date string is the canonical rendering of its fields,
    and its time value decodes back to them. *)
Lemma parsed_date s y m d :
  parse_date_only s = Some (y, m, d) -> valid_ymd y m d = true ->
  s = fmt_date y m d /\ 0 <= y <= 9999 /\ 1 <= m <= 12 /\ 1 <= d <= 31 /\
  Day (MakeDate (MakeDay y (m - 1) d) 0) = MakeDay y (m - 1) d /\
  date_code (MakeDate (MakeDay y (m - 1) d) 0) = 10000 * y + 100 * m + d.
Proof.
  intros P V. destruct (parse_date_only_inv s y m d P) as (E & Hy & _).
  destruct (MakeDay_roundtrip y m d V) as (ED & EY & EM & EDt).
  pose proof (ymd_range (MakeDate (MakeDay y (m - 1) d) 0)) as [Rm Rd].
  rewrite EM in Rm. rewrite EDt in Rd.
  repeat split; try assumption; try lia.
  unfold date_code. rewrite EY, EM, EDt. lia.
Qed.

Lemma midnight_order a b : MakeDate a 0 < MakeDate b 0 -> a < b.
Proof. unfold MakeDate, msPerDay. lia. Qed.

Section DateRange.

Variables (s e : string) (y1 m1 d1 y2 m2 d2 : Z).

Hypothesis Ps : parse_date_only s = Some (y1, m1, d1).

Hypothesis Vs : valid_ymd y1 m1 d1 = true.

Hypothesis Pe : parse_date_only e = Some (y2, m2, d2).

Hypothesis Ve : valid_ymd y2 m2 d2 = true.

Let zs := MakeDate (MakeDay y1 (m1 - 1) d1) 0.

Let ze := MakeDate (MakeDay y2 (m2 - 1) d2) 0.

Lemma ordered_dates : String.leb s e = true -> zs <= ze.
Proof.
  intros L.
  destruct (parsed_date s y1 m1 d1 Ps Vs) as (Es & Y1 & M1 & D1 & Ds & Cs).
  destruct (parsed_date e y2 m2 d2 Pe Ve) as (Ee & Y2 & M2 & D2 & De & Ce).
  rewrite Es, Ee in L. rewrite leb_fmt_date in L by lia. apply Z.leb_le in L.
  destruct (Z.le_gt_cases zs ze) as [H|H]; [exact H|exfalso].
  pose proof (midnight_order _ _ H) as Lt.
  assert (Dle : Day ze <= Day zs) by (unfold zs, ze; rewrite Ds, De; lia).
  apply date_code_mono in Dle. unfold zs, ze in Dle. rewrite Cs, Ce in Dle.
  assert (y1 = y2 /\ m1 = m2 /\ d1 = d2) as (-> & -> & ->) by lia.
  lia.
Qed.

Lemma date_between t : zs <= t <= ze ->
  String.leb s (iso_date t) = true /\ String.leb (iso_date t) e = true.
Proof.
  intros B.
  destruct (parsed_date s y1 m1 d1 Ps Vs) as (Es & Y1 & M1 & D1 & Ds & Cs).
  destruct (parsed_date e y2 m2 d2 Pe Ve) as (Ee & Y2 & M2 & D2 & De & Ce).
  assert (L1 : Day zs <= Day t) by (unfold Day, msPerDay; apply Z.div_le_mono; lia).
  assert (L2 : Day t <= Day ze) by (unfold Day, msPerDay; apply Z.div_le_mono; lia).
  apply date_code_mono in L1, L2. unfold zs in L1. unfold ze in L2.
  rewrite Cs in L1. rewrite Ce in L2.
  pose proof (ymd_range t) as [Rm Rd]. unfold date_code in L1, L2.
  assert (Yt : 0 <= YearFromTime t <= 9999) by lia.
  rewrite (iso_date_fmt t Yt). rewrite Es, Ee.
  rewrite !leb_fmt_date by lia. split; apply Z.leb_le; lia.
Qed.

End DateRange.

(** ** The request handler *)

Section Handler.

Variable entropy : nat -> number.

Variable Date_parse : string -> number.

Lemma for_loop_draws (body : M Feature) :
  (forall w, (draws w <= draws (snd (body w)))%nat) ->
  forall fuel i np features w,
    (draws w <= draws (snd (for_loop fuel i np body features w)))%nat.
Proof.
  intros Hb. induction fuel as [|fuel IH]; intros i np features w;
    cbn [for_loop]; destruct (i <? np)%float; cbn [out_of_fuel ret snd]; try lia.
  unfold bind. pose proof (Hb w) as B.
  destruct (body w) as [[f|e|] w1]; cbn [snd] in *; try lia.
  etransitivity; [exact B|apply IH].
Qed.

(** Every call of the generator draws from Math.random. *)
Lemma generateBloomData_draws fuel lat lon radius s e w :
  (draws w < draws (snd (generateBloomData entropy Date_parse fuel lat lon radius s e w)))%nat.
Proof.
  rewrite generateBloomData_run.
  match goal with |- context [for_loop ?f ?i ?n ?b ?l ?w1] =>
    pose proof (for_loop_draws b) as D; specialize (D ltac:(
      intros w2; destruct (body_draws entropy Date_parse lat lon radius s e w2) as (o & -> & _);
      cbn [snd tick draws]; lia) f i n l w1);
    destruct (for_loop f i n b l w1) as [[l1|e1|] w3]
  end; cbn [snd tick draws] in *; lia.
Qed.

Lemma generateBloomData_changes_world fuel lat lon radius s e w :
  snd (generateBloomData entropy Date_parse fuel lat lon radius s e w) <> w.
Proof.
  intros E. pose proof (generateBloomData_draws fuel lat lon radius s e w) as D.
  rewrite E in D. lia.
Qed.

Lemma falsy_rejected fuel q w :
  truthy (q_lat q) && truthy (q_lon q) && truthy (q_radius q)
    && truthy (q_startDate q) && truthy (q_endDate q) = false ->
  bloom_data_handler entropy Date_parse fuel q w =
    (Returned {| status := 400; json := ErrorBody missing_message |}, w).
Proof.
  intros H. unfold bloom_data_handler.
  destruct (truthy (q_lat q)), (truthy (q_lon q)), (truthy (q_radius q)),
    (truthy (q_startDate q)), (truthy (q_endDate q)); try discriminate; reflexivity.
Qed.

End Handler.

(** ** The helpers on fractional and reversed bounds *)

Lemma getRandomInt_run entropy min max w :
  getRandomInt entropy min max w =
  (Returned (randomInt_value (entropy (draws w)) min max), tick 1 w).
Proof. destruct w as [n c]. reflexivity. Qed.

Lemma getRandomFloat_run entropy min max w :
  getRandomFloat entropy min max w =
  (Returned (randomFloat_value (entropy (draws w)) min max), tick 1 w).
Proof. destruct w as [n c]. reflexivity. Qed.

(** [randomInt_value] when only the rounded bounds are integers. *)
Lemma randomInt_value_core r lo hi zlo zhi :
  unit_interval r = true -> IsInt (Math_ceil lo) zlo -> IsInt (Math_floor hi) zhi ->
  Z.abs zlo <= 2 ^ 51 -> Z.abs zhi <= 2 ^ 51 ->
  exists n, IsInt (randomInt_value r lo hi) n /\
    (zlo <= zhi -> zlo <= n <= zhi) /\ (zhi < zlo -> zhi < n <= zlo).
Proof.
  intros Hr Hmin Hmax Blo Bhi. unfold randomInt_value.
  assert (Ep : 2 ^ prec = 9007199254740992) by reflexivity.
  assert (E51 : 2 ^ 51 = 2251799813685248) by reflexivity.
  pose proof PK_pos as PK.
  pose proof (int_sub _ _ _ _ Hmax Hmin ltac:(lia)) as Hd.
  pose proof (int_add _ _ _ _ Hd int_one ltac:(lia)) as Hk.
  destruct (unit_mul_int r _ _ Hr Hk ltac:(lia)) as (Ft & C1 & C2 & C3).
  destruct (floor_val _ Ft) as [Fq Vq].
  remember (r * (Math_floor hi - Math_ceil lo + 1))%float as t eqn:Et.
  remember (fval t / 2 ^ K) as qz eqn:Eq.
  assert (Hq : IsInt (Math_floor t) qz) by (split; assumption).
  assert (Bq : (zlo <= zhi -> 0 <= qz <= zhi - zlo) /\ (zhi < zlo -> zhi - zlo < qz <= 0)).
  { split; intros Hc.
    - destruct (C1 ltac:(lia)) as [T0 T1]. split.
      + subst qz. apply Z.div_pos; lia.
      + assert (qz < zhi - zlo + 1) by (subst qz; apply Z.div_lt_upper_bound; lia). lia.
    - destruct (Z.eq_dec (zhi - zlo + 1) 0) as [E0|N0].
      + subst qz. rewrite (C2 E0). rewrite Z.div_0_l by lia. lia.
      + destruct (C3 ltac:(lia)) as [T0 T1]. split.
        * assert (zhi - zlo + 1 <= qz) by (subst qz; apply Z.div_le_lower_bound; lia). lia.
        * assert (qz < 1) by (subst qz; apply Z.div_lt_upper_bound; lia). lia. }
  destruct Bq as [B1 B2].
  exists (qz + zlo). split.
  - apply int_add; auto. destruct (Z.le_gt_cases zlo zhi) as [L|G].
    + specialize (B1 L). lia.
    + specialize (B2 ltac:(lia)). lia.
  - split; intros Hc.
    + specialize (B1 Hc). lia.
    + specialize (B2 Hc). lia.
Qed.

Lemma int_2p51 : IsInt 0x1p51 (2 ^ 51).
Proof. split; [reflexivity|]. vm_compute. reflexivity. Qed.

(** A Number of magnitude at most [2 ^ 51] and its two roundings. *)
Lemma small_bounds x : (abs x <=? 0x1p51)%float = true ->
  Finite x = true /\
  IsInt (Math_ceil x) (- ((- fval x) / 2 ^ K)) /\ IsInt (Math_floor x) (fval x / 2 ^ K) /\
  Z.abs (- ((- fval x) / 2 ^ K)) <= 2 ^ 51 /\ Z.abs (fval x / 2 ^ K) <= 2 ^ 51 /\
  (- ((- fval x) / 2 ^ K)) * 2 ^ K - 2 ^ K < fval x <= (- ((- fval x) / 2 ^ K)) * 2 ^ K /\
  fval x / 2 ^ K * 2 ^ K <= fval x < fval x / 2 ^ K * 2 ^ K + 2 ^ K.
Proof.
  intros H. apply leb_true in H. destruct H as (Na & _ & L).
  destruct (abs_val x) as (Nx & Va & _). rewrite Nx in Na. rewrite Va in L.
  destruct int_2p51 as [_ V51]. rewrite V51 in L.
  pose proof PK_pos as PK.
  assert (E51 : 2 ^ 51 = 2251799813685248) by reflexivity.
  assert (F : Finite x = true).
  { apply Finite_iff; [exact Na|].
    pose proof (int_small_finite (2 ^ 51) ltac:(rewrite E51; simpl; unfold prec; lia)). lia. }
  destruct (ceil_val x F) as [Fc Vc]. destruct (floor_val x F) as [Ff Vf].
  pose proof (Z.div_mod (fval x) (2 ^ K) ltac:(lia)) as D1.
  pose proof (Z.mod_pos_bound (fval x) (2 ^ K) PK) as M1.
  pose proof (Z.div_mod (- fval x) (2 ^ K) ltac:(lia)) as D2.
  pose proof (Z.mod_pos_bound (- fval x) (2 ^ K) PK) as M2.
  remember (fval x / 2 ^ K) as qf eqn:Eqf. remember ((- fval x) / 2 ^ K) as qc eqn:Eqc.
  split; [exact F|].
  split; [split; [exact Fc|rewrite Vc; ring]|].
  split; [split; [exact Ff|exact Vf]|].
  repeat split; nia.
Qed.

Lemma mul_le_cancel a b : a * 2 ^ K <= b * 2 ^ K -> a <= b.
Proof. pose proof PK_pos. nia. Qed.

Lemma mul_lt_cancel a b : a * 2 ^ K < b * 2 ^ K -> a < b.
Proof. pose proof PK_pos. nia. Qed.

(** [randomFloat_value] with its bounds in the other order: the mirror image
    of the ordered case. *)
Lemma randomFloat_value_reversed r lo hi :
  unit_interval r = true -> Finite (hi - lo) = true -> fval hi <= fval lo ->
  Finite (randomFloat_value r lo hi) = true /\
  fval hi <= fval (randomFloat_value r lo hi) <= fval lo.
Proof.
  intros Hr Fd Hle.
  destruct (unit_interval_spec r Hr) as (Fr & _ & _).
  destruct (sub_finite_inv hi lo Fd) as [Fhi Flo].
  destruct (opp_val hi) as (_ & Vnh & Fnh). destruct (opp_val lo) as (_ & Vnl & Fnl).
  rewrite Fhi in Fnh. rewrite Flo in Fnl.
  destruct (sub_val hi lo Fhi Flo) as [Nd Vd].
  destruct (sub_val (- hi) (- lo) Fnh Fnl) as [Nd' Vd'].
  assert (Ed : fval (- hi - - lo) = - fval (hi - lo)).
  { rewrite Vd', Vd, Vnh, Vnl, <- R_opp. f_equal. ring. }
  assert (Fd' : Finite (- hi - - lo) = true).
  { apply Finite_iff; [exact Nd'|]. rewrite Ed.
    apply Finite_iff in Fd; [lia|exact Nd]. }
  destruct (randomFloat_value_bounds r (- lo) (- hi) Hr Fd' ltac:(lia)) as (Fv' & B1 & B2).
  unfold randomFloat_value in *.
  assert (Hd0 : 0 <= fval (- hi - - lo)).
  { rewrite Vd', <- (R_zero 1). apply R_mono; auto using adm_1. lia. }
  destruct (unit_mul_le r _ Hr Fd' Hd0) as [Ft' _].
  destruct (mul_val r (hi - lo) Fr Fd) as [Nt Vt].
  destruct (mul_val r (- hi - - lo) Fr Fd') as [Nt' Vt'].
  assert (Et : fval (r * (- hi - - lo)) = - fval (r * (hi - lo))).
  { rewrite Vt', Vt, Ed, <- R_opp. f_equal. ring. }
  assert (Ft : Finite (r * (hi - lo)) = true).
  { apply Finite_iff; [exact Nt|].
    apply Finite_iff in Ft'; [lia|exact Nt']. }
  destruct (add_val _ _ Ft Flo) as [Np Vp].
  destruct (add_val _ _ Ft' Fnl) as [Np' Vp'].
  assert (Ev : fval (r * (- hi - - lo) + - lo) = - fval (r * (hi - lo) + lo)).
  { rewrite Vp', Vp, Et, Vnl, <- R_opp. f_equal. ring. }
  split.
  - apply Finite_iff; [exact Np|]. apply Finite_iff in Fv'; [lia|exact Np'].
  - lia.
Qed.

(** ** Values of the helpers *)

(** The result of [getRandomInt] on two bounds of magnitude at most [2 ^ 51]. *)
Lemma randomInt_value_small r lo hi :
  unit_interval r = true ->
  (abs lo <=? 0x1p51)%float = true -> (abs hi <=? 0x1p51)%float = true ->
  let v := randomInt_value r lo hi in
  is_nan v = false /\ (Math_floor v =? v)%float = true /\
  ((Math_ceil lo <=? Math_floor hi)%float = true ->
   (lo <=? v)%float = true /\ (v <=? hi)%float = true) /\
  ((Math_floor hi <? Math_ceil lo)%float = true ->
   (Math_floor hi <? v)%float = true /\ (v <=? Math_ceil lo)%float = true).
Proof.
  intros Hr Hlo Hhi. cbv zeta.
  destruct (small_bounds lo Hlo) as (Flo & Ic & _ & Bc & _ & Cb & _).
  destruct (small_bounds hi Hhi) as (Fhi & _ & If & _ & Bf & _ & Fb).
  destruct (randomInt_value_core r lo hi _ _ Hr Ic If Bc Bf) as (n & In & B1 & B2).
  pose proof (IsInt_not_nan _ _ In) as Nv.
  pose proof (IsInt_not_nan _ _ Ic) as Nc. pose proof (IsInt_not_nan _ _ If) as Nf.
  pose proof (Finite_not_nan _ Flo) as Nlo. pose proof (Finite_not_nan _ Fhi) as Nhi.
  destruct In as [Fv Vv]. destruct Ic as [Fc Vc]. destruct If as [Ff Vf].
  pose proof PK_pos as PK.
  split; [exact Nv|]. split.
  - destruct (int_floor _ n (conj Fv Vv)) as [Ffl Vfl].
    rewrite eqb_val by (try assumption; apply Finite_not_nan, Ffl).
    rewrite Vfl, Vv. apply Z.eqb_refl.
  - split; intros H.
    + apply leb_true in H. destruct H as (_ & _ & L). rewrite Vc, Vf in L.
      apply mul_le_cancel in L. specialize (B1 L).
      rewrite !leb_val by assumption. rewrite Vv.
      split; apply Z.leb_le; nia.
    + apply ltb_true in H. destruct H as (_ & _ & L). rewrite Vc, Vf in L.
      apply mul_lt_cancel in L. specialize (B2 L).
      rewrite ltb_val, leb_val by assumption. rewrite Vv, Vc, Vf.
      split; [apply Z.ltb_lt|apply Z.leb_le]; nia.
Qed.

Lemma randomFloat_nan r lo hi : is_nan lo = true \/ is_nan hi = true ->
  is_nan (randomFloat_value r lo hi) = true.
Proof.
  unfold randomFloat_value. intros [H|H].
  - apply add_nan_r, H.
  - apply add_nan_l, mul_nan_r, sub_nan_l, H.
Qed.

Lemma box_bounds_reversed r c rad :
  unit_interval r = true -> (rad <=? 0)%float = true ->
  is_finite ((c + rad) - (c - rad)) = true ->
  within (c + rad) (c - rad) (randomFloat_value r (c - rad) (c + rad)) = true.
Proof.
  intros Hr Hrad Hfin. rewrite is_finite_spec in Hfin.
  destruct (sub_finite_inv _ _ Hfin) as [Fmax Fmin].
  destruct (add_finite_inv _ _ Fmax) as [Fc Fr].
  apply leb_true in Hrad. destruct Hrad as (_ & _ & Hrad). rewrite fval_zero in Hrad.
  destruct (add_val c rad Fc Fr) as [_ Vmax]. destruct (sub_val c rad Fc Fr) as [_ Vmin].
  assert (Hle : fval (c + rad) <= fval (c - rad)).
  { rewrite Vmax, Vmin. apply R_mono; auto using adm_1. lia. }
  destruct (randomFloat_value_reversed r _ _ Hr Hfin Hle) as (Fp & B1 & B2).
  unfold within.
  rewrite !leb_val by (apply Finite_not_nan; assumption).
  apply andb_true_intro. split; apply Z.leb_le; assumption.
Qed.

Lemma negative_radius_run_returns :
  generateBloomData half_entropy date_only_parse 350 10 20 (-2) "2025-03-01" "2025-05-31" w0 =
  (Returned (returned_collection negative_radius_run), snd negative_radius_run).
Proof. vm_compute. reflexivity. Qed.

(** ** Draws and features of a run *)

Lemma inverted_run_returns :
  generateBloomData half_entropy date_only_parse 350 10 20 2 "2025-05-31" "2025-03-01" w0 =
  (Returned (returned_collection inverted_run), snd inverted_run).
Proof. vm_compute. reflexivity. Qed.

(** Draws and features of the loop. *)
Lemma for_loop_count (body : M Feature) :
  (forall w, exists o, body w = (o, tick 6 w) /\ o <> OutOfFuel) ->
  forall fuel i np features w l w',
    for_loop fuel i np body features w = (Returned l, w') ->
    (draws w' + 6 * List.length features = draws w + 6 * List.length l)%nat /\
    console w' = console w.
Proof.
  intros Hb. induction fuel as [|fuel IH]; intros i np features w l w' H;
    cbn [for_loop] in H; destruct (i <? np)%float; try discriminate;
    try (unfold ret in H; injection H as <- <-; split; [lia|reflexivity]).
  unfold bind in H. destruct (Hb w) as (o & B & _). rewrite B in H.
  destruct o as [f|e|]; try discriminate.
  apply IH in H. destruct H as [H C]. rewrite length_app in H. cbn [List.length tick draws console] in *.
  split; [lia|exact C].
Qed.

Lemma generator_world entropy Date_parse fuel lat lon radius startDate endDate w fc w' :
  generateBloomData entropy Date_parse fuel lat lon radius startDate endDate w
    = (Returned fc, w') ->
  draws w' = (draws w + 1 + 6 * List.length (features fc))%nat /\ console w' = console w.
Proof.
  intros H. rewrite generateBloomData_run in H.
  destruct (for_loop _ _ _ _ _ _) as [[l|e|] w1] eqn:L; try discriminate.
  injection H as <- <-. cbn [features].
  apply (for_loop_count _ (body_draws entropy Date_parse lat lon radius startDate endDate)) in L.
  cbn [List.length tick draws console] in L. destruct L as [L C]. split; [lia|exact C].
Qed.

(** ** Printing and parsing dates *)

Lemma digit_of_digit k : digit_of (digit k) = Some (k mod 10).
Proof.
  unfold digit_of. rewrite N_of_digit.
  pose proof (Z.mod_pos_bound k 10 ltac:(lia)) as B.
  rewrite Z2N.id by lia.
  destruct (Z.leb_spec 48 (48 + k mod 10)); [|lia].
  destruct (Z.leb_spec (48 + k mod 10) 57); [|lia].
  cbn [andb]. f_equal. lia.
Qed.

(** Printing then parsing a date gives back its fields. *)
Lemma parse_fmt_date y m d : 0 <= y <= 9999 -> 0 <= m <= 99 -> 0 <= d <= 99 ->
  parse_date_only (fmt_date y m d) = Some (y, m, d).
Proof.
  intros Hy Hm Hd. unfold fmt_date, pad4, pad3, pad2. cbn [append parse_date_only].
  change (Ascii.eqb "-" "-") with true. cbn [andb].
  rewrite !digit_of_digit. f_equal. f_equal; [f_equal|];
    Z.to_euclidean_division_equations; lia.
Qed.

(** The calendar fields of a time value form a valid date. *)
Lemma valid_ymd_of_time t :
  valid_ymd (YearFromTime t) (MonthFromTime t + 1) (DateFromTime t) = true /\
  MakeDay (YearFromTime t) (MonthFromTime t) (DateFromTime t) = Day t.
Proof.
  destruct (month_spec t) as (M & W & D).
  pose proof (month_length _ _ M (InLeapYear_range t)) as Len.
  destruct (month_end_days (YearFromTime t) (MonthFromTime t) M) as [Me _].
  change (leap (YearFromTime t)) with (InLeapYear t) in Me.
  split.
  - unfold valid_ymd. replace (MonthFromTime t + 1 - 1) with (MonthFromTime t) by lia.
    repeat (apply andb_true_intro; split); apply Z.leb_le; lia.
  - unfold MakeDay. change (leap (YearFromTime t)) with (InLeapYear t).
    unfold DayWithinYear in D. lia.
Qed.

Lemma year_between a t b : a <= t <= b ->
  YearFromTime a <= YearFromTime t <= YearFromTime b.
Proof.
  intros H. unfold YearFromTime.
  assert (Day a <= Day t <= Day b)
    by (unfold Day, msPerDay; split; apply Z.div_le_mono; lia).
  split; apply YearFromDay_mono; lia.
Qed.

(** The date part of a time value in the years 0 to 9999 parses back to the
    midnight that starts its day. *)
Lemma Date_parse_iso_date Date_parse t :
  parses_date_only Date_parse -> 0 <= YearFromTime t <= 9999 ->
  IsInt (getTime (Date_of_string Date_parse (iso_date t))) (Day t * msPerDay) /\
  String.length (iso_date t) = 10%nat.
Proof.
  intros C Hy. rewrite (iso_date_fmt t Hy).
  destruct (ymd_range t) as [Rm Rd].
  destruct (valid_ymd_of_time t) as [V Md].
  split; [|reflexivity].
  unfold getTime, Date_of_string. cbn [time_value].
  pose proof (parse_fmt_date (YearFromTime t) (MonthFromTime t + 1) (DateFromTime t)
                Hy ltac:(lia) ltac:(lia)) as P.
  rewrite (C _ _ _ _ P V).
  replace (MonthFromTime t + 1 - 1) with (MonthFromTime t) by lia. rewrite Md.
  pose proof (MakeDate_range _ _ _ Hy V) as B.
  replace (MonthFromTime t + 1 - 1) with (MonthFromTime t) in B by lia. rewrite Md in B.
  unfold MakeDate in *. rewrite Z.add_0_r in *.
  change (2 ^ 51) with 2251799813685248 in B.
  apply TimeClip_int; [|lia]. apply Z2F_int.
  change (2 ^ prec) with 9007199254740992. lia.
Qed.

Lemma iso_date_day t : iso_date (Day t * msPerDay) = iso_date t.
Proof.
  assert (E : Day (Day t * msPerDay) = Day t)
    by (unfold Day at 1; apply Z.div_mul; discriminate).
  unfold iso_date, DateFromTime, MonthFromTime, InLeapYear, DayWithinYear, YearFromTime.
  rewrite !E. reflexivity.
Qed.

Lemma iso_time_midnight d : iso_time (d * msPerDay) = "00:00:00.000Z"%string.
Proof.
  unfold iso_time, HourFromTime, MinFromTime, SecFromTime, msFromTime, msPerDay,
    msPerHour, msPerMinute, msPerSecond.
  replace (d * 86400000 / 3600000) with (d * 24)
    by (apply Z.div_unique with 0; lia).
  replace (d * 86400000 / 60000) with (d * 24 * 60)
    by (apply Z.div_unique with 0; lia).
  replace (d * 86400000 / 1000) with (d * 1440 * 60)
    by (apply Z.div_unique with 0; lia).
  replace (d * 86400000) with (d * 86400 * 1000) by lia.
  rewrite !Z.mod_mul by discriminate. reflexivity.
Qed.

(** ** The latitude factor beyond the poles *)

(** A finite value above 90 is above it by at least [2 ^ -47]. *)
Lemma above_ninety a : Finite a = true -> fval 90 < fval a ->
  fval 90 + 2 ^ (-47 + K) <= fval a.
Proof.
  intros F H. pose proof fval_ninety_bounds as B90.
  assert (EK : K = 2148) by reflexivity. assert (Ep : prec = 53) by reflexivity.
  pose proof emin_val as Em.
  pose proof (Prim2SF_valid a) as V. unfold Finite, fval in *.
  assert (L90 : 2 ^ 52 * 2 ^ (-46 + K) <= val (Prim2SF 90)).
  { rewrite ninety_SF. cbn [val sgn].
    assert (0 < 2 ^ (-46 + K)) by (apply Z.pow_pos_nonneg; lia).
    change (2 ^ 52) with 4503599627370496. nia. }
  destruct (Prim2SF a) as [s|s| |s m e] eqn:E; try discriminate; cbn [val] in *; try lia.
  cbn [SpecFloat.valid_binary] in V.
  destruct (bounded_range m e V) as (Ke & Rv & Mu & Ml).
  destruct s; cbn [sgn] in *; [lia|].
  assert (He : -46 <= e).
  { destruct (Z.le_gt_cases (-46) e) as [|G]; [assumption|exfalso].
    assert (2 ^ (e + K) <= 2 ^ (-47 + K)) by (apply Z.pow_le_mono_r; lia).
    assert (2 ^ (-46 + K) = 2 * 2 ^ (-47 + K)).
    { replace (-46 + K) with (1 + (-47 + K)) by lia.
      rewrite Z.pow_add_r by lia. reflexivity. }
    assert (0 < 2 ^ (-47 + K)) by (apply Z.pow_pos_nonneg; lia).
    change (2 ^ prec) with 9007199254740992 in Mu.
    change (2 ^ 52) with 4503599627370496 in L90. nia. }
  pose proof (val_gap (Prim2SF 90) m e (Prim2SF_valid 90) eq_refl V (Ml ltac:(lia)) H) as G.
  assert (2 ^ (-47 + K) <= 2 ^ (e - 1 + K)) by (apply Z.pow_le_mono_r; lia).
  lia.
Qed.

(** The latitude factor [(90 - |p|) / 90] beyond the poles. *)
Lemma latitudeFactor_outside p :
  is_finite p = true -> (90 <? abs p)%float = true ->
  let f := ((90 - abs p) / 90)%float in
  Finite f = true /\ fval f < 0.
Proof.
  intros Fp Hlt. cbv zeta. rewrite is_finite_spec in Fp.
  apply ltb_true in Hlt. destruct Hlt as (_ & Na & La).
  destruct (abs_val p) as (_ & Va & Fa). rewrite Fp in Fa.
  pose proof fval_ninety_bounds as B90. pose proof PK_pos as PK.
  pose proof INF_pos as I. pose proof emin_val as Em.
  assert (EK : K = 2148) by reflexivity. assert (Ep : prec = 53) by reflexivity.
  assert (F90 : Finite 90 = true) by reflexivity.
  assert (Ft : Finite 0x1p-47 = true) by reflexivity.
  assert (Pt : 0 < 2 ^ (-47 + K)) by (apply Z.pow_pos_nonneg; lia).
  pose proof (above_ninety _ Fa La) as G.
  assert (Ba : fval (abs p) < INF).
  { apply Finite_iff in Fa; [lia|exact Na]. }
  destruct (sub_val 90 (abs p) F90 Fa) as [Ns Vs].
  assert (Bs : - fval (abs p) <= fval (90 - abs p) <= - 2 ^ (-47 + K)).
  { rewrite Vs. split.
    - rewrite <- (fval_repr _ Fa) at 1. rewrite <- R_opp.
      apply R_mono; auto using adm_1. lia.
    - rewrite <- fval_tiny, <- (fval_repr _ Ft), <- R_opp.
      apply R_mono; auto using adm_1. rewrite fval_tiny. lia. }
  assert (Fs : Finite (90 - abs p) = true) by (apply finite_of_bounds; [exact Ns|lia]).
  destruct (div_val (90 - abs p) 90 (-47) 7 Fs F90 ltac:(lia)) as [Nf Vf].
  { right. rewrite Z.abs_neq by lia. lia. }
  assert (L90 : 2 ^ K <= fval 90).
  { unfold fval. rewrite ninety_SF. cbn [val sgn].
    assert (2 ^ K = 2 ^ 46 * 2 ^ (-46 + K)).
    { rewrite <- Z.pow_add_r by lia. f_equal; lia. }
    assert (0 < 2 ^ (-46 + K)) by (apply Z.pow_pos_nonneg; lia).
    change (2 ^ 46) with 70368744177664 in *. nia. }
  assert (Adm : admissible (fval (90 - abs p) * 2 ^ K) (fval 90)).
  { split; [lia|right].
    rewrite Z.abs_mul, (Z.abs_eq (2 ^ K)), Z.abs_neq by lia.
    assert (2 ^ (7 + K) = 2 ^ (-47 + K) * 2 ^ 54).
    { rewrite <- Z.pow_add_r by lia. f_equal; lia. }
    assert (2 ^ 54 <= 2 ^ K) by (apply Z.pow_le_mono_r; lia).
    nia. }
  assert (Bf : fval (90 - abs p) <= fval ((90 - abs p) / 90) < 0).
  { rewrite Vf. split.
    - rewrite <- (fval_repr _ Fs) at 1.
      rewrite <- (R_scale (fval (90 - abs p)) 1 (2 ^ K)) by lia.
      apply R_mono; auto.
      + split; [lia|right]. rewrite Z.abs_mul, (Z.abs_eq (2 ^ K)), Z.abs_neq by lia. nia.
      + apply Z.mul_le_mono_nonpos_l; [nia|lia].
    - (* at most the quotient -2^-47 / 90, which is negative *)
      assert (Vo : fval (-0x1p-47) = - 2 ^ (-47 + K)) by (vm_compute; reflexivity).
      destruct (div_val (-0x1p-47) 90 (-47) 7 ltac:(reflexivity) F90 ltac:(lia)) as [_ Vc].
      { right. rewrite Vo, Z.abs_neq by lia. lia. }
      assert (Hc : fval (-0x1p-47 / 90) < 0) by (apply Z.ltb_lt; vm_compute; reflexivity).
      eapply Z.le_lt_trans; [|exact Hc].
      rewrite Vc. apply R_mono; auto.
      + split; [lia|right]. rewrite Vo.
        rewrite Z.abs_mul, (Z.abs_eq (2 ^ K)), Z.abs_neq by lia.
        assert (2 ^ (7 + K) = 2 ^ (-47 + K) * 2 ^ 54).
        { rewrite <- Z.pow_add_r by lia. f_equal; lia. }
        assert (2 ^ 54 <= 2 ^ K) by (apply Z.pow_le_mono_r; lia).
        nia.
      + rewrite Vo. nia. }
  split; [apply finite_of_bounds; [exact Nf|lia]|lia].
Qed.

Lemma polar_run_returns :
  generateBloomData half_entropy date_only_parse 350 120 20 2 "2025-03-01" "2025-05-31" w0 =
  (Returned (returned_collection polar_run), snd polar_run).
Proof. vm_compute. reflexivity. Qed.

(** ** Accepted requests *)

(** With two valid dates and enough fuel the generator returns between 150
    and 350 features. *)
Lemma generator_returns entropy Date_parse fuel lat lon radius startDate endDate w :
  valid_entropy entropy -> (350 <= fuel)%nat ->
  is_nan (getTime (Date_of_string Date_parse startDate)) = false ->
  is_nan (getTime (Date_of_string Date_parse endDate)) = false ->
  exists l,
    generateBloomData entropy Date_parse fuel lat lon radius startDate endDate w =
      (Returned {| collection_type := "FeatureCollection"; features := l |},
       tick (6 * List.length l) (tick 1 w)) /\
    (150 <= List.length l <= 350)%nat.
Proof.
  intros He Hf Ns Ne.
  destruct (dates_clipped Date_parse startDate endDate Ns Ne) as (zs & ze & Is & Ie & Bs & Be).
  destruct (generateBloomData_iterate entropy Date_parse lat lon radius startDate endDate
              He fuel w Hf) as (n & B & I & E).
  rewrite E. clear E.
  destruct (iterate_total _ (body_draws entropy Date_parse lat lon radius startDate endDate)
              (Z.to_nat n) [] (tick 1 w)) as [(l & E & Len)|(e & j & J & E)]; rewrite E.
  - cbn [List.length Nat.add] in Len. exists l. rewrite Len. split; [reflexivity|lia].
  - exfalso. apply iterate_thrown_inv in E. destruct E as (w1 & w2 & E).
    rewrite make_feature_run in E.
    destruct (timestamp_wide entropy Date_parse He startDate endDate (draws w1) zs ze
                Is Ie Bs Be) as (t & It & Bt & _).
    rewrite (toISOString_int _ t It Bt) in E. discriminate.
Qed.

Section Requests.

Variable entropy : nat -> number.

Variable Date_parse : string -> number.

Variable fuel : nat.

Variable q : query.

Let latNum := parseFloat (ToString (q_lat q)).

Let lonNum := parseFloat (ToString (q_lon q)).

Let radiusNum := parseFloat (ToString (q_radius q)).

Let startDate := ToString (q_startDate q).

Let endDate := ToString (q_endDate q).

Hypothesis present :
  truthy (q_lat q) && truthy (q_lon q) && truthy (q_radius q)
    && truthy (q_startDate q) && truthy (q_endDate q) = true.

Hypothesis numeric : isNaN latNum || isNaN lonNum || isNaN radiusNum = false.

(** An accepted request logs four lines and runs the generator. *)
Lemma accepted_run w :
  bloom_data_handler entropy Date_parse fuel q w =
    (data <- generateBloomData entropy Date_parse fuel latNum lonNum radiusNum
               startDate endDate ;;
     ret {| status := 200; json := DataBody data |})
      (logged latNum lonNum radiusNum startDate endDate w).
Proof.
  unfold bloom_data_handler. pose proof present as P.
  repeat (apply andb_prop in P; destruct P as [P ?]).
  repeat match goal with H : truthy _ = true |- _ => rewrite H; clear H end.
  cbn [negb orb].
  fold latNum lonNum radiusNum. rewrite numeric. reflexivity.
Qed.

End Requests.

(** ** The bounds of [getRandomInt] *)

(** The integer [randomInt_value] returns, from the product it floors. *)
Lemma randomInt_value_exact r lo hi zlo zhi :
  unit_interval r = true -> IsInt (Math_ceil lo) zlo -> IsInt (Math_floor hi) zhi ->
  Z.abs zlo <= 2 ^ 51 -> Z.abs zhi <= 2 ^ 51 ->
  IsInt (Math_floor hi - Math_ceil lo + 1) (zhi - zlo + 1) /\
  IsInt (randomInt_value r lo hi)
    (fval (r * (Math_floor hi - Math_ceil lo + 1)) / 2 ^ K + zlo).
Proof.
  intros Hr Hmin Hmax Blo Bhi.
  assert (Ep : 2 ^ prec = 9007199254740992) by reflexivity.
  assert (E51 : 2 ^ 51 = 2251799813685248) by reflexivity.
  pose proof PK_pos as PK.
  pose proof (int_sub _ _ _ _ Hmax Hmin ltac:(lia)) as Hd.
  pose proof (int_add _ _ _ _ Hd int_one ltac:(lia)) as Hk.
  split; [exact Hk|].
  destruct (randomInt_value_core r lo hi zlo zhi Hr Hmin Hmax Blo Bhi) as (n & In & B1 & B2).
  unfold randomInt_value in *.
  destruct (unit_mul_int r _ _ Hr Hk ltac:(lia)) as (Ft & _).
  destruct (floor_val _ Ft) as [Fq Vq].
  apply int_add; [split; assumption|exact Hmin|].
  destruct In as [Fn Vn].
  destruct (add_val _ _ Fq (proj1 Hmin)) as [_ Va].
  destruct Hmin as [Fm Vm].
  remember (fval (r * (Math_floor hi - Math_ceil lo + 1)) / 2 ^ K) as qz eqn:Eq.
  assert (Z.abs n <= 2 ^ 51).
  { destruct (Z.le_gt_cases zlo zhi) as [L|G]; [specialize (B1 L)|specialize (B2 G)]; lia. }
  rewrite Vq, Vm, <- Z.mul_add_distr_r in Va.
  rewrite Va in Vn.
  (* the sum is the integer n, so it was not rounded *)
  destruct (Z.le_gt_cases (Z.abs (qz + zlo)) (2 ^ prec)) as [S|Bg]; [exact S|exfalso].
  assert (Mono : forall a b, a <= b -> R (a * 2 ^ K) 1 <= R (b * 2 ^ K) 1).
  { intros a b Hab. apply R_mono; auto using adm_1. nia. }
  destruct (Z.le_gt_cases 0 (qz + zlo)) as [P|Ng].
  - pose proof (Mono (2 ^ prec) (qz + zlo) ltac:(lia)) as M.
    rewrite R_int in M by lia. rewrite Vn in M. nia.
  - pose proof (Mono (qz + zlo) (- 2 ^ prec) ltac:(lia)) as M.
    rewrite (R_int (- 2 ^ prec)) in M by lia. rewrite Vn in M. nia.
Qed.

Lemma integral_small x : (abs x <=? 0x1p51)%float = true ->
  (Math_floor x =? x)%float = true ->
  exists z, IsInt x z /\ Z.abs z <= 2 ^ 51.
Proof.
  intros Hb Hi. destruct (small_bounds x Hb) as (F & _ & [Ff Vf] & _ & Bf & _).
  exists (fval x / 2 ^ K). split; [|exact Bf]. split; [exact F|].
  rewrite eqb_val in Hi by (apply Finite_not_nan; assumption).
  apply Z.eqb_eq in Hi. rewrite <- Hi at 1. exact Vf.
Qed.

Lemma top_entropy_value : fval 0x1.fffffffffffffp-1 = 2 ^ K - 2 ^ (K - prec).
Proof. vm_compute. reflexivity. Qed.

(** * Part IV: the properties *)

(** C1 (as amended).  For every feature of a returned collection whose latitude
    [y] satisfies [|y| <= 90]: the intensity lies in [[0, 1)], it is at most
    the latitude factor [(90 - |y|) / 90], and it is strictly below the factor
    when [|y| < 90]. *)
Theorem intensity_range entropy Date_parse fuel lat lon radius startDate endDate w fc w' :
  valid_entropy entropy ->
  generateBloomData entropy Date_parse fuel lat lon radius startDate endDate w
    = (Returned fc, w') ->
  Forall (fun f => exists x y,
            coordinates (geometry f) = [x; y] /\
            ((abs y <=? 90)%float = true ->
             let i := intensity (properties f) in
             let latitudeFactor := ((90 - abs y) / 90)%float in
             (0 <=? i)%float = true /\ (i <? 1)%float = true /\
             (i <=? latitudeFactor)%float = true /\
             ((abs y <? 90)%float = true -> (i <? latitudeFactor)%float = true)))
         (features fc).
Proof.
  intros He H.
  eapply generateBloomData_features; [|exact H].
  intros w1 f w2 B. apply body_inv in B. destruct B as (iso & _ & ->).
  cbn [feature_at geometry coordinates properties intensity].
  eexists. eexists. split; [reflexivity|]. intros Hy. cbv zeta.
  unfold Math_abs.
  destruct (latitudeFactor_bounds _ Hy) as (Ff & Bf & Sf).
  destruct (intensity_bounds (entropy (3 + draws w1)%nat) _ (He _) Ff Bf)
    as (Fi & I0 & I1 & I2 & I3).
  pose proof (Finite_not_nan _ Fi) as Ni. pose proof (Finite_not_nan _ Ff) as Nf.
  split; [rewrite leb_val by (reflexivity || assumption); rewrite fval_zero;
          apply Z.leb_le; exact I0|].
  split; [rewrite ltb_val by (reflexivity || assumption); apply Z.ltb_lt; exact I1|].
  split; [rewrite leb_val by assumption; apply Z.leb_le; exact I2|].
  intros Hlt. rewrite ltb_val by assumption. apply Z.ltb_lt. apply I3. apply Sf.
  exact Hlt.
Qed.

(** The bounds on the sample run. *)
Lemma intensity_range_witness :
  Forall (fun f => exists x y,
            coordinates (geometry f) = [x; y] /\
            ((abs y <=? 90)%float = true ->
             let i := intensity (properties f) in
             let latitudeFactor := ((90 - abs y) / 90)%float in
             (0 <=? i)%float = true /\ (i <? 1)%float = true /\
             (i <=? latitudeFactor)%float = true /\
             ((abs y <? 90)%float = true -> (i <? latitudeFactor)%float = true)))
         (features (returned_collection sample_run)).
Proof.
  exact (intensity_range half_entropy date_only_parse 350%nat 10%float 20%float 2%float
           "2025-03-01"%string "2025-05-31"%string w0 _ _ half_entropy_valid
           sample_run_returns).
Defined.

(** C1 as stated fails at a pole.  With center latitude 90 and radius 0 the
    run returns, every feature has a latitude [y] with [|y| <= 90], and no
    intensity is strictly below the factor: both are 0. *)
Lemma intensity_not_below_factor :
  valid_entropy half_entropy /\
  returns (generateBloomData half_entropy date_only_parse 350 90 0 0
             "2025-03-01" "2025-03-01" w0) = true /\
  forallb (fun f =>
             let y := nth 1 (coordinates (geometry f)) nan in
             let i := intensity (properties f) in
             (abs y <=? 90)%float && negb (i <? (90 - abs y) / 90)%float)
    (returned_features (generateBloomData half_entropy date_only_parse 350 90 0 0
                          "2025-03-01" "2025-03-01" w0)) = true /\
  returned_features (generateBloomData half_entropy date_only_parse 350 90 0 0
                       "2025-03-01" "2025-03-01" w0) <> [].
Proof.
  split; [exact half_entropy_valid|].
  split; [vm_compute; reflexivity|]. split; [vm_compute; reflexivity|].
  vm_compute. discriminate.
Qed.

(** C2 (as amended).  When both date strings make valid dates, in whatever
    form the engine reads them, the generator returns a feature collection,
    whatever the center and the radius (NaN and negative values included) and
    whatever the order of the two dates. *)
Theorem generateBloomData_returns entropy Date_parse fuel lat lon radius startDate endDate w :
  valid_entropy entropy -> (350 <= fuel)%nat ->
  isNaN (getTime (Date_of_string Date_parse startDate)) = false ->
  isNaN (getTime (Date_of_string Date_parse endDate)) = false ->
  exists fc w',
    generateBloomData entropy Date_parse fuel lat lon radius startDate endDate w
      = (Returned fc, w') /\
    collection_type fc = "FeatureCollection"%string.
Proof.
  intros He Hf Ns Ne. unfold isNaN in Ns, Ne.
  destruct (dates_clipped Date_parse startDate endDate Ns Ne) as (zs & ze & Is & Ie & Bs & Be).
  destruct (generateBloomData_iterate entropy Date_parse lat lon radius startDate endDate
              He fuel w Hf) as (n & B & I & E).
  rewrite E. clear E.
  destruct (iterate_total _ (body_draws entropy Date_parse lat lon radius startDate endDate)
              (Z.to_nat n) [] (tick 1 w)) as [(l & E & Len)|(e & j & J & E)]; rewrite E.
  - eexists. eexists. split; reflexivity.
  - exfalso. apply iterate_thrown_inv in E. destruct E as (w1 & w2 & E).
    rewrite make_feature_run in E.
    destruct (timestamp_wide entropy Date_parse He startDate endDate (draws w1) zs ze
                Is Ie Bs Be) as (t & It & Bt & _).
    rewrite (toISOString_int _ t It Bt) in E. discriminate.
Qed.

(** A NaN latitude, a negative radius and an inverted date range. *)
Lemma generateBloomData_returns_witness :
  exists fc w',
    generateBloomData half_entropy date_only_parse 350 nan 20 (-2)
      "2025-05-31" "2025-03-01" w0 = (Returned fc, w') /\
    collection_type fc = "FeatureCollection"%string.
Proof.
  exact (generateBloomData_returns half_entropy date_only_parse 350 nan 20%float (-2)%float
           "2025-05-31"%string "2025-03-01"%string w0 half_entropy_valid (le_n _)
           eq_refl eq_refl).
Defined.

(** C2 as stated fails.  With an end date that does not parse, the timestamp
    of the first point is NaN and [toISOString] throws a RangeError. *)
Lemma generateBloomData_throws :
  valid_entropy half_entropy /\
  fst (generateBloomData half_entropy date_only_parse 350 10 20 2
         "2025-03-01" "not-a-date" w0)
    = Thrown (RangeError "Invalid time value").
Proof. split; [exact half_entropy_valid|]. vm_compute. reflexivity. Qed.

(** C3 (as amended).  In a conforming engine, when the two strings are
    calendar dates in the form YYYY-MM-DD with [startDate <= endDate], the
    date of every feature of a returned collection is a string between the
    two, both bounds included; when the two strings are equal it is that
    string. *)
Theorem dates_in_range entropy Date_parse fuel lat lon radius startDate endDate w fc w' :
  valid_entropy entropy ->
  parses_date_only Date_parse ->
  valid_date_string startDate = true -> valid_date_string endDate = true ->
  String.leb startDate endDate = true ->
  generateBloomData entropy Date_parse fuel lat lon radius startDate endDate w
    = (Returned fc, w') ->
  Forall (fun f =>
            String.leb startDate (date (properties f)) = true /\
            String.leb (date (properties f)) endDate = true /\
            (startDate = endDate -> date (properties f) = startDate))
         (features fc).
Proof.
  intros He C Vs Ve L H.
  eapply generateBloomData_features; [|exact H].
  intros w1 f w2 B. apply body_inv in B. destruct B as (iso & Hiso & ->).
  cbn [feature_at properties date].
  destruct (valid_date_time Date_parse startDate C Vs) as (y1 & m1 & d1 & P1 & V1 & I1).
  destruct (valid_date_time Date_parse endDate C Ve) as (y2 & m2 & d2 & P2 & V2 & I2).
  destruct (parse_date_only_inv _ _ _ _ P1) as (_ & Y1 & _).
  destruct (parse_date_only_inv _ _ _ _ P2) as (_ & Y2 & _).
  pose proof (MakeDate_range y1 m1 d1 Y1 V1) as Bs.
  pose proof (MakeDate_range y2 m2 d2 Y2 V2) as Be.
  destruct (timestamp_valid entropy Date_parse He startDate endDate (draws w1) _ _ I1 I2 Bs Be)
    as (t & It & Bt & B1 & _).
  specialize (B1 (ordered_dates _ _ _ _ _ _ _ _ P1 V1 P2 V2 L)).
  rewrite (toISOString_int _ t It) in Hiso
    by (change (2 ^ 51) with 2251799813685248 in Bt; lia).
  injection Hiso as <-. rewrite date_part_of_iso.
  destruct (date_between _ _ _ _ _ _ _ _ P1 V1 P2 V2 t B1) as [D1 D2].
  split; [exact D1|]. split; [exact D2|].
  intros <-. apply String.leb_antisym; assumption.
Qed.

(** On a request for a single day every date is that day. *)
Lemma dates_in_range_witness :
  Forall (fun f =>
            String.leb "2025-03-01" (date (properties f)) = true /\
            String.leb (date (properties f)) "2025-03-01" = true /\
            ("2025-03-01"%string = "2025-03-01"%string ->
             date (properties f) = "2025-03-01"%string))
         (features (returned_collection same_day_run)).
Proof.
  exact (dates_in_range half_entropy date_only_parse 350%nat 10%float 20%float 2%float
           "2025-03-01"%string "2025-03-01"%string w0 _ _ half_entropy_valid
           date_only_parse_conforms eq_refl eq_refl eq_refl same_day_run_returns).
Defined.

(** C3 as stated fails on a string that is no calendar date.  V8 reads
    2025-02-30 as 2025-03-02; with it as start and as end date the run returns,
    and the date of every feature is 2025-03-02, which is above the end
    date. *)
Lemma dates_above_range :
  valid_entropy half_entropy /\
  String.leb "2025-02-30" "2025-02-30" = true /\
  returns overflow_run = true /\
  forallb (fun f => (date (properties f) =? "2025-03-02")%string
                    && negb (String.leb (date (properties f)) "2025-02-30"))
    (returned_features overflow_run) = true /\
  returned_features overflow_run <> [].
Proof.
  split; [exact half_entropy_valid|]. split; [reflexivity|].
  split; [vm_compute; reflexivity|]. split; [vm_compute; reflexivity|].
  vm_compute. discriminate.
Qed.

(** C4, where the code keeps it.  Given [radius >= 0] and a bounding box of
    finite width in both directions, every feature of a returned collection
    has its longitude in [[lon - radius, lon + radius]] and its latitude in
    [[lat - radius, lat + radius]]. *)
Theorem coordinates_in_box entropy Date_parse fuel lat lon radius startDate endDate w fc w' :
  valid_entropy entropy ->
  (0 <=? radius)%float = true ->
  is_finite ((lat + radius) - (lat - radius)) = true ->
  is_finite ((lon + radius) - (lon - radius)) = true ->
  generateBloomData entropy Date_parse fuel lat lon radius startDate endDate w
    = (Returned fc, w') ->
  Forall (fun f => exists x y,
            coordinates (geometry f) = [x; y] /\
            within (lon - radius) (lon + radius) x = true /\
            within (lat - radius) (lat + radius) y = true)
         (features fc).
Proof.
  intros He Hr Hlat Hlon H.
  eapply generateBloomData_features; [|exact H].
  intros w1 f w2 B. apply body_inv in B. destruct B as (iso & _ & ->).
  cbn [feature_at geometry coordinates]. eexists. eexists. split; [reflexivity|].
  split; apply box_bounds; auto.
Qed.

(** The coordinates of the sample run. *)
Lemma coordinates_in_box_witness :
  Forall (fun f => exists x y,
            coordinates (geometry f) = [x; y] /\
            within (20 - 2) (20 + 2) x = true /\
            within (10 - 2) (10 + 2) y = true)
         (features (returned_collection sample_run)).
Proof.
  exact (coordinates_in_box half_entropy date_only_parse 350%nat 10%float 20%float 2%float
           "2025-03-01"%string "2025-05-31"%string w0 _ _ half_entropy_valid
           eq_refl eq_refl eq_refl sample_run_returns).
Defined.

(** C4 fails when the box overflows, and [getRandomFloat] with it: with
    center latitude 0 and radius [2 ^ 1023] both bounds of the box are finite
    and [max - min] is not, so every latitude of the run is above the upper
    bound the helper documents as exclusive. *)
Lemma coordinates_outside_box :
  valid_entropy half_entropy /\
  (0 <=? 0x1p1023)%float = true /\
  returns (generateBloomData half_entropy date_only_parse 350 0 0 0x1p1023
             "2025-03-01" "2025-03-01" w0) = true /\
  forallb (fun f => negb (within (0 - 0x1p1023) (0 + 0x1p1023)
                            (nth 1 (coordinates (geometry f)) 0%float)))
    (returned_features (generateBloomData half_entropy date_only_parse 350 0 0 0x1p1023
                          "2025-03-01" "2025-03-01" w0)) = true /\
  returned_features (generateBloomData half_entropy date_only_parse 350 0 0 0x1p1023
                       "2025-03-01" "2025-03-01" w0) <> [].
Proof.
  split; [exact half_entropy_valid|]. split; [reflexivity|].
  split; [vm_compute; reflexivity|]. split; [vm_compute; reflexivity|].
  vm_compute. discriminate.
Qed.

(** C5.  Every returned collection has between 150 and 350 features.  Both
    bounds are reached: a source that always yields 0 gives 150 features, and
    one that always yields the largest double below 1 gives 350. *)
Theorem feature_count_range :
  (forall entropy Date_parse fuel lat lon radius startDate endDate w fc w',
     valid_entropy entropy ->
     generateBloomData entropy Date_parse fuel lat lon radius startDate endDate w
       = (Returned fc, w') ->
     (150 <= List.length (features fc) <= 350)%nat) /\
  (valid_entropy zero_entropy /\
   forall Date_parse, parses_date_only Date_parse ->
   returns (generateBloomData zero_entropy Date_parse 350 10 20 2
              "2025-03-01" "2025-05-31" w0) = true /\
   List.length (returned_features
     (generateBloomData zero_entropy Date_parse 350 10 20 2
        "2025-03-01" "2025-05-31" w0)) = 150%nat) /\
  (valid_entropy top_entropy /\
   forall Date_parse, parses_date_only Date_parse ->
   returns (generateBloomData top_entropy Date_parse 350 10 20 2
              "2025-03-01" "2025-05-31" w0) = true /\
   List.length (returned_features
     (generateBloomData top_entropy Date_parse 350 10 20 2
        "2025-03-01" "2025-05-31" w0)) = 350%nat).
Proof.
  split; [|split].
  - intros entropy Date_parse fuel lat lon radius s e w fc w' He H.
    destruct (numberOfPoints_range _ (He (draws w))) as (n & I & B).
    rewrite generateBloomData_run in H.
    destruct (for_loop _ _ _ _ _ _) as [[l|e1|] w1] eqn:L; try discriminate.
    injection H as <- _. cbn [features].
    apply (for_loop_returned _ _ n I ltac:(change (2 ^ 52) with 4503599627370496; lia)
             (Z.to_nat n) _ _ 0 _ _ _ _ int_0 ltac:(lia) ltac:(lia)) in L.
    destruct (iterate_total _ (body_draws entropy Date_parse lat lon radius s e)
                (Z.to_nat n) [] (tick 1 w))
      as [(l' & E & Len)|(e1 & j & _ & E)]; rewrite E in L; [|discriminate].
    injection L as <- _. rewrite Len. cbn [List.length]. lia.
  - split; [exact zero_entropy_valid|]. intros Date_parse C.
    rewrite (generateBloomData_conforming Date_parse) by (assumption || reflexivity).
    split; vm_compute; reflexivity.
  - split; [exact top_entropy_valid|]. intros Date_parse C.
    rewrite (generateBloomData_conforming Date_parse) by (assumption || reflexivity).
    split; vm_compute; reflexivity.
Qed.

(** The count of the sample run. *)
Lemma feature_count_range_witness :
  (150 <= List.length (features (returned_collection sample_run)) <= 350)%nat.
Proof.
  exact (proj1 feature_count_range half_entropy date_only_parse 350%nat
           10%float 20%float 2%float
           "2025-03-01"%string "2025-05-31"%string w0 _ _ half_entropy_valid
           sample_run_returns).
Defined.

(** C6.  Every feature of a returned collection has a trend among earlier,
    stable and later, and a prediction among significant, moderate, slight and
    no_change: neither index leaves its array, so neither value is undefined. *)
Theorem categories_in_range entropy Date_parse fuel lat lon radius startDate endDate w fc w' :
  valid_entropy entropy ->
  generateBloomData entropy Date_parse fuel lat lon radius startDate endDate w
    = (Returned fc, w') ->
  Forall (fun f =>
            (exists t, trend (properties f) = Some t /\
                       In t ["earlier"; "stable"; "later"]%string) /\
            (exists p, prediction (properties f) = Some p /\
                       In p ["significant"; "moderate"; "slight"; "no_change"]%string))
         (features fc).
Proof.
  intros He H.
  eapply generateBloomData_features; [|exact H].
  intros w1 f w2 B. apply body_inv in B. destruct B as (iso & _ & ->).
  cbn [feature_at properties trend prediction]. split.
  - apply trend_pick, He.
  - apply prediction_pick, He.
Qed.

(** The categories of the sample run. *)
Lemma categories_in_range_witness :
  Forall (fun f =>
            (exists t, trend (properties f) = Some t /\
                       In t ["earlier"; "stable"; "later"]%string) /\
            (exists p, prediction (properties f) = Some p /\
                       In p ["significant"; "moderate"; "slight"; "no_change"]%string))
         (features (returned_collection sample_run)).
Proof.
  exact (categories_in_range half_entropy date_only_parse 350%nat 10%float 20%float 2%float
           "2025-03-01"%string "2025-05-31"%string w0 _ _ half_entropy_valid
           sample_run_returns).
Defined.

(** C7.  When one of the five parameters is absent, the handler answers 400
    with the missing-parameter message and leaves the world as it was: no
    number is drawn and nothing is logged, whereas every call of the generator
    draws at least once. *)
Theorem missing_parameter_rejected entropy Date_parse fuel q w :
  q_lat q = None \/ q_lon q = None \/ q_radius q = None \/
  q_startDate q = None \/ q_endDate q = None ->
  bloom_data_handler entropy Date_parse fuel q w =
    (Returned {| status := 400;
                 json := ErrorBody "Missing required query parameters. Required: lat, lon, radius, startDate, endDate." |},
     w) /\
  forall lat lon radius startDate endDate,
    snd (generateBloomData entropy Date_parse fuel lat lon radius startDate endDate w) <> w.
Proof.
  intros H. split; [|intros; apply generateBloomData_changes_world].
  apply falsy_rejected.
  destruct H as [E|[E|[E|[E|E]]]]; rewrite E; cbn [truthy andb];
    rewrite ?andb_false_r; reflexivity.
Qed.

(** A request without lon. *)
Lemma missing_parameter_rejected_witness :
  bloom_data_handler half_entropy date_only_parse 350
    {| q_lat := Some "10"%string; q_lon := None; q_radius := Some "2"%string;
       q_startDate := Some "2025-03-01"%string; q_endDate := Some "2025-05-31"%string |} w0 =
    (Returned {| status := 400;
                 json := ErrorBody "Missing required query parameters. Required: lat, lon, radius, startDate, endDate." |},
     w0).
Proof.
  exact (proj1 (missing_parameter_rejected half_entropy date_only_parse 350
           {| q_lat := Some "10"%string; q_lon := None; q_radius := Some "2"%string;
              q_startDate := Some "2025-03-01"%string;
              q_endDate := Some "2025-05-31"%string |} w0
           (or_intror (or_introl eq_refl)))).
Defined.

(** C8 (as amended).  With all five parameters present and not empty: when
    lat, lon or radius parses to NaN, the handler answers 400 with the
    invalid-number message and leaves the world as it was; when none does,
    the handler logs the request and runs the generator on the parsed
    numbers, and a response, if there is one, has status 200 and carries the
    generated data. *)
Theorem invalid_number_rejected entropy Date_parse fuel q w :
  truthy (q_lat q) = true -> truthy (q_lon q) = true -> truthy (q_radius q) = true ->
  truthy (q_startDate q) = true -> truthy (q_endDate q) = true ->
  let latNum := parseFloat (ToString (q_lat q)) in
  let lonNum := parseFloat (ToString (q_lon q)) in
  let radiusNum := parseFloat (ToString (q_radius q)) in
  (isNaN latNum = true \/ isNaN lonNum = true \/ isNaN radiusNum = true ->
   bloom_data_handler entropy Date_parse fuel q w =
     (Returned {| status := 400;
                  json := ErrorBody "Invalid geographic parameters. lat, lon, and radius must be numbers." |},
      w)) /\
  (isNaN latNum = false /\ isNaN lonNum = false /\ isNaN radiusNum = false ->
   bloom_data_handler entropy Date_parse fuel q w =
     (data <- generateBloomData entropy Date_parse fuel latNum lonNum radiusNum
                (ToString (q_startDate q)) (ToString (q_endDate q)) ;;
      ret {| status := 200; json := DataBody data |})
       (logged latNum lonNum radiusNum (ToString (q_startDate q)) (ToString (q_endDate q)) w)
   /\ forall r w', bloom_data_handler entropy Date_parse fuel q w = (Returned r, w') ->
                   status r = 200 /\ exists data, json r = DataBody data).
Proof.
  intros T1 T2 T3 T4 T5. cbv zeta.
  assert (U : bloom_data_handler entropy Date_parse fuel q w =
     (if isNaN (parseFloat (ToString (q_lat q))) || isNaN (parseFloat (ToString (q_lon q)))
         || isNaN (parseFloat (ToString (q_radius q)))
      then ret {| status := 400; json := ErrorBody invalid_message |}
      else
        console_log LogReceived ;;;
        console_log (LogCenter (parseFloat (ToString (q_lat q)))
                       (parseFloat (ToString (q_lon q)))) ;;;
        console_log (LogRadius (parseFloat (ToString (q_radius q)))) ;;;
        console_log (LogDates (ToString (q_startDate q)) (ToString (q_endDate q))) ;;;
        data <- generateBloomData entropy Date_parse fuel (parseFloat (ToString (q_lat q)))
                  (parseFloat (ToString (q_lon q))) (parseFloat (ToString (q_radius q)))
                  (ToString (q_startDate q)) (ToString (q_endDate q)) ;;
        ret {| status := 200; json := DataBody data |}) w).
  { unfold bloom_data_handler. rewrite T1, T2, T3, T4, T5. reflexivity. }
  split.
  - intros H. rewrite U.
    assert (E : isNaN (parseFloat (ToString (q_lat q))) || isNaN (parseFloat (ToString (q_lon q)))
                || isNaN (parseFloat (ToString (q_radius q))) = true).
    { destruct H as [->|[->| ->]]; rewrite ?orb_true_r; reflexivity. }
    rewrite E. reflexivity.
  - intros (N1 & N2 & N3).
    assert (E : bloom_data_handler entropy Date_parse fuel q w =
      (data <- generateBloomData entropy Date_parse fuel (parseFloat (ToString (q_lat q)))
                 (parseFloat (ToString (q_lon q))) (parseFloat (ToString (q_radius q)))
                 (ToString (q_startDate q)) (ToString (q_endDate q)) ;;
       ret {| status := 200; json := DataBody data |})
        (logged (parseFloat (ToString (q_lat q))) (parseFloat (ToString (q_lon q)))
           (parseFloat (ToString (q_radius q)))
           (ToString (q_startDate q)) (ToString (q_endDate q)) w)).
    { rewrite U, N1, N2, N3. reflexivity. }
    split; [exact E|]. intros r w' H. rewrite E in H. unfold bind, ret in H.
    destruct (generateBloomData _ _ _ _ _ _ _ _) as [[fc|e|] w1]; try discriminate.
    injection H as <- _. cbn [status json]. split; [reflexivity|]. eexists. reflexivity.
Qed.

(** The request with lat=abc. *)
Lemma invalid_number_rejected_witness :
  bloom_data_handler half_entropy date_only_parse 350
    (sample_query "abc" "0" "1" "2025-03-01" "2025-05-31") w0 =
    (Returned {| status := 400;
                 json := ErrorBody "Invalid geographic parameters. lat, lon, and radius must be numbers." |},
     w0).
Proof.
  exact (proj1 (invalid_number_rejected half_entropy date_only_parse 350
           (sample_query "abc" "0" "1" "2025-03-01" "2025-05-31") w0
           eq_refl eq_refl eq_refl eq_refl eq_refl) (or_introl eq_refl)).
Defined.

(** C8 as stated fails on an empty value.  In the request with lat= all five
    parameters are present and lat does not parse as a number, yet the answer
    is the missing-parameter message, not the invalid-number one. *)
Lemma empty_number_reported_missing :
  (q_lat (sample_query "" "20" "2" "2025-03-01" "2025-05-31") = Some EmptyString /\
   isNaN (parseFloat EmptyString) = true) /\
  bloom_data_handler half_entropy date_only_parse 350
    (sample_query "" "20" "2" "2025-03-01" "2025-05-31") w0 =
    (Returned {| status := 400;
                 json := ErrorBody "Missing required query parameters. Required: lat, lon, radius, startDate, endDate." |},
     w0) /\
  ErrorBody "Missing required query parameters. Required: lat, lon, radius, startDate, endDate."
    <> ErrorBody "Invalid geographic parameters. lat, lon, and radius must be numbers.".
Proof.
  split; [split; reflexivity|]. split; [reflexivity|]. discriminate.
Qed.

(** C9.  The generator terminates: with fuel for 350 iterations the loop never
    runs out, more fuel changes nothing, and the loop body ran at most 350
    times, each time making six draws after the one that chose the count. *)
Theorem generateBloomData_terminates entropy Date_parse fuel lat lon radius startDate endDate w :
  valid_entropy entropy -> (350 <= fuel)%nat ->
  let r := generateBloomData entropy Date_parse fuel lat lon radius startDate endDate w in
  fst r <> OutOfFuel /\
  r = generateBloomData entropy Date_parse 350 lat lon radius startDate endDate w /\
  exists iterations, (iterations <= 350)%nat /\
    draws (snd r) = (draws w + 1 + 6 * iterations)%nat.
Proof.
  intros He Hf. cbv zeta.
  destruct (generateBloomData_iterate entropy Date_parse lat lon radius startDate endDate
              He fuel w Hf) as (n & B & I & E).
  destruct (generateBloomData_iterate entropy Date_parse lat lon radius startDate endDate He 350 w
              (le_n _)) as (n' & B' & I' & E').
  assert (n' = n).
  { destruct I as [_ V], I' as [_ V']. rewrite V in V'. pose proof PK_pos. nia. }
  subst n'. rewrite E, E'. clear E E'.
  destruct (iterate_total _ (body_draws entropy Date_parse lat lon radius startDate endDate)
              (Z.to_nat n) [] (tick 1 w)) as [(l & E & Len)|(e & j & J & E)]; rewrite E.
  - cbn [fst snd]. split; [discriminate|]. split; [reflexivity|].
    exists (Z.to_nat n). split; [lia|]. cbn [tick draws]. lia.
  - cbn [fst snd]. split; [discriminate|]. split; [reflexivity|].
    exists j. split; [lia|]. cbn [tick draws]. lia.
Qed.

(** The sample request with more fuel than it needs. *)
Lemma generateBloomData_terminates_witness :
  fst (generateBloomData half_entropy date_only_parse 400 10 20 2
         "2025-03-01" "2025-05-31" w0) <> OutOfFuel.
Proof.
  exact (proj1 (generateBloomData_terminates half_entropy date_only_parse 400
                  10%float 20%float 2%float "2025-03-01"%string "2025-05-31"%string w0 half_entropy_valid
                  ltac:(repeat constructor))).
Defined.

(** C10.  When one of the five parameters is present with the empty string as
    its value, the handler answers 400 with the missing-parameter message, as
    it does for the same query with the empty values left out. *)
Theorem empty_parameter_is_missing entropy Date_parse fuel q w :
  q_lat q = Some EmptyString \/ q_lon q = Some EmptyString \/
  q_radius q = Some EmptyString \/
  q_startDate q = Some EmptyString \/ q_endDate q = Some EmptyString ->
  bloom_data_handler entropy Date_parse fuel q w =
    (Returned {| status := 400;
                 json := ErrorBody "Missing required query parameters. Required: lat, lon, radius, startDate, endDate." |},
     w) /\
  bloom_data_handler entropy Date_parse fuel q w =
    bloom_data_handler entropy Date_parse fuel (without_empty q) w.
Proof.
  intros H.
  assert (A : bloom_data_handler entropy Date_parse fuel q w =
              (Returned {| status := 400; json := ErrorBody missing_message |}, w)).
  { apply falsy_rejected.
    destruct H as [E|[E|[E|[E|E]]]]; rewrite E; cbn [truthy andb String.eqb negb];
      rewrite ?andb_false_r; reflexivity. }
  split; [exact A|]. rewrite A. symmetry. apply falsy_rejected.
  unfold without_empty. cbn [q_lat q_lon q_radius q_startDate q_endDate].
  destruct H as [E|[E|[E|[E|E]]]]; rewrite E; cbn [drop_empty truthy andb];
    rewrite ?andb_false_r; reflexivity.
Qed.

(** A request with an empty radius. *)
Lemma empty_parameter_is_missing_witness :
  bloom_data_handler half_entropy date_only_parse 350
    (sample_query "10" "20" "" "2025-03-01" "2025-05-31") w0 =
    (Returned {| status := 400;
                 json := ErrorBody "Missing required query parameters. Required: lat, lon, radius, startDate, endDate." |},
     w0).
Proof.
  exact (proj1 (empty_parameter_is_missing half_entropy date_only_parse 350
           (sample_query "10" "20" "" "2025-03-01" "2025-05-31") w0
           (or_intror (or_intror (or_introl eq_refl))))).
Defined.

(** * Part V: further properties of the code *)

(** X1.  [getRandomInt] on bounds of magnitude at most [2 ^ 51] with an integer
    between them makes one draw and returns an integer [v] with
    [min <= v <= max]; the bounds themselves need not be integers. *)
Theorem getRandomInt_between entropy min max w :
  valid_entropy entropy ->
  (abs min <=? 0x1p51)%float = true -> (abs max <=? 0x1p51)%float = true ->
  (Math_ceil min <=? Math_floor max)%float = true ->
  exists v, getRandomInt entropy min max w = (Returned v, tick 1 w) /\
    (Math_floor v =? v)%float = true /\
    (min <=? v)%float = true /\ (v <=? max)%float = true.
Proof.
  intros He Hlo Hhi Hord. rewrite getRandomInt_run. eexists. split; [reflexivity|].
  destruct (randomInt_value_small _ min max (He (draws w)) Hlo Hhi) as (_ & I & B & _).
  split; [exact I|]. apply B, Hord.
Qed.

(** Between 0.5 and 2.5. *)
Lemma getRandomInt_between_witness :
  exists v, getRandomInt half_entropy 0.5 2.5 w0 = (Returned v, tick 1 w0) /\
    (Math_floor v =? v)%float = true /\
    (0.5 <=? v)%float = true /\ (v <=? 2.5)%float = true.
Proof.
  exact (getRandomInt_between half_entropy 0.5 2.5 w0 half_entropy_valid
           eq_refl eq_refl eq_refl).
Defined.



(** X3.  Both bounds of [getRandomInt] are reached, on every pair of integers
    [min <= max] of magnitude at most [2 ^ 51]: a draw of 0 returns [min] and
    the largest draw below 1 returns [max]. *)
Theorem getRandomInt_endpoints min max w :
  (abs min <=? 0x1p51)%float = true -> (abs max <=? 0x1p51)%float = true ->
  (Math_floor min =? min)%float = true -> (Math_floor max =? max)%float = true ->
  (min <=? max)%float = true ->
  (exists v, getRandomInt zero_entropy min max w = (Returned v, tick 1 w) /\
             (v =? min)%float = true) /\
  (exists v, getRandomInt top_entropy min max w = (Returned v, tick 1 w) /\
             (v =? max)%float = true).
Proof.
  intros Blo Bhi Ilo Ihi Hle.
  destruct (integral_small min Blo Ilo) as (zlo & Hlo & Zlo).
  destruct (integral_small max Bhi Ihi) as (zhi & Hhi & Zhi).
  pose proof (int_ceil _ _ Hlo) as Hmin. pose proof (int_floor _ _ Hhi) as Hmax.
  assert (Ep : 2 ^ prec = 9007199254740992) by reflexivity.
  assert (E51 : 2 ^ 51 = 2251799813685248) by reflexivity.
  assert (EK : K = 2148) by reflexivity.
  pose proof PK_pos as PK.
  apply leb_true in Hle. destruct Hle as (Nlo & Nhi & L).
  destruct Hlo as [Flo Vlo]. destruct Hhi as [Fhi Vhi]. rewrite Vlo, Vhi in L.
  apply mul_le_cancel in L.
  split; rewrite getRandomInt_run; eexists; (split; [reflexivity|]).
  - destruct (randomInt_value_exact _ min max zlo zhi (zero_entropy_valid (draws w))
                Hmin Hmax Zlo Zhi) as ([Fk Vk] & [Fv Vv]).
    rewrite eqb_val by (try assumption; apply Finite_not_nan, Fv).
    unfold zero_entropy in *.
    destruct (mul_val 0 _ eq_refl Fk) as [_ Vm].
    rewrite fval_zero, Z.mul_0_l in Vm. change (R 0 (2 ^ K)) with 0 in Vm.
    rewrite Vm, Z.div_0_l in Vv by lia.
    rewrite Vv, Vlo. apply Z.eqb_eq. ring.
  - destruct (randomInt_value_exact _ min max zlo zhi (top_entropy_valid (draws w))
                Hmin Hmax Zlo Zhi) as ([Fk Vk] & [Fv Vv]).
    rewrite eqb_val by (try assumption; apply Finite_not_nan, Fv).
    destruct (unit_mul_int _ _ _ (top_entropy_valid (draws w)) (conj Fk Vk) ltac:(lia))
      as (Ft & C1 & _).
    destruct (C1 ltac:(lia)) as [_ Up].
    unfold top_entropy in *.
    destruct (mul_val 0x1.fffffffffffffp-1 _ eq_refl Fk) as [_ Vm].
    rewrite top_entropy_value, Vk in Vm.
    assert (Es : 2 ^ K = 2 ^ prec * 2 ^ (K - prec)).
    { rewrite <- Z.pow_add_r by (unfold prec; lia). f_equal; lia. }
    assert (Pp : 0 < 2 ^ (K - prec)) by (apply Z.pow_pos_nonneg; unfold prec; lia).
    assert (Low : (zhi - zlo) * 2 ^ K <=
                  fval (0x1.fffffffffffffp-1 * (Math_floor max - Math_ceil min + 1))).
    { rewrite Vm. rewrite <- (R_int (zhi - zlo)) by lia.
      rewrite <- (R_scale ((zhi - zlo) * 2 ^ K) 1 (2 ^ K)) by lia.
      apply R_mono.
      - split; [lia|]. destruct (Z.eq_dec (zhi - zlo) 0) as [->|]; [left; reflexivity|right].
        rewrite !Z.abs_mul, (Z.abs_eq (2 ^ K)) by lia. nia.
      - split; [lia|right]. rewrite Z.abs_mul, (Z.abs_eq (2 ^ K - 2 ^ (K - prec))) by nia.
        rewrite Z.abs_mul, (Z.abs_eq (2 ^ K)), Z.abs_eq by lia. nia.
      - rewrite Es. nia. }
    assert (Eq : fval (0x1.fffffffffffffp-1 * (Math_floor max - Math_ceil min + 1)) / 2 ^ K
                 = zhi - zlo).
    { symmetry. apply Z.div_unique with
        (fval (0x1.fffffffffffffp-1 * (Math_floor max - Math_ceil min + 1))
         - (zhi - zlo) * 2 ^ K); lia. }
    rewrite Eq in Vv. rewrite Vv, Vhi. apply Z.eqb_eq. ring.
Qed.

(** The indices 0 and 3 of the prediction array. *)
Lemma getRandomInt_endpoints_witness :
  (exists v, getRandomInt zero_entropy 0 3 w0 = (Returned v, tick 1 w0) /\
             (v =? 0)%float = true) /\
  (exists v, getRandomInt top_entropy 0 3 w0 = (Returned v, tick 1 w0) /\
             (v =? 3)%float = true).
Proof.
  exact (getRandomInt_endpoints 0 3 w0 eq_refl eq_refl eq_refl eq_refl eq_refl).
Defined.

(** X4.  A NaN bound makes both helpers return NaN, after one draw. *)
Theorem random_helpers_nan entropy min max w :
  isNaN min = true \/ isNaN max = true ->
  (exists v, getRandomFloat entropy min max w = (Returned v, tick 1 w) /\ isNaN v = true) /\
  (exists v, getRandomInt entropy min max w = (Returned v, tick 1 w) /\ isNaN v = true).
Proof.
  unfold isNaN. intros H. split.
  - rewrite getRandomFloat_run. eexists. split; [reflexivity|]. apply randomFloat_nan, H.
  - rewrite getRandomInt_run. eexists. split; [reflexivity|]. apply randomInt_nan, H.
Qed.

(** A NaN lower bound. *)
Lemma random_helpers_nan_witness :
  exists v, getRandomInt half_entropy nan 5 w0 = (Returned v, tick 1 w0) /\ isNaN v = true.
Proof.
  exact (proj2 (random_helpers_nan half_entropy nan 5 w0 (or_introl eq_refl))).
Defined.

(** X5.  [getRandomFloat] on [min <= max] with a finite difference makes one
    draw and returns [v] with [min <= v <= max].  The upper bound is not
    excluded: between 3 and 4 the largest draw below 1 returns 4. *)
Theorem getRandomFloat_between :
  (forall entropy min max w,
     valid_entropy entropy ->
     is_finite (max - min) = true -> (min <=? max)%float = true ->
     exists v, getRandomFloat entropy min max w = (Returned v, tick 1 w) /\
       (min <=? v)%float = true /\ (v <=? max)%float = true) /\
  (valid_entropy top_entropy /\
   getRandomFloat top_entropy 3 4 w0 = (Returned 4%float, tick 1 w0)).
Proof.
  split; [|split; [exact top_entropy_valid|reflexivity]].
  intros entropy min max w He Hf Hle. rewrite getRandomFloat_run.
  eexists. split; [reflexivity|].
  rewrite is_finite_spec in Hf. apply leb_true in Hle. destruct Hle as (Nlo & Nhi & L).
  destruct (randomFloat_value_bounds _ min max (He (draws w)) Hf L) as (Fv & B1 & B2).
  rewrite !leb_val by (try assumption; apply Finite_not_nan, Fv).
  split; apply Z.leb_le; assumption.
Qed.

(** Between -1.5 and 2.5. *)
Lemma getRandomFloat_between_witness :
  exists v, getRandomFloat half_entropy (-1.5) 2.5 w0 = (Returned v, tick 1 w0) /\
    (-1.5 <=? v)%float = true /\ (v <=? 2.5)%float = true.
Proof.
  exact (proj1 getRandomFloat_between half_entropy (-1.5)%float 2.5%float w0
           half_entropy_valid eq_refl eq_refl).
Defined.

(** X6.  [getRandomFloat] on bounds in the wrong order, [max <= min], returns
    [v] with [max <= v <= min]. *)
Theorem getRandomFloat_reversed entropy min max w :
  valid_entropy entropy ->
  is_finite (max - min) = true -> (max <=? min)%float = true ->
  exists v, getRandomFloat entropy min max w = (Returned v, tick 1 w) /\
    (max <=? v)%float = true /\ (v <=? min)%float = true.
Proof.
  intros He Hf Hle. rewrite getRandomFloat_run.
  eexists. split; [reflexivity|].
  rewrite is_finite_spec in Hf. apply leb_true in Hle. destruct Hle as (Nhi & Nlo & L).
  destruct (randomFloat_value_reversed _ min max (He (draws w)) Hf L) as (Fv & B1 & B2).
  rewrite !leb_val by (try assumption; apply Finite_not_nan, Fv).
  split; apply Z.leb_le; assumption.
Qed.

(** From 12 down to 8. *)
Lemma getRandomFloat_reversed_witness :
  exists v, getRandomFloat half_entropy 12 8 w0 = (Returned v, tick 1 w0) /\
    (8 <=? v)%float = true /\ (v <=? 12)%float = true.
Proof.
  exact (getRandomFloat_reversed half_entropy 12 8 w0 half_entropy_valid eq_refl eq_refl).
Defined.

(** X7.  A negative radius turns the box around and nothing else: given
    [radius <= 0] and a box of finite width, every feature of a returned
    collection has its longitude in [[lon + radius, lon - radius]] and its
    latitude in [[lat + radius, lat - radius]]. *)
Theorem negative_radius_box entropy Date_parse fuel lat lon radius startDate endDate w fc w' :
  valid_entropy entropy ->
  (radius <=? 0)%float = true ->
  is_finite ((lat + radius) - (lat - radius)) = true ->
  is_finite ((lon + radius) - (lon - radius)) = true ->
  generateBloomData entropy Date_parse fuel lat lon radius startDate endDate w
    = (Returned fc, w') ->
  Forall (fun f => exists x y,
            coordinates (geometry f) = [x; y] /\
            within (lon + radius) (lon - radius) x = true /\
            within (lat + radius) (lat - radius) y = true)
         (features fc).
Proof.
  intros He Hr Hlat Hlon H.
  eapply generateBloomData_features; [|exact H].
  intros w1 f w2 B. apply body_inv in B. destruct B as (iso & _ & ->).
  cbn [feature_at geometry coordinates]. eexists. eexists. split; [reflexivity|].
  split; apply box_bounds_reversed; auto.
Qed.

(** Radius -2 around (10, 20). *)
Lemma negative_radius_box_witness :
  Forall (fun f => exists x y,
            coordinates (geometry f) = [x; y] /\
            within (20 + -2) (20 - -2) x = true /\
            within (10 + -2) (10 - -2) y = true)
         (features (returned_collection negative_radius_run)).
Proof.
  exact (negative_radius_box half_entropy date_only_parse 350%nat 10%float 20%float (-2)%float
           "2025-03-01"%string "2025-05-31"%string w0 _ _ half_entropy_valid
           eq_refl eq_refl eq_refl negative_radius_run_returns).
Defined.

(** X8.  A feature of a returned collection whose latitude is finite and
    beyond a pole, [90 < |y|], has an intensity that is not positive. *)
Theorem intensity_beyond_poles entropy Date_parse fuel lat lon radius startDate endDate w fc w' :
  valid_entropy entropy ->
  generateBloomData entropy Date_parse fuel lat lon radius startDate endDate w
    = (Returned fc, w') ->
  Forall (fun f => exists x y,
            coordinates (geometry f) = [x; y] /\
            (is_finite y = true -> (90 <? abs y)%float = true ->
             (intensity (properties f) <=? 0)%float = true))
         (features fc).
Proof.
  intros He H.
  eapply generateBloomData_features; [|exact H].
  intros w1 f w2 B. apply body_inv in B. destruct B as (iso & _ & ->).
  cbn [feature_at geometry coordinates properties intensity].
  eexists. eexists. split; [reflexivity|]. intros Fy Hy. unfold Math_abs.
  destruct (latitudeFactor_outside _ Fy Hy) as [Ff Bf].
  destruct (unit_interval_spec _ (He (3 + draws w1)%nat)) as (Fr & R0 & _).
  destruct (mul_val _ _ Fr Ff) as [Ni Vi].
  rewrite leb_val; [|exact Ni|reflexivity]. rewrite fval_zero. apply Z.leb_le.
  rewrite Vi, <- (R_zero (2 ^ K)). apply R_mono.
  - apply adm_mul; auto using Prim2SF_valid.
  - split; [apply PK_pos|left; reflexivity].
  - pose proof PK_pos. nia.
Qed.

(** Center latitude 120. *)
Lemma intensity_beyond_poles_witness :
  Forall (fun f => exists x y,
            coordinates (geometry f) = [x; y] /\
            (is_finite y = true -> (90 <? abs y)%float = true ->
             (intensity (properties f) <=? 0)%float = true))
         (features (returned_collection polar_run)).
Proof.
  exact (intensity_beyond_poles half_entropy date_only_parse 350%nat 120%float 20%float 2%float
           "2025-03-01"%string "2025-05-31"%string w0 _ _ half_entropy_valid
           polar_run_returns).
Defined.

(** X9.  When one of the two date strings does not parse, the generator
    throws a RangeError in its first iteration, after seven draws, and returns
    no collection. *)
Theorem unparseable_date_throws entropy Date_parse fuel lat lon radius startDate endDate w :
  valid_entropy entropy -> (0 < fuel)%nat ->
  isNaN (getTime (Date_of_string Date_parse startDate)) = true \/
  isNaN (getTime (Date_of_string Date_parse endDate)) = true ->
  generateBloomData entropy Date_parse fuel lat lon radius startDate endDate w =
    (Thrown (RangeError "Invalid time value"), tick 7 w).
Proof.
  intros He Hf Hn. rewrite generateBloomData_run.
  destruct (numberOfPoints_range _ (He (draws w))) as (n & [Fn Vn] & Bn).
  destruct fuel as [|fuel]; [lia|]. cbn [for_loop].
  assert (L : (0 <? randomInt_value (entropy (draws w)) 150 350)%float = true).
  { rewrite ltb_val; [|reflexivity|apply Finite_not_nan, Fn].
    rewrite fval_zero, Vn. apply Z.ltb_lt. pose proof PK_pos. nia. }
  rewrite L. unfold bind. rewrite make_feature_run.
  rewrite toISOString_nan; [reflexivity|].
  apply randomInt_nan. exact Hn.
Qed.

(** An end date in month 13. *)
Lemma unparseable_date_throws_witness :
  generateBloomData half_entropy date_only_parse 350 10 20 2 "2025-03-01" "2025-13-01" w0 =
    (Thrown (RangeError "Invalid time value"), tick 7 w0).
Proof.
  exact (unparseable_date_throws half_entropy date_only_parse 350 10 20 2 "2025-03-01" "2025-13-01" w0
           half_entropy_valid (Nat.lt_0_succ _) (or_intror eq_refl)).
Defined.

(** X10.  In a conforming engine, when the two strings are calendar dates in
    the form YYYY-MM-DD with [endDate <= startDate], the date of every feature
    of a returned collection is a string between [endDate] and [startDate],
    both bounds included: an inverted range is read as the same range. *)
Theorem inverted_dates_range entropy Date_parse fuel lat lon radius startDate endDate w fc w' :
  valid_entropy entropy ->
  parses_date_only Date_parse ->
  valid_date_string startDate = true -> valid_date_string endDate = true ->
  String.leb endDate startDate = true ->
  generateBloomData entropy Date_parse fuel lat lon radius startDate endDate w
    = (Returned fc, w') ->
  Forall (fun f =>
            String.leb endDate (date (properties f)) = true /\
            String.leb (date (properties f)) startDate = true)
         (features fc).
Proof.
  intros He C Vs Ve L H.
  eapply generateBloomData_features; [|exact H].
  intros w1 f w2 B. apply body_inv in B. destruct B as (iso & Hiso & ->).
  cbn [feature_at properties date].
  destruct (valid_date_time Date_parse startDate C Vs) as (y1 & m1 & d1 & P1 & V1 & I1).
  destruct (valid_date_time Date_parse endDate C Ve) as (y2 & m2 & d2 & P2 & V2 & I2).
  destruct (parse_date_only_inv _ _ _ _ P1) as (_ & Y1 & _).
  destruct (parse_date_only_inv _ _ _ _ P2) as (_ & Y2 & _).
  pose proof (MakeDate_range y1 m1 d1 Y1 V1) as Bs.
  pose proof (MakeDate_range y2 m2 d2 Y2 V2) as Be.
  destruct (timestamp_valid entropy Date_parse He startDate endDate (draws w1) _ _ I1 I2 Bs Be)
    as (t & It & Bt & B1 & B2).
  pose proof (ordered_dates _ _ _ _ _ _ _ _ P2 V2 P1 V1 L) as Ord.
  assert (Bt' : MakeDate (MakeDay y2 (m2 - 1) d2) 0 <= t <= MakeDate (MakeDay y1 (m1 - 1) d1) 0).
  { destruct (Z.le_gt_cases (MakeDate (MakeDay y1 (m1 - 1) d1) 0)
                (MakeDate (MakeDay y2 (m2 - 1) d2) 0)) as [A|A].
    - specialize (B1 A). lia.
    - specialize (B2 A). lia. }
  rewrite (toISOString_int _ t It) in Hiso
    by (change (2 ^ 51) with 2251799813685248 in Bt; lia).
  injection Hiso as <-. rewrite date_part_of_iso.
  exact (date_between _ _ _ _ _ _ _ _ P2 V2 P1 V1 t Bt').
Qed.

(** From the end of May back to the start of March. *)
Lemma inverted_dates_range_witness :
  Forall (fun f =>
            String.leb "2025-03-01" (date (properties f)) = true /\
            String.leb (date (properties f)) "2025-05-31" = true)
         (features (returned_collection inverted_run)).
Proof.
  exact (inverted_dates_range half_entropy date_only_parse 350%nat 10%float 20%float 2%float
           "2025-05-31"%string "2025-03-01"%string w0 _ _ half_entropy_valid
           date_only_parse_conforms eq_refl eq_refl eq_refl inverted_run_returns).
Defined.

(** X11.  In a conforming engine, when the two strings are calendar dates in
    the form YYYY-MM-DD, the date of every feature of a returned collection
    is a string of ten characters that makes a valid date, and printing that
    date gives the same string followed by midnight UTC. *)
Theorem dates_parse_back entropy Date_parse fuel lat lon radius startDate endDate w fc w' :
  valid_entropy entropy ->
  parses_date_only Date_parse ->
  valid_date_string startDate = true -> valid_date_string endDate = true ->
  generateBloomData entropy Date_parse fuel lat lon radius startDate endDate w
    = (Returned fc, w') ->
  Forall (fun f =>
            String.length (date (properties f)) = 10%nat /\
            isNaN (getTime (Date_of_string Date_parse (date (properties f)))) = false /\
            toISOString (Date_of_string Date_parse (date (properties f))) =
              inl (date (properties f) ++ "T00:00:00.000Z")%string)
         (features fc).
Proof.
  intros He C Vs Ve H.
  eapply generateBloomData_features; [|exact H].
  intros w1 f w2 B. apply body_inv in B. destruct B as (iso & Hiso & ->).
  cbn [feature_at properties date].
  destruct (valid_date_time Date_parse startDate C Vs) as (y1 & m1 & d1 & P1 & V1 & I1).
  destruct (valid_date_time Date_parse endDate C Ve) as (y2 & m2 & d2 & P2 & V2 & I2).
  destruct (parse_date_only_inv _ _ _ _ P1) as (_ & Y1 & _).
  destruct (parse_date_only_inv _ _ _ _ P2) as (_ & Y2 & _).
  pose proof (MakeDate_range y1 m1 d1 Y1 V1) as Bs.
  pose proof (MakeDate_range y2 m2 d2 Y2 V2) as Be.
  destruct (MakeDay_roundtrip y1 m1 d1 V1) as (_ & Ys & _).
  destruct (MakeDay_roundtrip y2 m2 d2 V2) as (_ & Ye & _).
  destruct (timestamp_valid entropy Date_parse He startDate endDate (draws w1) _ _ I1 I2 Bs Be)
    as (t & It & Bt & B1 & B2).
  assert (Yt : 0 <= YearFromTime t <= 9999).
  { destruct (Z.le_gt_cases (MakeDate (MakeDay y1 (m1 - 1) d1) 0)
                (MakeDate (MakeDay y2 (m2 - 1) d2) 0)) as [A|A].
    - specialize (B1 A). pose proof (year_between _ _ _ B1). lia.
    - specialize (B2 A).
      pose proof (year_between (MakeDate (MakeDay y2 (m2 - 1) d2) 0) t
                    (MakeDate (MakeDay y1 (m1 - 1) d1) 0) ltac:(lia)). lia. }
  rewrite (toISOString_int _ t It) in Hiso
    by (change (2 ^ 51) with 2251799813685248 in Bt; lia).
  injection Hiso as <-. rewrite date_part_of_iso.
  destruct (Date_parse_iso_date Date_parse t C Yt) as [Ip Len].
  split; [exact Len|]. split.
  - apply (IsInt_not_nan _ _ Ip).
  - unfold getTime in Ip. unfold toISOString.
    rewrite (IsInt_not_nan _ _ Ip). destruct Ip as [Fp Vp].
    rewrite (F2Z_int _ _ Fp Vp). f_equal. f_equal.
    + apply iso_date_day.
    + rewrite iso_time_midnight. reflexivity.
Qed.

(** The dates of the sample run. *)
Lemma dates_parse_back_witness :
  Forall (fun f =>
            String.length (date (properties f)) = 10%nat /\
            isNaN (getTime (Date_of_string date_only_parse (date (properties f)))) = false /\
            toISOString (Date_of_string date_only_parse (date (properties f))) =
              inl (date (properties f) ++ "T00:00:00.000Z")%string)
         (features (returned_collection sample_run)).
Proof.
  exact (dates_parse_back half_entropy date_only_parse 350%nat 10%float 20%float 2%float
           "2025-03-01"%string "2025-05-31"%string w0 _ _ half_entropy_valid
           date_only_parse_conforms eq_refl eq_refl sample_run_returns).
Defined.

(** X12.  A run that returns has made one draw for the count and six for each
    feature, and has logged nothing. *)
Theorem draws_per_feature entropy Date_parse fuel lat lon radius startDate endDate w fc w' :
  generateBloomData entropy Date_parse fuel lat lon radius startDate endDate w
    = (Returned fc, w') ->
  draws w' = (draws w + 1 + 6 * List.length (features fc))%nat /\ console w' = console w.
Proof. apply generator_world. Qed.

(** The draws of the sample run. *)
Lemma draws_per_feature_witness :
  draws (snd sample_run) =
    (draws w0 + 1 + 6 * List.length (features (returned_collection sample_run)))%nat /\
  console (snd sample_run) = console w0.
Proof.
  exact (draws_per_feature half_entropy date_only_parse 350%nat 10%float 20%float 2%float
           "2025-03-01"%string "2025-05-31"%string w0 _ _ sample_run_returns).
Defined.

(** X13.  A returned collection has type FeatureCollection, and each of its
    features has type Feature and a geometry of type Point with two
    coordinates. *)
Theorem feature_shape entropy Date_parse fuel lat lon radius startDate endDate w fc w' :
  generateBloomData entropy Date_parse fuel lat lon radius startDate endDate w
    = (Returned fc, w') ->
  collection_type fc = "FeatureCollection"%string /\
  Forall (fun f =>
            feature_type f = "Feature"%string /\
            geometry_type (geometry f) = "Point"%string /\
            List.length (coordinates (geometry f)) = 2%nat)
         (features fc).
Proof.
  intros H. split.
  - rewrite generateBloomData_run in H.
    destruct (for_loop _ _ _ _ _ _) as [[l|e|] w1]; try discriminate.
    injection H as <- _. reflexivity.
  - eapply generateBloomData_features; [|exact H].
    intros w1 f w2 B. apply body_inv in B. destruct B as (iso & _ & ->).
    cbn. auto.
Qed.

(** The shape of the sample run. *)
Lemma feature_shape_witness :
  collection_type (returned_collection sample_run) = "FeatureCollection"%string /\
  Forall (fun f =>
            feature_type f = "Feature"%string /\
            geometry_type (geometry f) = "Point"%string /\
            List.length (coordinates (geometry f)) = 2%nat)
         (features (returned_collection sample_run)).
Proof.
  exact (feature_shape half_entropy date_only_parse 350%nat 10%float 20%float 2%float
           "2025-03-01"%string "2025-05-31"%string w0 _ _ sample_run_returns).
Defined.

(** X14.  A request with all five parameters present and not empty, three
    that parse as numbers and two that make valid dates, in whatever form the
    engine reads them, is answered 200 with a feature
    collection of 150 to 350 features, after four log lines and one draw for
    the count and six for each feature. *)
Theorem valid_request_accepted entropy Date_parse fuel q w :
  valid_entropy entropy -> (350 <= fuel)%nat ->
  truthy (q_lat q) && truthy (q_lon q) && truthy (q_radius q)
    && truthy (q_startDate q) && truthy (q_endDate q) = true ->
  isNaN (parseFloat (ToString (q_lat q))) || isNaN (parseFloat (ToString (q_lon q)))
    || isNaN (parseFloat (ToString (q_radius q))) = false ->
  isNaN (getTime (Date_of_string Date_parse (ToString (q_startDate q)))) = false ->
  isNaN (getTime (Date_of_string Date_parse (ToString (q_endDate q)))) = false ->
  exists data w',
    bloom_data_handler entropy Date_parse fuel q w =
      (Returned {| status := 200; json := DataBody data |}, w') /\
    collection_type data = "FeatureCollection"%string /\
    (150 <= List.length (features data) <= 350)%nat /\
    draws w' = (draws w + 1 + 6 * List.length (features data))%nat /\
    console w' =
      console w ++ [LogReceived;
                    LogCenter (parseFloat (ToString (q_lat q)))
                      (parseFloat (ToString (q_lon q)));
                    LogRadius (parseFloat (ToString (q_radius q)));
                    LogDates (ToString (q_startDate q)) (ToString (q_endDate q))].
Proof.
  intros He Hf Hp Hn Ns Ne. rewrite (accepted_run entropy Date_parse fuel q Hp Hn).
  destruct (generator_returns entropy Date_parse fuel (parseFloat (ToString (q_lat q)))
              (parseFloat (ToString (q_lon q))) (parseFloat (ToString (q_radius q)))
              (ToString (q_startDate q)) (ToString (q_endDate q))
              (logged (parseFloat (ToString (q_lat q))) (parseFloat (ToString (q_lon q)))
                 (parseFloat (ToString (q_radius q)))
                 (ToString (q_startDate q)) (ToString (q_endDate q)) w)
              He Hf Ns Ne) as (l & E & Len).
  unfold bind. rewrite E. eexists. eexists. split; [reflexivity|].
  cbn [collection_type features tick logged draws console].
  split; [reflexivity|]. split; [exact Len|]. split; [lia|].
  rewrite <- !app_assoc. reflexivity.
Qed.

(** The sample request. *)
Lemma valid_request_accepted_witness :
  exists data w',
    bloom_data_handler half_entropy date_only_parse 350
      (sample_query "10" "20" "2" "2025-03-01" "2025-05-31") w0 =
      (Returned {| status := 200; json := DataBody data |}, w') /\
    collection_type data = "FeatureCollection"%string /\
    (150 <= List.length (features data) <= 350)%nat /\
    draws w' = (draws w0 + 1 + 6 * List.length (features data))%nat /\
    console w' =
      console w0 ++ [LogReceived; LogCenter (parseFloat "10") (parseFloat "20");
                     LogRadius (parseFloat "2"); LogDates "2025-03-01" "2025-05-31"].
Proof.
  exact (valid_request_accepted half_entropy date_only_parse 350
           (sample_query "10" "20" "2" "2025-03-01" "2025-05-31") w0
           half_entropy_valid (le_n _) eq_refl eq_refl eq_refl eq_refl).
Defined.

(** X15.  The handler does not validate the dates: on a request that passes
    both checks with a date that does not parse, it logs the four lines and
    the RangeError of the generator escapes; no response is produced. *)
Theorem unvalidated_date_escapes entropy Date_parse fuel q w :
  valid_entropy entropy -> (0 < fuel)%nat ->
  truthy (q_lat q) && truthy (q_lon q) && truthy (q_radius q)
    && truthy (q_startDate q) && truthy (q_endDate q) = true ->
  isNaN (parseFloat (ToString (q_lat q))) || isNaN (parseFloat (ToString (q_lon q)))
    || isNaN (parseFloat (ToString (q_radius q))) = false ->
  isNaN (getTime (Date_of_string Date_parse (ToString (q_startDate q)))) = true \/
  isNaN (getTime (Date_of_string Date_parse (ToString (q_endDate q)))) = true ->
  bloom_data_handler entropy Date_parse fuel q w =
    (Thrown (RangeError "Invalid time value"),
     tick 7 (logged (parseFloat (ToString (q_lat q))) (parseFloat (ToString (q_lon q)))
               (parseFloat (ToString (q_radius q)))
               (ToString (q_startDate q)) (ToString (q_endDate q)) w)).
Proof.
  intros He Hf Hp Hn Hd. rewrite (accepted_run entropy Date_parse fuel q Hp Hn).
  unfold bind.
  assert (E : forall w1,
    generateBloomData entropy Date_parse fuel (parseFloat (ToString (q_lat q)))
      (parseFloat (ToString (q_lon q))) (parseFloat (ToString (q_radius q)))
      (ToString (q_startDate q)) (ToString (q_endDate q)) w1 =
    (Thrown (RangeError "Invalid time value"), tick 7 w1)).
  { intros w1. rewrite generateBloomData_run.
    destruct (numberOfPoints_range _ (He (draws w1))) as (n & [Fn Vn] & Bn).
    destruct fuel as [|fuel']; [lia|]. cbn [for_loop].
    assert (L : (0 <? randomInt_value (entropy (draws w1)) 150 350)%float = true).
    { rewrite ltb_val; [|reflexivity|apply Finite_not_nan, Fn].
      rewrite fval_zero, Vn. apply Z.ltb_lt. pose proof PK_pos. nia. }
    rewrite L. unfold bind. rewrite make_feature_run.
    rewrite toISOString_nan; [reflexivity|].
    apply randomInt_nan. exact Hd. }
  rewrite E. reflexivity.
Qed.

(** A start date that is no date. *)
Lemma unvalidated_date_escapes_witness :
  bloom_data_handler half_entropy date_only_parse 350
    (sample_query "10" "20" "2" "yesterday" "2025-05-31") w0 =
    (Thrown (RangeError "Invalid time value"),
     tick 7 (logged (parseFloat "10") (parseFloat "20") (parseFloat "2")
               "yesterday" "2025-05-31" w0)).
Proof.
  exact (unvalidated_date_escapes half_entropy date_only_parse 350
           (sample_query "10" "20" "2" "yesterday" "2025-05-31") w0
           half_entropy_valid (Nat.lt_0_succ _) eq_refl eq_refl (or_introl eq_refl)).
Defined.

(** X16.  Whatever the request, a response of the handler is one of three: 400
    with the missing-parameter message or 400 with the invalid-number message,
    the world untouched, or 200 with generated data, after at least one draw
    and four log lines. *)
Theorem handler_responses entropy Date_parse fuel q w r w' :
  bloom_data_handler entropy Date_parse fuel q w = (Returned r, w') ->
  (r = {| status := 400; json := ErrorBody missing_message |} /\ w' = w) \/
  (r = {| status := 400; json := ErrorBody invalid_message |} /\ w' = w) \/
  (exists data, r = {| status := 200; json := DataBody data |} /\
                (draws w < draws w')%nat /\
                List.length (console w') = (List.length (console w) + 4)%nat).
Proof.
  intros H.
  destruct (truthy (q_lat q) && truthy (q_lon q) && truthy (q_radius q)
              && truthy (q_startDate q) && truthy (q_endDate q)) eqn:Hp.
  - destruct (isNaN (parseFloat (ToString (q_lat q)))
              || isNaN (parseFloat (ToString (q_lon q)))
              || isNaN (parseFloat (ToString (q_radius q)))) eqn:Hn.
    + right. left. unfold bloom_data_handler in H.
      repeat (apply andb_prop in Hp; destruct Hp as [Hp ?]).
      repeat match goal with T : truthy _ = true |- _ => rewrite T in H; clear T end.
      cbn [negb orb] in H. rewrite Hn in H.
      unfold ret in H. injection H as <- <-. auto.
    + right. right. rewrite (accepted_run entropy Date_parse fuel q Hp Hn) in H.
      unfold bind, ret in H.
      match type of H with context [generateBloomData ?e ?p ?f ?a ?b ?c ?s1 ?s2 ?w1] =>
        pose proof (generateBloomData_draws e p f a b c s1 s2 w1) as D;
        destruct (generateBloomData e p f a b c s1 s2 w1) as [[fc|e1|] w2] eqn:G;
          try discriminate;
        apply generator_world in G
      end.
      injection H as <- <-. exists fc. split; [reflexivity|].
      cbn [snd logged draws console] in *. destruct G as [_ G]. rewrite G.
      split; [lia|]. rewrite !length_app. cbn [List.length]. lia.
  - left. rewrite (falsy_rejected entropy Date_parse fuel q w Hp) in H.
    injection H as <- <-. auto.
Qed.

(** The request with lat=abc. *)
Lemma handler_responses_witness :
  ({| status := 400; json := ErrorBody invalid_message |} =
   {| status := 400; json := ErrorBody missing_message |} /\ w0 = w0) \/
  ({| status := 400; json := ErrorBody invalid_message |} =
   {| status := 400; json := ErrorBody invalid_message |} /\ w0 = w0) \/
  (exists data, {| status := 400; json := ErrorBody invalid_message |} =
                {| status := 200; json := DataBody data |} /\
                (draws w0 < draws w0)%nat /\
                List.length (console w0) = (List.length (console w0) + 4)%nat).
Proof.
  exact (handler_responses half_entropy date_only_parse 350
           (sample_query "abc" "0" "1" "2025-03-01" "2025-05-31") w0 _ _ eq_refl).
Defined.
